(** * micro: viewport, action dispatch, event loop and settings

    A shallow embedding of [cmd/micro/view.go], of the event loop of
    [main] and of the settings store, with the properties of the
    specification stated over it.

    Conventions.
    - A Go [int] is a [Z] together with the two's complement wrap-around
      of a 64-bit word, written out in [GoInt].
    - A Go [string] ranged over with [for _, ch := range] is the list of
      its runes.
    - A [map[string]T] is a [gmap string T]; a pointer into shared data is
      an index into an explicit store.
    - A run-time panic (failed type assertion, index out of range) is
      [None] in the option monad. *)

From Stdlib Require Import ZArith List Lia Bool Ascii.
From stdpp Require Import base option list strings gmap.

Local Open Scope Z_scope.

(** ** Go's [int] *)

Module GoInt.

Definition minInt : Z := - 2 ^ 63.
Definition maxInt : Z := 2 ^ 63 - 1.

Definition inRange (z : Z) : Prop := minInt <= z <= maxInt.

Definition wrap (z : Z) : Z := (z + 2 ^ 63) mod 2 ^ 64 - 2 ^ 63.

Definition add (a b : Z) : Z := wrap (a + b).
Definition sub (a b : Z) : Z := wrap (a - b).

(** Values far from the ends of the range: sums and differences of a
    few of them do not wrap. *)
Definition small (z : Z) : Prop := - 2 ^ 60 <= z <= 2 ^ 60.

End GoInt.

(** ** Values of the settings maps

    [Settings] is a [map[string]interface{}] holding booleans, strings
    and [float64] numbers.  Every number the program itself stores is
    integral ([DefaultGlobalSettings], and [float64(i)] in [SetOption]);
    a [VFloat] carries that integer, and [int(x.(float64))] reads it
    back.  [VList] stands for the string slices of [pluginchannels] and
    [pluginrepos], whose kind is none of the three above; [VMap] for a
    nested object of [settings.json], kept as its text; [VNull] for a
    [nil] interface. *)

Inductive Value : Type :=
| VBool (b : bool)
| VString (s : string)
| VFloat (z : Z)
| VList (l : list string)
| VMap (json : string)
| VNull.

#[global] Instance Value_eq_dec : EqDecision Value.
Proof. solve_decision. Defined.

(** [m[k].(bool)]: panics unless the entry is a boolean. *)
Definition asBool (o : option Value) : option bool :=
  match o with Some (VBool b) => Some b | _ => None end.

(** [int(m[k].(float64))]. *)
Definition asInt (o : option Value) : option Z :=
  match o with Some (VFloat z) => Some z | _ => None end.

(** [m[k] == true]: an interface comparison, false for any other kind. *)
Definition isTrue (o : option Value) : bool :=
  match o with Some (VBool true) => true | _ => false end.

(** ** The view ([view.go]) *)

Module Viewport.

Import GoInt.

Definition rune : Type := Z.
Definition tab : rune := 9.

(** [ViewType] and its six values. *)
Record ViewType : Type := mkViewType {
  Kind : Z;
  Readonly : bool;
  Scratch : bool
}.

Definition vtDefault := mkViewType 0 false false.
Definition vtHelp := mkViewType 1 true true.
Definition vtLog := mkViewType 2 true true.
Definition vtScratch := mkViewType 3 false true.
Definition vtRaw := mkViewType 4 true true.
Definition vtTerm := mkViewType 5 true true.

#[global] Instance ViewType_eq_dec : EqDecision ViewType.
Proof. solve_decision. Defined.

(** The part of [Buffer] the view reads.  [Line] is the buffer's own
    method (its file is not part of this development), so a buffer
    carries it as a function; [NumLines] is a field of its own in the
    source as well. *)
Record Buffer : Type := mkBuffer {
  NumLines : Z;
  Line : Z -> list rune;
  Settings : gmap string Value
}.

Record Cursor : Type := mkCursor {
  X : Z;
  Y : Z
}.

Record GutterMessage : Type := mkGutterMessage {
  lineNum : Z;
  msg : string;
  kind : Z
}.

Record View : Type := mkView {
  Cursor_ : Cursor;
  Topline : Z;
  leftCol : Z;
  Type_ : ViewType;
  Width : Z;
  Height : Z;
  x : Z;
  y : Z;
  lineNumOffset : Z;
  messages : gmap string (list GutterMessage);
  Buf : Buffer
}.

Definition setTopline (t : Z) (v : View) : View :=
  mkView (Cursor_ v) t (leftCol v) (Type_ v) (Width v) (Height v)
         (x v) (y v) (lineNumOffset v) (messages v) (Buf v).

Definition setLeftCol (l : Z) (v : View) : View :=
  mkView (Cursor_ v) (Topline v) l (Type_ v) (Width v) (Height v)
         (x v) (y v) (lineNumOffset v) (messages v) (Buf v).

Definition setLineNumOffset (o : Z) (v : View) : View :=
  mkView (Cursor_ v) (Topline v) (leftCol v) (Type_ v) (Width v) (Height v)
         (x v) (y v) o (messages v) (Buf v).

Definition setCursor (c : Cursor) (v : View) : View :=
  mkView c (Topline v) (leftCol v) (Type_ v) (Width v) (Height v)
         (x v) (y v) (lineNumOffset v) (messages v) (Buf v).

Definition setMessages (m : gmap string (list GutterMessage)) (v : View) : View :=
  mkView (Cursor_ v) (Topline v) (leftCol v) (Type_ v) (Width v) (Height v)
         (x v) (y v) (lineNumOffset v) m (Buf v).

(** *** ScrollUp, ScrollDown *)

Definition ScrollUp (n : Z) (v : View) : View :=
  if 0 <=? sub (Topline v) n then setTopline (sub (Topline v) n) v
  else if 0 <? Topline v then setTopline (sub (Topline v) 1) v
  else v.

Definition ScrollDown (n : Z) (v : View) : View :=
  if add (Topline v) n <=? NumLines (Buf v) then setTopline (add (Topline v) n) v
  else if Topline v <? sub (NumLines (Buf v)) 1 then setTopline (add (Topline v) 1) v
  else v.

(** *** Bottomline

    The body of [for _, ch := range line]: one rune advances the
    pair [(screenX, screenY)].  [colN] is counted by the source and
    never read. *)
Definition wrapRune (v : View) (st : option (Z * Z)) (ch : rune) : option (Z * Z) :=
  '(screenX, screenY) ← st;
  let '(screenX, screenY) :=
    if sub (Width v) (lineNumOffset v) <=? screenX
    then (0, add screenY 1) else (screenX, screenY) in
  screenX ← (if ch =? tab
             then tabsize ← asInt (Settings (Buf v) !! "tabsize");
                  Some (add screenX (sub tabsize 1))
             else Some screenX);
  Some (add screenX 1, screenY).

Definition wrapLine (v : View) (screenY : Z) (line : list rune) : option Z :=
  snd <$> fold_left (wrapRune v) line (Some (0, screenY)).

(** The loop [for lineN := v.Topline; lineN < v.Topline+v.Height; lineN++]
    with its [break].  [todo] is the number of values [lineN] still
    has to take, so the recursion runs out exactly when the loop
    condition fails. *)
Fixpoint bottomLoop (v : View) (todo : nat) (lineN screenY numLines : Z) : option Z :=
  match todo with
  | O => Some numLines
  | S todo' =>
      screenY ← wrapLine v screenY (Line (Buf v) lineN);
      let screenY := add screenY 1 in
      let numLines := add numLines 1 in
      if Height v <=? screenY then Some numLines
      else bottomLoop v todo' (add lineN 1) screenY numLines
  end.

Definition Bottomline (v : View) : option Z :=
  softwrap ← asBool (Settings (Buf v) !! "softwrap");
  if negb softwrap then Some (add (Topline v) (Height v))
  else
    numLines ← bottomLoop v (Z.to_nat (add (Topline v) (Height v) - Topline v))
                          (Topline v) 0 0;
    Some (add numLines (Topline v)).

Section WithCursor.

(** [Cursor.GetVisualX] belongs to the cursor's file.  It reads the
    cursor and its buffer, never the view. *)
Variable GetVisualX : Cursor -> Buffer -> Z.

(** *** Relocate *)

Definition relocateTop (cy scrollmargin : Z) (top : Z) : Z * bool :=
  if (cy <? add top scrollmargin) && (sub scrollmargin 1 <? cy)
  then (sub cy scrollmargin, true)
  else if cy <? top then (cy, true)
  else (top, false).

Definition relocateBottom (cy scrollmargin height numLines : Z) (tr : Z * bool) : Z * bool :=
  let '(top, ret) := tr in
  if (sub (sub (add top height) 1) scrollmargin <? cy)
     && (cy <? sub numLines scrollmargin)
  then (add (add (sub cy height) 1) scrollmargin, true)
  else if (sub numLines scrollmargin <=? cy) && (height <=? cy)
  then (sub numLines height, true)
  else (top, ret).

Definition relocateLeft (cx : Z) (v : View) (lr : Z * bool) : Z * bool :=
  let '(lcol, ret) := lr in
  let '(lcol, ret) := if cx <? lcol then (cx, true) else (lcol, ret) in
  if add lcol (Width v) <? add (add cx (lineNumOffset v)) 1
  then (add (add (sub cx (Width v)) (lineNumOffset v)) 1, true)
  else (lcol, ret).

Definition Relocate (v : View) : option (View * bool) :=
  bottom ← Bottomline v;
  let height := sub bottom (Topline v) in
  let cy := Y (Cursor_ v) in
  scrollmargin ← asInt (Settings (Buf v) !! "scrollmargin");
  let '(top, ret) :=
    relocateBottom cy scrollmargin height (NumLines (Buf v))
                   (relocateTop cy scrollmargin (Topline v)) in
  softwrap ← asBool (Settings (Buf v) !! "softwrap");
  let '(lcol, ret) :=
    if negb softwrap
    then relocateLeft (GetVisualX (Cursor_ v) (Buf v)) v (leftCol v, ret)
    else (leftCol v, ret) in
  Some (setLeftCol lcol (setTopline top v), ret).

(** *** DisplayView

    [len(strconv.Itoa(n))]: the decimal digits of [n], and one more
    for the sign. *)
Fixpoint digits (fuel : nat) (n : Z) : Z :=
  match fuel with
  | O => 1
  | S fuel' => if n <? 10 then 1 else 1 + digits fuel' (n / 10)
  end.

Definition itoaLen (n : Z) : Z :=
  if n <? 0 then 1 + digits 20 (- n) else digits 20 n.

(** [for _, v := range v.messages { if len(v) > 0 { ... = true } }] *)
Definition hasGutterMessages (v : View) : bool :=
  map_fold (fun _ l acc => if bool_decide (l = []) then acc else true)
           false (messages v).

(** What the drawing loop of [DisplayView] (from [cellview.Draw] to
    [Completer.Display]) leaves in the view: it writes to the screen
    and to the messenger, and of the view's own fields it assigns
    only [Cursor], through [SetCursor].  [None] is a panic of one of
    its type assertions. *)
Variable drawCells : View -> option Cursor.

Definition DisplayView (v : View) : option View :=
  if decide (Type_ v = vtTerm) then Some v
  else
    let softwrap := asBool (Settings (Buf v) !! "softwrap") in
    softwrap ← softwrap;
    let v := if softwrap && negb (leftCol v =? 0) then setLeftCol 0 v else v in
    v ← (if decide (Type_ v = vtLog ∨ Type_ v = vtRaw)
         then fst <$> Relocate v else Some v);
    let maxLineNumLength := itoaLen (NumLines (Buf v)) in
    let off := if isTrue (Settings (Buf v) !! "ruler")
               then add maxLineNumLength 1 else 0 in
    let off := if hasGutterMessages v then add off 2 else off in
    let off := if negb (x v =? 0) then add off 1 else off in
    let v := setLineNumOffset off v in
    c ← drawCells v;
    Some (setCursor c v).

End WithCursor.

(** *** GutterMessage *)

(** The two nested loops over [v.messages]: is there a message of
    any section on line [lineN]? *)
Definition lineTakenb (lineN : Z) (m : gmap string (list GutterMessage)) : bool :=
  map_fold (fun _ l acc => existsb (fun g => lineNum g =? lineN) l || acc) false m.

(** The same as a proposition: some section holds a message whose
    line index is [lineN]. *)
Definition lineTaken (lineN : Z) (m : gmap string (list GutterMessage)) : Prop :=
  ∃ s l g, m !! s = Some l ∧ g ∈ l ∧ lineNum g = lineN.

Definition GutterMessage_ (section_ : string) (lineN : Z) (msg_ : string) (kind_ : Z)
           (v : View) : View :=
  let lineN := sub lineN 1 in
  let gutterMsg := mkGutterMessage lineN msg_ kind_ in
  if lineTakenb lineN (messages v) then v
  else
    let messages_ := default [] (messages v !! section_) in
    setMessages (<[section_ := messages_ ++ [gutterMsg]]> (messages v)) v.

End Viewport.

(** ** Dispatch of bound actions ([ExecuteActions], [HandleEvent]) *)

Module Dispatch.

Import Viewport.

(** A bound action is a Go function value.  The dispatcher looks at
    its name, [ShortFuncName(action)], and calls it; [actionId] tells
    two functions of one name apart. *)
Record Action : Type := mkAction {
  funcName : string;
  actionId : nat
}.

Inductive MacroItem : Type :=
| MAction (a : Action)
| MRune (r : rune).

Record Key : Type := mkKey {
  keyCode : Z;
  modifiers : Z;
  buttons : Z;
  r : rune;
  escape : string
}.

Inductive Event : Type :=
| EventRaw (esc : string)
| EventKey (key : Z) (ch : rune) (mods : Z)
| EventPaste (text : string)
| EventMouse (btn : Z) (mods : Z) (px py : Z)
| EventResize (w h : Z).

(** tcell's constants. *)
Definition KeyRune : Z := 256.
Definition KeyCtrlQ : Z := 17.
Definition ButtonNone : Z := 0.

(** [strings.Contains]. *)
Fixpoint Contains (s substr : string) : bool :=
  String.prefix substr s
  || match s with
     | EmptyString => false
     | String _ s' => Contains s' substr
     end.

Definition readonlyBindingsList : list string :=
  ["Delete"; "Insert"; "Backspace"; "Cut"; "Play"; "Paste"; "Move"; "Add";
   "DuplicateLine"; "Macro"]%string.

(** The inner loop of [ExecuteActions] over [readonlyBindingsList]. *)
Definition matchesReadonlyList (name : string) : bool :=
  existsb (Contains name) readonlyBindingsList.

(** Calls into the buffer, the cursors, the completer, the plugins,
    the messenger and the terminal, none of which is part of this
    development.  Each is an opaque transformer of the editor. *)
Inductive Call : Type :=
| CTermHandleEvent (ev : Event)
| CRawInsertType (ev : Event)
| CRawInsertEscSeq (ev : Event)
| CQuit
| CCheckModTime
| CMergeCursors
| CCompleterHandleEvent (key : Z)
| CDeleteSelection
| CResetSelection
| CReplaceRune (ch : rune)
| CInsertRune (ch : rune)
| CCompleterProcess (ch : rune)
| COnRunePlugins (ch : rune)
| CPreActionCall (name : string)
| CPostActionCall (name : string)
| CBufInsert (clip : string)
| CMessage (text : string)
| CMouseAction (a : Action) (ev : Event)
| CMoveToMouseClick (px py : Z)
| CSetSelectionEnd
| CCopySelection (reg : string)
| CRelocate
| CDeactivateIfOutOfBounds.

(** Questions whose answer steers the dispatcher. *)
Inductive Query : Type :=
| QCompleterHandled (key : Z)
| QHasSelection
| QPreActionOk (name : string).

Section WithCollaborators.

(** [W] is the rest of the process: buffers with their text and
    cursor structures, plugins, screen.  [Ptr] is a [*Cursor]. *)
Context {W : Type} {Ptr : Type}.

Record ViewSt : Type := mkViewSt {
  vType : ViewType;
  vCursor : option Ptr;
  isOverwriteMode : bool;
  mouseReleased : bool;
  doubleClick : bool;
  tripleClick : bool;
  freshClip : bool
}.

(** [curView] is the index of the view [CurView()] returns. *)
Record Editor : Type := mkEditor {
  views : list ViewSt;
  curView : nat;
  recordingMacro : bool;
  curMacro : list MacroItem;
  world : W
}.

(** The observable steps of a dispatch, in order. *)
Inductive LogItem : Type :=
| LInvoke (a : Action) (curv : nat)
| LSkip (a : Action) (curv : nat)
| LSetCursor (v : nat) (c : Ptr)
| LCall (c : Call) (v : nat).

Record St : Type := mkSt {
  ed : Editor;
  trace : list LogItem
}.

(** State, failure (a Go panic) and the log. *)
Definition M (A : Type) : Type := St -> option (A * St).

Definition ret {A} (a : A) : M A := fun s => Some (a, s).
Definition bind {A B} (m : M A) (k : A -> M B) : M B :=
  fun s => match m s with Some (a, s') => k a s' | None => None end.
Definition panic {A} : M A := fun _ => None.
Definition get : M Editor := fun s => Some (ed s, s).
Definition modify (f : Editor -> Editor) : M unit :=
  fun s => Some (tt, mkSt (f (ed s)) (trace s)).
Definition emit (l : LogItem) : M unit :=
  fun s => Some (tt, mkSt (ed s) (trace s ++ [l])).

Notation "x <- c ;; k" := (bind c (fun x => k))
  (at level 100, c at next level, right associativity).
Notation "c ;;; k" := (bind c (fun _ => k))
  (at level 100, right associativity).

Definition setViews (vs : list ViewSt) (e : Editor) : Editor :=
  mkEditor vs (curView e) (recordingMacro e) (curMacro e) (world e).
Definition setWorld (w : W) (e : Editor) : Editor :=
  mkEditor (views e) (curView e) (recordingMacro e) (curMacro e) w.
Definition appendMacro (i : MacroItem) (e : Editor) : Editor :=
  mkEditor (views e) (curView e) (recordingMacro e) (curMacro e ++ [i]) (world e).

Definition updView (v : nat) (f : ViewSt -> ViewSt) (e : Editor) : Editor :=
  setViews (alter f v (views e)) e.

(** Dereferencing a view pointer. *)
Definition theView (v : nat) : M ViewSt :=
  e <- get ;;
  match views e !! v with Some vs => ret vs | None => panic end.

(** *** The collaborators *)

(** [action(curv, true)]. *)
Variable callAction : Action -> nat -> Editor -> Editor * bool.
Variable perform : Call -> nat -> Editor -> Editor.
Variable ask : Query -> nat -> Editor -> bool.
(** [len(v.Buf.cursors)] when a [range] over it starts. *)
Variable lenCursors : nat -> Editor -> nat.
(** Element [i] of the slice a [range] took in state [e0], as it is
    when the loop reaches it in state [e]; [None] is [nil]. *)
Variable rangeCursor : nat -> Editor -> nat -> Editor -> option Ptr.
(** [&v.Buf.Cursor]. *)
Variable primaryCursor : nat -> Editor -> Ptr.
(** [v.Buf.curCursor = c.Num]. *)
Variable storeCurCursor : nat -> Ptr -> W -> W.
(** The clipboard text after the re-indentation of [smartpaste]. *)
Variable smartClip : nat -> string -> Editor -> string.

Definition call (c : Call) (v : nat) : M unit :=
  modify (perform c v) ;;; emit (LCall c v).

Definition query (q : Query) (v : nat) : M bool :=
  e <- get ;; ret (ask q v e).

(** *** ExecuteActions *)

Definition invokeAction (action : Action) (curv : nat) : M bool :=
  e <- get ;;
  let '(e', rel) := callAction action curv e in
  modify (fun _ => e') ;;;
  emit (LInvoke action curv) ;;;
  (if negb (String.eqb (funcName action) "ToggleMacro")
      && negb (String.eqb (funcName action) "PlayMacro")
   then e <- get ;;
        if recordingMacro e then modify (appendMacro (MAction action)) else ret tt
   else ret tt) ;;;
  ret rel.

(** One turn of the loop over [actions]. *)
Definition executeAction (relocate : bool) (action : Action) : M bool :=
  e <- get ;;
  let curv := curView e in
  cv <- theView curv ;;
  let readonlyBindingsResult :=
    if Readonly (vType cv) then matchesReadonlyList (funcName action) else false in
  if negb readonlyBindingsResult
  then rel <- invokeAction action curv ;; ret (rel || relocate)
  else emit (LSkip action curv) ;;; ret relocate.

Fixpoint executeLoop (relocate : bool) (actions : list Action) : M bool :=
  match actions with
  | [] => ret relocate
  | action :: rest =>
      relocate <- executeAction relocate action ;;
      executeLoop relocate rest
  end.

(** The receiver [v] is not read by the body. *)
Definition ExecuteActions (v : nat) (actions : list Action) : M bool :=
  executeLoop false actions.

(** *** SetCursor *)

Definition SetCursor (v : nat) (c : option Ptr) : M bool :=
  match c with
  | None => ret false
  | Some p =>
      _ <- theView v ;;
      modify (updView v (fun vs =>
        mkViewSt (vType vs) (Some p) (isOverwriteMode vs) (mouseReleased vs)
                 (doubleClick vs) (tripleClick vs) (freshClip vs))) ;;;
      modify (fun e => setWorld (storeCurCursor v p (world e)) e) ;;;
      emit (LSetCursor v p) ;;;
      ret true
  end.

Definition resetToPrimary (v : nat) : M unit :=
  e <- get ;; SetCursor v (Some (primaryCursor v e)) ;;; ret tt.

(** *** HandleEvent

    [bindings] and [mouseBindings] are Go maps; a [range] over one
    visits its entries in an order of its own choosing, which is
    the order of the association list given here. *)
Definition Bindings : Type := list (Key * list Action).

(** [for _, c := range v.Buf.cursors] of the three binding paths.
    [e0] is the editor when the loop starts, [idx] the indices still
    to visit.  The accumulator is [(relocate, isBinding)]; the mouse
    path keeps the old [relocate] ([keep]), the other two reset it. *)
Fixpoint cursorLoop (v : nat) (e0 : Editor) (actions : list Action) (keep : bool)
         (idx : list nat) (acc : bool * bool) : M (bool * bool) :=
  match idx with
  | [] => ret acc
  | i :: idx' =>
      e <- get ;;
      ok <- SetCursor v (rangeCursor v e0 i e) ;;
      if negb ok then ret acc
      else
        let relocate := if keep then fst acc else false in
        rel <- ExecuteActions v actions ;;
        cursorLoop v e0 actions keep idx' (rel || relocate, true)
  end.

Definition dispatchBinding (v : nat) (actions : list Action) (keep : bool)
           (acc : bool * bool) : M (bool * bool) :=
  e0 <- get ;;
  acc <- cursorLoop v e0 actions keep (seq 0 (lenCursors v e0)) acc ;;
  resetToPrimary v ;;;
  call CMergeCursors v ;;;
  ret acc.

Fixpoint rawBindings (v : nat) (esc : string) (bs : Bindings) (relocate : bool) : M bool :=
  match bs with
  | [] => ret relocate
  | (key, actions) :: bs' =>
      if (keyCode key =? -1) && String.eqb esc (escape key)
      then acc <- dispatchBinding v actions false (relocate, false) ;; ret (fst acc)
      else rawBindings v esc bs' relocate
  end.

Fixpoint keyBindings (v : nat) (key : Z) (ch : rune) (mods : Z) (bs : Bindings)
         (acc : bool * bool) : M (bool * bool) :=
  match bs with
  | [] => ret acc
  | (k, actions) :: bs' =>
      if key =? keyCode k
      then if (key =? KeyRune) && negb (ch =? r k)
           then keyBindings v key ch mods bs' acc
           else if mods =? modifiers k
                then dispatchBinding v actions false acc
                else keyBindings v key ch mods bs' acc
      else keyBindings v key ch mods bs' acc
  end.

Fixpoint mouseKeyBindings (v : nat) (btn mods : Z) (bs : Bindings) (relocate : bool)
  : M bool :=
  match bs with
  | [] => ret relocate
  | (k, actions) :: bs' =>
      if (btn =? buttons k) && (mods =? modifiers k)
      then acc <- dispatchBinding v actions true (relocate, false) ;;
           mouseKeyBindings v btn mods bs' (fst acc)
      else mouseKeyBindings v btn mods bs' relocate
  end.

Fixpoint mouseActions (v : nat) (ev : Event) (actions : list Action) : M unit :=
  match actions with
  | [] => ret tt
  | a :: rest => call (CMouseAction a ev) v ;;; mouseActions v ev rest
  end.

Fixpoint mouseOnlyBindings (v : nat) (btn mods : Z) (ev : Event) (bs : Bindings) : M unit :=
  match bs with
  | [] => ret tt
  | (k, actions) :: bs' =>
      (if (btn =? buttons k) && (mods =? modifiers k)
       then mouseActions v ev actions else ret tt) ;;;
      mouseOnlyBindings v btn mods ev bs'
  end.

Definition dropSelection (v : nat) : M unit :=
  sel <- query QHasSelection v ;;
  if sel then call CDeleteSelection v ;;; call CResetSelection v else ret tt.

(** The body of the loop that inserts a typed rune at one cursor.
    [CCompleterProcess] and [COnRunePlugins] stand for the call
    together with the report of its error. *)
Definition insertRuneAt (v : nat) (ch : rune) (c : option Ptr) : M unit :=
  SetCursor v c ;;;
  dropSelection v ;;;
  vs <- theView v ;;
  (if isOverwriteMode vs then call (CReplaceRune ch) v else call (CInsertRune ch) v) ;;;
  call (CCompleterProcess ch) v ;;;
  call (COnRunePlugins ch) v ;;;
  e <- get ;;
  if recordingMacro e then modify (appendMacro (MRune ch)) else ret tt.

Fixpoint insertRuneLoop (v : nat) (e0 : Editor) (ch : rune) (idx : list nat) : M unit :=
  match idx with
  | [] => ret tt
  | i :: idx' =>
      e <- get ;;
      insertRuneAt v ch (rangeCursor v e0 i e) ;;;
      insertRuneLoop v e0 ch idx'
  end.

(** [View.paste]. *)
Definition paste (v : nat) (clip : string) : M unit :=
  e <- get ;;
  let clip := smartClip v clip e in
  dropSelection v ;;;
  call (CBufInsert clip) v ;;;
  modify (updView v (fun vs =>
    mkViewSt (vType vs) (vCursor vs) (isOverwriteMode vs) (mouseReleased vs)
             (doubleClick vs) (tripleClick vs) false)) ;;;
  call (CMessage "Pasted clipboard") v.

Fixpoint pasteLoop (v : nat) (e0 : Editor) (clip : string) (idx : list nat) : M unit :=
  match idx with
  | [] => ret tt
  | i :: idx' =>
      e <- get ;;
      SetCursor v (rangeCursor v e0 i e) ;;;
      paste v clip ;;;
      pasteLoop v e0 clip idx'
  end.

Definition mouseRelease (v : nat) (px py : Z) : M unit :=
  vs <- theView v ;;
  if negb (mouseReleased vs)
  then
    (if negb (doubleClick vs) && negb (tripleClick vs)
     then call (CMoveToMouseClick px py) v ;;;
          call CSetSelectionEnd v ;;;
          call (CCopySelection "primary") v
     else ret tt) ;;;
    modify (updView v (fun vs =>
      mkViewSt (vType vs) (vCursor vs) (isOverwriteMode vs) true
               (doubleClick vs) (tripleClick vs) (freshClip vs)))
  else ret tt.

(** The [switch] on the event's type; the result is [relocate]. *)
Definition handleSwitch (v : nat) (bindings mouseBindings : Bindings) (event : Event)
  : M bool :=
  match event with
  | EventRaw esc => rawBindings v esc bindings true
  | EventKey key ch mods =>
      e <- get ;;
      let taken := ask (QCompleterHandled key) v e in
      call (CCompleterHandleEvent key) v ;;;
      if taken then ret true
      else
        acc <- keyBindings v key ch mods bindings (true, false) ;;
        let '(relocate, isBinding) := acc in
        (if negb isBinding && (key =? KeyRune)
         then vs <- theView v ;;
              if negb (Readonly (vType vs))
              then e0 <- get ;;
                   insertRuneLoop v e0 ch (seq 0 (lenCursors v e0)) ;;;
                   resetToPrimary v
              else ret tt
         else ret tt) ;;;
        ret relocate
  | EventPaste text =>
      vs <- theView v ;;
      (if negb (Readonly (vType vs))
       then e <- get ;;
            let ok := ask (QPreActionOk "Paste") v e in
            call (CPreActionCall "Paste") v ;;;
            if ok
            then e0 <- get ;;
                 pasteLoop v e0 text (seq 0 (lenCursors v e0)) ;;;
                 resetToPrimary v ;;;
                 call (CPostActionCall "Paste") v
            else ret tt
       else ret tt) ;;;
      ret true
  | EventMouse btn mods px py =>
      relocate <- mouseKeyBindings v btn mods bindings false ;;
      mouseOnlyBindings v btn mods event mouseBindings ;;;
      (if btn =? ButtonNone then mouseRelease v px py else ret tt) ;;;
      ret relocate
  | EventResize _ _ => ret true
  end.

Definition HandleEvent (v : nat) (bindings mouseBindings : Bindings) (event : Event)
  : M unit :=
  vs <- theView v ;;
  if decide (vType vs = vtTerm) then call (CTermHandleEvent event) v
  else if decide (vType vs = vtRaw) then
    call (CRawInsertType event) v ;;;
    call (CRawInsertEscSeq event) v ;;;
    match event with
    | EventKey key _ _ => if key =? KeyCtrlQ then call CQuit v else ret tt
    | _ => ret tt
    end
  else
    call CCheckModTime v ;;;
    relocate <- handleSwitch v bindings mouseBindings event ;;
    (if relocate then call CRelocate v ;;; call CRelocate v else ret tt) ;;;
    call CDeactivateIfOutOfBounds v.

(** Running a dispatch from an editor, with an empty log. *)
Definition run {A} (m : M A) (e : Editor) : option (A * St) := m (mkSt e []).

End WithCollaborators.

End Dispatch.

(** ** The event loop of [main] *)

Module Scheduler.

Import Dispatch.

Definition Button1 : Z := 1.
Definition WheelUp : Z := 256.
Definition WheelDown : Z := 512.

(** What the loop does, in order, as seen from outside. *)
Inductive Step : Type :=
| SRedrawAll
| SJob (job : nat)
| SSave
| SCloseTerminal (vnum : nat)
| SResizeTabs
| SClipboardWrite
| SFocusClicked (ev : Event)
| SViewHandleEvent (v : nat) (ev : Event)
| STabbarHandleMouseEvent (ev : Event) (changed : bool)
| SHandleSearchEvent (ev : Event)
| SCurViewHandleEvent (ev : Event).

(** The branch the first [select] of an iteration takes. *)
Inductive Wake : Type :=
| WJob (job : nat)
| WAutosave
| WUpdateTerm
| WCloseTerm (vnum : nat)
| WEvents.

Section WithWorld.

(** [W]: tabs, views, buffers, messenger, screen. *)
Context {W : Type}.

(** [events] is a buffered channel of [tcell.Event]; an interface
    value may be [nil], here [None]. *)
Record Loop : Type := mkLoop {
  world : W;
  events : list (option Event);
  steps : list Step
}.

Variable RedrawAll : W -> W.
Variable runJob : nat -> W -> W.
(** [CurView().Buf.Path != ""] *)
Variable hasPath : W -> bool.
Variable Save : W -> W.
Variable CloseTerminal : nat -> W -> W.
Variable resizeTabs : W -> W.
Variable searching : W -> bool.
(** [y == h-1 && messenger.message != "" && globalSettings["infobar"]] *)
Variable onInfobarMessage : Event -> W -> bool.
Variable clipboardWrite : W -> W.
(** [CurView().mouseReleased] and the loop that makes the clicked
    view the current one. *)
Variable curMouseReleased : W -> bool.
Variable focusClicked : Event -> W -> W.
(** The view under the wheel event, if any. *)
Variable viewUnder : Event -> W -> option nat.
Variable viewHandleEvent : nat -> Event -> W -> W.
Variable TabbarHandleMouseEvent : Event -> W -> W * bool.
Variable HandleSearchEvent : Event -> W -> W.
Variable curViewHandleEvent : Event -> W -> W.

Definition step (f : W -> W) (s : Step) (l : Loop) : Loop :=
  mkLoop (f (world l)) (events l) (steps l ++ [s]).

(** The [switch e := event.(type)] of the drain loop; the result
    carries [didAction]. *)
Definition preDispatch (ev : Event) (l : Loop) : Loop * bool :=
  match ev with
  | EventResize _ _ => (step resizeTabs SResizeTabs l, false)
  | EventMouse btn _ _ _ =>
      if negb (searching (world l)) then
        if btn =? Button1 then
          if onInfobarMessage ev (world l)
          then (step clipboardWrite SClipboardWrite l, false)
          else if curMouseReleased (world l)
               then (step (focusClicked ev) (SFocusClicked ev) l, false)
               else (l, false)
        else if (btn =? WheelUp) || (btn =? WheelDown) then
          match viewUnder ev (world l) with
          | Some v => (step (viewHandleEvent v ev) (SViewHandleEvent v ev) l, true)
          | None => (l, false)
          end
        else (l, false)
      else (l, false)
  | _ => (l, false)
  end.

(** One turn of [for event != nil]; [true] is the [break] after a
    change of tab. *)
Definition dispatchOne (ev : Event) (l : Loop) : Loop * bool :=
  let '(l, didAction) := preDispatch ev l in
  if negb didAction then
    let '(w, changed) := TabbarHandleMouseEvent ev (world l) in
    let l := mkLoop w (events l) (steps l ++ [STabbarHandleMouseEvent ev changed]) in
    if changed then (l, true)
    else if searching (world l)
         then (step (HandleSearchEvent ev) (SHandleSearchEvent ev) l, false)
         else (step (curViewHandleEvent ev) (SCurViewHandleEvent ev) l, false)
  else (l, false).

(** [for event != nil { ...; select { case event = <-events: default: event = nil } }]
    [queue] is what the channel holds; the result is the loop and
    what is left in the channel. *)
Fixpoint drain (event : option Event) (queue : list (option Event)) (l : Loop)
  : Loop * list (option Event) :=
  match event with
  | None => (l, queue)
  | Some ev =>
      let '(l, stop) := dispatchOne ev l in
      if stop then (l, queue)
      else match queue with
           | [] => (l, [])
           | next :: queue' => drain next queue' l
           end
  end.

(** One iteration of the outer [for].  [None]: the chosen branch of
    the [select] is not ready. *)
Definition iteration (wk : Wake) (l : Loop) : option Loop :=
  let l := step RedrawAll SRedrawAll l in
  match wk with
  | WJob j => Some (step (runJob j) (SJob j) l)
  | WAutosave =>
      Some (if hasPath (world l) then step Save SSave l else l)
  | WUpdateTerm => Some l
  | WCloseTerm vnum => Some (step (CloseTerminal vnum) (SCloseTerminal vnum) l)
  | WEvents =>
      match events l with
      | [] => None
      | event :: queue =>
          let '(l', rest) := drain event queue (mkLoop (world l) queue (steps l)) in
          Some (mkLoop (world l') rest (steps l'))
      end
  end.

Fixpoint iterations (wks : list Wake) (l : Loop) : option Loop :=
  match wks with
  | [] => Some l
  | wk :: wks' => l' ← iteration wk l; iterations wks' l'
  end.

End WithWorld.

End Scheduler.

(** ** The settings store *)

Module Config.

(** External effects of the settings code, in order: calls whose
    results the settings code never reads back. *)
Inductive Effect : Type :=
| ETermMessage (text : string)
| EMessengerError (text : string)
| EInitColorscheme
| EUpdateRules (buf : nat)
| EResizeTab (tab : nat)
| EEnableMouse
| EDisableMouse
| EFastDirty (on : bool)
| EToggleStatusLine (tab view : nat)
| ESetModified (buf : nat)
| EClearMatches (buf : nat)
| EHighlightStates (buf : nat).

(** A view of a tab: the buffer it points to. *)
Record Tab : Type := mkTab {
  Views : list nat;
  CurView_ : nat
}.

Section WithFiles.

(** [FS]: the file system, as far as [configDir] goes. *)
Context {FS : Type}.

Record Config : Type := mkConfig {
  globalSettings : gmap string Value;
  invalidSettings : bool;
  bufSettings : list (gmap string Value);
  tabs : list Tab;
  curTab : nat;
  effects : list Effect;
  fs : FS
}.

(** [os.Stat(configDir)] and [os.Stat(configDir + "/settings.json")]
    succeed. *)
Variable dirExists : FS -> bool.
Variable fileExists : FS -> bool.
(** [os.IsNotExist] of the error of that second [os.Stat]. *)
Variable fileNotExist : FS -> bool.
(** [ioutil.ReadFile]: the bytes read and the error, if any. *)
Variable ReadFile : FS -> string * option string.
(** [ioutil.WriteFile] of the settings file. *)
Variable WriteFile : string -> FS -> FS * option string.
(** [json5.Unmarshal(input, &parsed)]: the map after the call and
    the error, if any. *)
Variable Unmarshal : string -> gmap string Value -> gmap string Value * option string.
(** [json.MarshalIndent] followed by the newline. *)
Variable Marshal : gmap string Value -> string.
Variable ParseBool : string -> option bool.
Variable ColorschemeExists : string -> bool.

Definition setGlobal (g : gmap string Value) (c : Config) : Config :=
  mkConfig g (invalidSettings c) (bufSettings c) (tabs c) (curTab c) (effects c) (fs c).
Definition setInvalid (b : bool) (c : Config) : Config :=
  mkConfig (globalSettings c) b (bufSettings c) (tabs c) (curTab c) (effects c) (fs c).
Definition setBufs (bs : list (gmap string Value)) (c : Config) : Config :=
  mkConfig (globalSettings c) (invalidSettings c) bs (tabs c) (curTab c) (effects c) (fs c).
Definition effect (e : Effect) (c : Config) : Config :=
  mkConfig (globalSettings c) (invalidSettings c) (bufSettings c) (tabs c) (curTab c)
           (effects c ++ [e]) (fs c).
Definition setFs (f : FS) (c : Config) : Config :=
  mkConfig (globalSettings c) (invalidSettings c) (bufSettings c) (tabs c) (curTab c)
           (effects c) f.

(** The buffer of [CurView()]; [None] when an index is out of range. *)
Definition curBuf (c : Config) : option nat :=
  t ← tabs c !! curTab c; Views t !! CurView_ t.

Definition isMap (v : Value) : bool :=
  match v with VMap _ => true | _ => false end.

(** *** DefaultGlobalSettings *)

Definition DefaultGlobalSettings : gmap string Value :=
  list_to_map
    [ ("autoindent", VBool true); ("autosave", VBool false);
      ("basename", VBool false); ("colorcolumn", VFloat 0);
      ("colorscheme", VString "default"); ("cursorline", VBool true);
      ("eofnewline", VBool false); ("fastdirty", VBool true);
      ("fileformat", VString "unix"); ("hidehelp", VBool false);
      ("ignorecase", VBool false); ("indentchar", VString " ");
      ("infobar", VBool true); ("keepautoindent", VBool false);
      ("keymenu", VBool false); ("matchbrace", VBool false);
      ("matchbraceleft", VBool false); ("mouse", VBool true);
      ("pluginchannels",
       VList ["https://raw.githubusercontent.com/micro-editor/plugin-channel/master/channel.json"]);
      ("pluginrepos", VList []); ("rmtrailingws", VBool false);
      ("ruler", VBool true); ("savecursor", VBool false);
      ("savehistory", VBool true); ("saveundo", VBool false);
      ("scrollbar", VBool false); ("scrollmargin", VFloat 3);
      ("scrollspeed", VFloat 2); ("softwrap", VBool false);
      ("smartpaste", VBool true); ("splitbottom", VBool true);
      ("splitright", VBool true); ("statusline", VBool true);
      ("sucmd", VString "sudo"); ("syntax", VBool true);
      ("tabmovement", VBool false); ("tabsize", VFloat 4);
      ("tabstospaces", VBool false); ("termtitle", VBool false);
      ("useprimary", VBool true); ("autocomplete", VBool false) ]%string.

(** *** WriteSettings

    [for k, v := range parsed]: every entry that is not a map and
    names a global option takes the global value.  A [nil] entry
    panics in [reflect.TypeOf(v).String()]. *)
Definition overlayGlobals (g parsed : gmap string Value) : option (gmap string Value) :=
  if bool_decide (map_Exists (fun _ v => v = VNull) parsed) then None
  else Some (map_imap (fun k v =>
               Some (if isMap v then v
                     else match g !! k with Some gv => gv | None => v end)) parsed).

Definition WriteSettings (c : Config) : option (Config * option string) :=
  if invalidSettings c then Some (c, None)
  else if dirExists (fs c) then
    let parsed := globalSettings c in
    '(c, parsed, early) ←
      (if fileExists (fs c) then
         let '(input, err) := ReadFile (fs c) in
         if negb (String.eqb input "null") then
           match err with
           | Some e => Some (c, parsed, Some e)
           | None =>
               let '(parsed, perr) := Unmarshal input parsed in
               let c := match perr with
                        | Some e =>
                            setInvalid true
                              (effect (ETermMessage ("Error reading settings.json:" +:+ e)) c)
                        | None => c
                        end in
               parsed ← overlayGlobals (globalSettings c) parsed;
               Some (c, parsed, None)
           end
         else Some (c, parsed, None)
       else Some (c, parsed, None));
    match early with
    | Some e => Some (c, Some e)
    | None =>
        let '(f, werr) := WriteFile (Marshal parsed) (fs c) in
        Some (setFs f c, werr)
    end
  else Some (c, None).

(** *** InitGlobalSettings *)

(** [for k, v := range parsed]: the entries that are not maps. *)
Definition mergeParsed (g parsed : gmap string Value) : option (gmap string Value) :=
  if bool_decide (map_Exists (fun _ v => v = VNull) parsed) then None
  else Some (filter (fun kv => isMap kv.2 = false) parsed ∪ g).

Definition writeAfterInit (c : Config) : option Config :=
  '(c, err) ← WriteSettings c;
  Some match err with
       | Some e => effect (ETermMessage ("Error writing settings.json file: " +:+ e)) c
       | None => c
       end.

Definition InitGlobalSettings (c : Config) : option Config :=
  let c := setInvalid false c in
  let defaults := DefaultGlobalSettings in
  let finish (c : Config) (parsed : gmap string Value) (writeSettings : bool) :=
    g ← mergeParsed defaults parsed;
    let c := setGlobal g c in
    if fileNotExist (fs c) || writeSettings then writeAfterInit c else Some c in
  if fileExists (fs c) then
    let '(input, err) := ReadFile (fs c) in
    if negb (String.prefix "null" input) then
      match err with
      | Some e =>
          Some (setInvalid true
                  (effect (ETermMessage ("Error reading settings.json file: " +:+ e)) c))
      | None =>
          let '(parsed, perr) := Unmarshal input ∅ in
          let c := match perr with
                   | Some e =>
                       setInvalid true
                         (effect (ETermMessage ("Error reading settings.json:" +:+ e)) c)
                   | None => c
                   end in
          finish c parsed false
      end
    else finish c ∅ true
  else finish c ∅ false.

(** *** Parsing and validation *)

Definition digit (a : ascii) : option Z :=
  let n := Z.of_nat (nat_of_ascii a) in
  if (48 <=? n) && (n <=? 57) then Some (n - 48) else None.

Fixpoint digitsValue (s : string) (acc : Z) : option Z :=
  match s with
  | EmptyString => Some acc
  | String a s' => d ← digit a; digitsValue s' (10 * acc + d)
  end.

Definition unsignedValue (s : string) : option Z :=
  match s with
  | EmptyString => None
  | _ => digitsValue s 0
  end.

(** [strconv.Atoi]: an optional sign, decimal digits, and the range
    of [int]. *)
Definition Atoi (s : string) : option Z :=
  n ← match s with
      | String "+"%char s' => unsignedValue s'
      | String "-"%char s' => Z.opp <$> unsignedValue s'
      | _ => unsignedValue s
      end;
  if (GoInt.minInt <=? n) && (n <=? GoInt.maxInt) then Some n else None.

Inductive ValueKind : Type := KBool | KString | KFloat64 | KOther.

(** [reflect.TypeOf(v).Kind()]; a [nil] value has no type. *)
Definition kindOf (v : Value) : option ValueKind :=
  match v with
  | VBool _ => Some KBool
  | VString _ => Some KString
  | VFloat _ => Some KFloat64
  | VList _ | VMap _ => Some KOther
  | VNull => None
  end.

(** The conversion of the text to the kind of the stored value,
    common to [SetOption] and [SetLocalOption]. *)
Definition nativeOf (k : ValueKind) (value : string) : Value + string :=
  match k with
  | KBool =>
      match ParseBool value with
      | Some b => inl (VBool b)
      | None => inr "Invalid value"
      end
  | KString => inl (VString value)
  | KFloat64 =>
      match Atoi value with
      | Some i => inl (VFloat i)
      | None => inr "Invalid value"
      end
  | KOther => inr "Option has unsupported value type"
  end%string.

Definition validatePositiveValue (opt : string) (value : Value) : option string :=
  match value with
  | VFloat tabsize =>
      if tabsize <? 1 then Some (opt +:+ " must be greater than 0") else None
  | _ => Some ("Expected numeric type for " +:+ opt)
  end.

Definition validateNonNegativeValue (opt : string) (value : Value) : option string :=
  match value with
  | VFloat nativeValue =>
      if nativeValue <? 0 then Some (opt +:+ " must be non-negative") else None
  | _ => Some ("Expected numeric type for " +:+ opt)
  end.

Definition validateColorscheme (opt : string) (value : Value) : option string :=
  match value with
  | VString colorscheme =>
      if negb (ColorschemeExists colorscheme)
      then Some (colorscheme +:+ " is not a valid colorscheme") else None
  | _ => Some "Expected string type for colorscheme"%string
  end.

Definition validateLineEnding (opt : string) (value : Value) : option string :=
  match value with
  | VString endingType =>
      if negb (String.eqb endingType "unix") && negb (String.eqb endingType "dos")
      then Some "File format must be either 'unix' or 'dos'"%string else None
  | _ => Some "Expected string type for file format"%string
  end.

Definition optionValidators : gmap string (string -> Value -> option string) :=
  list_to_map
    [ ("tabsize", validatePositiveValue);
      ("scrollmargin", validateNonNegativeValue);
      ("scrollspeed", validateNonNegativeValue);
      ("colorscheme", validateColorscheme);
      ("colorcolumn", validateNonNegativeValue);
      ("fileformat", validateLineEnding) ]%string.

Definition optionIsValid (opt : string) (value : Value) : option string :=
  match optionValidators !! opt with
  | Some validator => validator opt value
  | None => None
  end.

(** *** SetLocalOption

    [t], [i] name the view: view [i] of tab [t]. *)
Definition viewBuf (t i : nat) (c : Config) : option nat :=
  tb ← tabs c !! t; Views tb !! i.

Definition SetLocalOption (opt value : string) (t i : nat) (c : Config)
  : option (Config * option string) :=
  buf ← viewBuf t i c;
  settings ← bufSettings c !! buf;
  match settings !! opt with
  | None => Some (c, Some "Invalid option"%string)
  | Some old =>
      kind ← kindOf old;
      match nativeOf kind value with
      | inr e => Some (c, Some e)
      | inl nativeValue =>
          match optionIsValid opt nativeValue with
          | Some e => Some (c, Some e)
          | None =>
              c ← (if String.eqb opt "fastdirty"
                   then b ← asBool (Some nativeValue); Some (effect (EFastDirty b) c)
                   else Some c);
              let c := setBufs (<[buf := <[opt := nativeValue]> settings]>
                                  (bufSettings c)) c in
              let c := if String.eqb opt "statusline"
                       then effect (EToggleStatusLine t i) c else c in
              let c := if String.eqb opt "filetype"
                       then effect (EUpdateRules buf) (effect EInitColorscheme c) else c in
              let c := if String.eqb opt "fileformat"
                       then effect (ESetModified buf) c else c in
              c ← (if String.eqb opt "syntax"
                   then b ← asBool (Some nativeValue);
                        Some (effect (if negb b then EClearMatches buf
                                      else EHighlightStates buf) c)
                   else Some c);
              Some (c, None)
          end
      end
  end.

(** *** SetOption *)

(** All views, tab by tab. *)
Definition allViews (c : Config) : list (nat * nat * nat) :=
  concat (imap (fun t tb => imap (fun i b => (t, i, b)) (Views tb)) (tabs c)).

(** [SetLocalOption] on every view, its error dropped. *)
Fixpoint setLocalAll (opt value : string) (vs : list (nat * nat * nat)) (c : Config)
  : option Config :=
  match vs with
  | [] => Some c
  | (t, i, _) :: vs' =>
      '(c, _) ← SetLocalOption opt value t i c;
      setLocalAll opt value vs' c
  end.

Definition SetOption (opt value : string) (c : Config)
  : option (Config * option string) :=
  match globalSettings c !! opt with
  | None =>
      buf ← curBuf c;
      settings ← bufSettings c !! buf;
      match settings !! opt with
      | None => Some (c, Some "Invalid option"%string)
      | Some _ =>
          tb ← tabs c !! curTab c;
          '(c, _) ← SetLocalOption opt value (curTab c) (CurView_ tb) c;
          Some (c, None)
      end
  | Some old =>
      kind ← kindOf old;
      match nativeOf kind value with
      | inr e => Some (c, Some e)
      | inl nativeValue =>
          match optionIsValid opt nativeValue with
          | Some e => Some (c, Some e)
          | None =>
              let c := setGlobal (<[opt := nativeValue]> (globalSettings c)) c in
              let c := if String.eqb opt "colorscheme"
                       then foldl (fun c '(_, _, b) => effect (EUpdateRules b) c)
                                  (effect EInitColorscheme c) (allViews c)
                       else c in
              let c := if String.eqb opt "infobar" || String.eqb opt "keymenu"
                       then foldl (fun c t => effect (EResizeTab t) c) c
                                  (seq 0 (length (tabs c)))
                       else c in
              c ← (if String.eqb opt "mouse"
                   then b ← asBool (Some nativeValue);
                        Some (effect (if negb b then EDisableMouse else EEnableMouse) c)
                   else Some c);
              c ← (if negb (length (tabs c) =? 0)%nat
                   then buf ← curBuf c;
                        settings ← bufSettings c !! buf;
                        match settings !! opt with
                        | Some _ => setLocalAll opt value (allViews c) c
                        | None => Some c
                        end
                   else Some c);
              Some (c, None)
          end
      end
  end.

(** *** SetOptionAndSettings *)

Definition SetOptionAndSettings (opt value : string) (c : Config) : option Config :=
  '(c, err) ← SetOption opt value c;
  match err with
  | Some e => Some (effect (EMessengerError e) c)
  | None =>
      '(c, err) ← WriteSettings c;
      Some match err with
           | Some e => effect (EMessengerError ("Error writing to settings.json: " +:+ e)) c
           | None => c
           end
  end.

End WithFiles.

End Config.

(** ** More of the view: the tab bar row and the gutter tables *)

Module ViewportMore.

Import GoInt Viewport.

Definition setHeight (h : Z) (v : View) : View :=
  mkView (Cursor_ v) (Topline v) (leftCol v) (Type_ v) (Width v) h
         (x v) (y v) (lineNumOffset v) (messages v) (Buf v).

Definition setY (y' : Z) (v : View) : View :=
  mkView (Cursor_ v) (Topline v) (leftCol v) (Type_ v) (Width v) (Height v)
         (x v) y' (lineNumOffset v) (messages v) (Buf v).

(** [ToggleStatusLine]. *)
Definition ToggleStatusLine (v : View) : option View :=
  statusline ← asBool (Settings (Buf v) !! "statusline");
  Some (if statusline : bool then setHeight (sub (Height v) 1) v
        else setHeight (add (Height v) 1) v).

(** [ToggleTabbar]; [ntabs] is [len(tabs)]. *)
Definition ToggleTabbar (ntabs : nat) (v : View) : View :=
  if (1 <? ntabs)%nat then
    if y v =? 0 then setY 1 (setHeight (sub (Height v) 1) v) else v
  else
    if y v =? 1 then setHeight (add (Height v) 1) (setY 0 v) else v.

(** [ClearGutterMessages]. *)
Definition ClearGutterMessages (section_ : string) (v : View) : View :=
  setMessages (<[section_ := []]> (messages v)) v.

(** [ClearAllGutterMessages]: every key of the table gets the empty
    slice. *)
Definition ClearAllGutterMessages (v : View) : View :=
  setMessages ((fun _ => []) <$> messages v) v.

(** No two messages of the table, of whatever sections, are on one
    line. *)
Definition oneMessagePerLine (m : gmap string (list GutterMessage)) : Prop :=
  forall (s1 s2 : string) (l1 l2 : list GutterMessage) (i j : nat)
         (g1 g2 : GutterMessage),
    m !! s1 = Some l1 -> m !! s2 = Some l2 ->
    l1 !! i = Some g1 -> l2 !! j = Some g2 ->
    lineNum g1 = lineNum g2 -> s1 = s2 /\ i = j.

(** *** GetSoftWrapLocation

    The loop over the runes of one line: either the cell [(vx, vy)]
    is met, at column [colN], or the line ends with the counters as
    they are then. *)
Inductive Scan : Type :=
| Hit (colN : Z)
| Miss (screenX screenY colN : Z).

Fixpoint scanLine (v : View) (vx vy : Z) (line : list rune) (screenX screenY colN : Z)
  : option Scan :=
  match line with
  | [] => Some (Miss screenX screenY colN)
  | ch :: rest =>
      let '(screenX, screenY) :=
        if sub (Width v) (lineNumOffset v) <=? screenX
        then (0, add screenY 1) else (screenX, screenY) in
      if (screenX =? vx) && (screenY =? vy) then Some (Hit colN)
      else
        screenX ← (if ch =? tab
                   then tabsize ← asInt (Settings (Buf v) !! "tabsize");
                        Some (add screenX (sub tabsize 1))
                   else Some screenX);
        scanLine v vx vy rest (add screenX 1) screenY (add colN 1)
  end.

(** The loop [for lineN := v.Topline; lineN < v.Bottomline(); lineN++];
    [todo] counts the lines still to visit. *)
Fixpoint softWrapLoop (v : View) (vx vy : Z) (todo : nat) (lineN screenY : Z)
  : option (Z * Z) :=
  match todo with
  | O => Some (0, 0)
  | S todo' =>
      if NumLines (Buf v) <=? lineN then Some (0, sub (NumLines (Buf v)) 1)
      else
        scan ← scanLine v vx vy (Line (Buf v) lineN) 0 screenY 0;
        match scan with
        | Hit colN => Some (colN, lineN)
        | Miss _ screenY colN =>
            if screenY =? vy then Some (colN, lineN)
            else softWrapLoop v vx vy todo' (add lineN 1) (add screenY 1)
        end
  end.

Section Clicks.

(** [Cursor.GetCharPosInLine(lineNum, visualPos)] and [Count], which
    belong to the cursor and to the utilities. *)
Variable GetCharPosInLine : View -> Z -> Z -> Z.
Variable Count : list rune -> Z.

Definition GetSoftWrapLocation (v : View) (vx vy : Z) : option (Z * Z) :=
  softwrap ← asBool (Settings (Buf v) !! "softwrap");
  if negb softwrap then
    let vy := if NumLines (Buf v) <=? vy then sub (NumLines (Buf v)) 1 else vy in
    Some (GetCharPosInLine v vy vx, vy)
  else
    bottom ← Bottomline v;
    softWrapLoop v vx vy (Z.to_nat (bottom - Topline v)) (Topline v) (Topline v).

(** The clamping both click functions start with; the view comes back
    scrolled when the click was below the last row. *)
Definition clampClick (v : View) (cx cy : Z) : View * Z * Z :=
  let '(v, cy) :=
    if sub (Height v) 1 <? sub cy (Topline v)
    then let v' := ScrollDown 1 v in (v', sub (add (Height v') (Topline v')) 1)
    else (v, cy) in
  let cy := if cy <? 0 then 0 else cy in
  let cx := if cx <? 0 then 0 else cx in
  (v, cx, cy).

(** [GetMouseClickLocation]. *)
Definition GetMouseClickLocation (v : View) (cx cy : Z) : option (View * (Z * Z)) :=
  let cx := sub cx (add (sub (lineNumOffset v) (leftCol v)) (x v)) in
  let cy := add cy (sub (Topline v) (y v)) in
  let '(v, cx, cy) := clampClick v cx cy in
  '(newX, newY) ← GetSoftWrapLocation v cx cy;
  let newX := if Count (Line (Buf v) newY) <? newX
              then Count (Line (Buf v) newY) else newX in
  Some (v, (newX, newY)).

(** [MoveToMouseClick]: the same clamping and conversion, and the
    cursor put there.  [Cursor.LastVisualX], which it sets last, is
    not a field of the cursor of this development. *)
Definition MoveToMouseClick (v : View) (cx cy : Z) : option View :=
  let '(v, cx, cy) := clampClick v cx cy in
  '(cx, cy) ← GetSoftWrapLocation v cx cy;
  let cx := if Count (Line (Buf v) cy) <? cx then Count (Line (Buf v) cy) else cx in
  Some (setCursor (mkCursor cx cy) v).

End Clicks.

End ViewportMore.

(** ** Reading the options *)

Module ConfigMore.

Import Config.

Section Options.

Context {FS : Type}.
Variable dirExists : FS -> bool.
Variable fileExists : FS -> bool.
Variable ReadFile : FS -> string * option string.
Variable WriteFile : string -> FS -> FS * option string.
Variable Unmarshal : string -> gmap string Value -> gmap string Value * option string.
Variable Marshal : gmap string Value -> string.
Variable ColorschemeExists : string -> bool.

(** [globalSettings[name]]: [nil] for a name the map does not hold. *)
Definition GetGlobalOption (name : string) (c : @Config FS) : Value :=
  default VNull (globalSettings c !! name).

(** [buf.Settings[name]]. *)
Definition GetLocalOption (name : string) (buf : nat) (c : @Config FS) : option Value :=
  settings ← bufSettings c !! buf; Some (default VNull (settings !! name)).

Definition isNil (v : Value) : bool :=
  match v with VNull => true | _ => false end.

Definition GetOption (name : string) (c : @Config FS) : option Value :=
  buf ← curBuf c;
  l ← GetLocalOption name buf c;
  if negb (isNil l) then GetLocalOption name buf c
  else Some (GetGlobalOption name c).

(** [AddOption].  An assignment to an entry of a nil map panics;
    [made] tells whether [globalSettings] has been made, which
    [InitGlobalSettings] does unless the read of the file fails. *)
Definition AddOption (made : bool) (name : string) (value : Value) (c : @Config FS)
  : option (@Config FS) :=
  if made
  then writeAfterInit dirExists fileExists ReadFile WriteFile Unmarshal Marshal
                      (setGlobal (<[name := value]> (globalSettings c)) c)
  else None.

(** Every option of a map passes its validator. *)
Definition validStore (g : gmap string Value) : Prop :=
  forall opt v, g !! opt = Some v -> optionIsValid ColorschemeExists opt v = None.

Definition validConfig (c : @Config FS) : Prop :=
  validStore (globalSettings c) /\ Forall validStore (bufSettings c).

(** Two maps hold the same options, each of the same type in both. *)
Definition sameKinds (g g' : gmap string Value) : Prop :=
  forall k, kindOf <$> g' !! k = kindOf <$> g !! k.

(** Two states that differ in the effects at most. *)
Definition sameStore (c c' : @Config FS) : Prop :=
  globalSettings c' = globalSettings c /\ bufSettings c' = bufSettings c
  /\ tabs c' = tabs c /\ curTab c' = curTab c /\ fs c' = fs c
  /\ invalidSettings c' = invalidSettings c.

(** While [SetOption] hands the option [opt], with its new value
    [nv], to the views, starting from [c1]: each buffer is as it was,
    or holds the new value in place of the old one. *)
Definition spreading (opt : string) (nv : Value) (c1 c2 : @Config FS) : Prop :=
  tabs c2 = tabs c1
  /\ length (bufSettings c2) = length (bufSettings c1)
  /\ forall b s, bufSettings c1 !! b = Some s ->
       bufSettings c2 !! b = Some s
       \/ (is_Some (s !! opt) /\ bufSettings c2 !! b = Some (<[opt := nv]> s)).

End Options.

End ConfigMore.

(** ** The files to open ([LoadInput]) *)

Module Startup.

Import Dispatch.

(** [strings.Split(s, sep)] for a separator of one byte. *)
Fixpoint Split (sep : ascii) (s : string) : list string :=
  match s with
  | EmptyString => [EmptyString]
  | String a s' =>
      if Ascii.eqb a sep then EmptyString :: Split sep s'
      else match Split sep s' with
           | h :: t => String a h :: t
           | [] => [String a EmptyString]
           end
  end.

(** [s[1:]]; it panics on the empty string. *)
Definition dropFirst (s : string) : option string :=
  match s with
  | String _ s' => Some s'
  | EmptyString => None
  end.

(** What [LoadInput] assigns to [*flagStartPos] for an argument that
    begins with [+]. *)
Definition startPosOf (arg : string) : option string :=
  if Contains arg ":" then
    let split := Split ":" arg in
    s0 ← split !! 0%nat;
    s1 ← split !! 1%nat;
    h ← dropFirst s0;
    Some (h +:+ "," +:+ s1)
  else
    h ← dropFirst arg;
    Some (h +:+ ",0").

Section WithBuffers.

(** [B] is a [*Buffer]. *)
Context {B : Type}.

(** [*flagStartPos] and what [TermMessage] has shown. *)
Record Start : Type := mkStart {
  flagStartPos : string;
  shown : list string
}.

(** [NewBufferFromFile] and [NewBufferFromString] belong to the
    buffer's file; what they return may depend on [*flagStartPos],
    the one global that [LoadInput] assigns. *)
Variable NewBufferFromFile : string -> string -> B + string.
Variable NewBufferFromString : string -> string -> string -> B.
(** [isatty.IsTerminal(os.Stdin.Fd())] and [ioutil.ReadAll(os.Stdin)]. *)
Variable IsTerminal : bool.
Variable ReadAll : string * option string.

Definition TermMessage (text : string) (st : Start) : Start :=
  mkStart (flagStartPos st) (shown st ++ [text]).

(** The loop over [args]; [buffers] is the slice so far. *)
Fixpoint loadArgs (args : list string) (st : Start) (buffers : list B)
  : option (list B * Start) :=
  match args with
  | [] => Some (buffers, st)
  | arg :: rest =>
      if String.prefix "+" arg then
        pos ← startPosOf arg;
        loadArgs rest (mkStart pos (shown st)) buffers
      else
        match NewBufferFromFile arg (flagStartPos st) with
        | inr err => loadArgs rest (TermMessage err st) buffers
        | inl buf => loadArgs rest st (buffers ++ [buf])
        end
  end.

Definition LoadInput (args : list string) (st : Start) : option (list B * Start) :=
  if (0 <? length args)%nat then loadArgs args st []
  else if negb IsTerminal then
    let '(input, err) := ReadAll in
    let '(input, st) :=
      match err with
      | Some e => (EmptyString, TermMessage ("Error reading from stdin: " +:+ e) st)
      | None => (input, st)
      end in
    Some ([NewBufferFromString input "" (flagStartPos st)], st)
  else Some ([NewBufferFromString "" "" (flagStartPos st)], st).

(** An argument that names a file. *)
Definition isFile (arg : string) : bool := negb (String.prefix "+" arg).

(** The start position in force after the arguments [args]: that of
    the last one that begins with [+], if any. *)
Definition lastStartPos (args : list string) (init : string) : string :=
  fold_left (fun pos arg => if isFile arg then pos else default pos (startPosOf arg))
            args init.

End WithBuffers.

End Startup.

(** * Scenarios

    Concrete views, editors and collaborators on which the properties
    below are exercised. *)

Module ViewportScenarios.

Import Viewport.

Definition plainSettings : gmap string Value :=
  {[ "softwrap" := VBool false; "scrollmargin" := VFloat 3; "tabsize" := VFloat 4 ]}%string.

(** A view of 20 rows on a buffer of 100 one-rune lines. *)
Definition view100 (top cy : Z) : View :=
  mkView (mkCursor 0 cy) top 0 vtDefault 80 20 0 0 0 ∅
         (mkBuffer 100 (fun _ => [97]) plainSettings).

Definition wrapSettings : gmap string Value :=
  {[ "softwrap" := VBool true; "scrollmargin" := VFloat 3; "tabsize" := VFloat 4 ]}%string.

(** Ten lines; the last three are 25 runes long, the others one. *)
Definition longTail (n : Z) : list rune :=
  if 7 <=? n then repeat 97 25 else [97].

(** A pane of 3 rows and 10 columns on that buffer, soft wrap on,
    the cursor on the last line. *)
Definition wrapView (top lcol : Z) : View :=
  mkView (mkCursor 0 9) top lcol vtDefault 10 3 0 0 0 ∅
         (mkBuffer 10 longTail wrapSettings).

Definition plainX (c : Cursor) (_ : Buffer) : Z := X c.

(** A view with the ruler on, on a buffer of [n] lines. *)
Definition rulerView (n : Z) : View :=
  mkView (mkCursor 0 0) 0 0 vtDefault 80 20 0 0 0 ∅
         (mkBuffer n (fun _ => [97]) (<["ruler" := VBool true]> plainSettings)).

Definition lintView : View :=
  mkView (mkCursor 0 0) 0 0 vtDefault 80 20 0 0 0
         {[ "lint" := [mkGutterMessage 4 "unused variable" 2] ]}%string
         (mkBuffer 100 (fun _ => [97]) plainSettings).

End ViewportScenarios.

Module DispatchScenarios.

Import Viewport Dispatch.

(** The current view exists and is read-only. *)
Definition readonlyCurrent {W Ptr : Type} (e : @Editor W Ptr) : Prop :=
  exists cv, views e !! curView e = Some cv /\ Readonly (vType cv) = true.

(** An action whose name contains none of [readonlyBindingsList]. *)
Definition passes (a : Action) : bool := negb (matchesReadonlyList (funcName a)).

(** What the log says of the actions of a binding: invoked or skipped. *)
Definition verdict {Ptr : Type} (l : @LogItem Ptr) : option (Action * bool) :=
  match l with
  | LInvoke a _ => Some (a, true)
  | LSkip a _ => Some (a, false)
  | _ => None
  end.

Definition verdicts {Ptr : Type} (t : list (@LogItem Ptr)) : list (Action * bool) :=
  omap verdict t.

(** The editor after [action(curv, true)] and the recording of the
    action into the macro, with the value the action returned. *)
Definition invoked {W Ptr : Type}
           (callAction : Action -> nat -> @Editor W Ptr -> @Editor W Ptr * bool)
           (a : Action) (curv : nat) (e : @Editor W Ptr) : @Editor W Ptr * bool :=
  let '(e', rel) := callAction a curv e in
  (if negb (String.eqb (funcName a) "ToggleMacro")
      && negb (String.eqb (funcName a) "PlayMacro")
      && recordingMacro e'
   then appendMacro (MAction a) e' else e',
   rel).

(** The binding [k] applies to a key event: the three tests of the
    loop over [bindings] in the key path of [HandleEvent]. *)
Definition keyApplies (key : Z) (ch : rune) (mods : Z) (k : Key) : bool :=
  (key =? keyCode k)
  && negb ((key =? KeyRune) && negb (ch =? r k))
  && (mods =? modifiers k).

Definition noKeyApplies (key : Z) (ch : rune) (mods : Z) (bs : Bindings) : bool :=
  forallb (fun b => negb (keyApplies key ch mods (fst b))) bs.

Definition isMerge {Ptr : Type} (l : @LogItem Ptr) : bool :=
  match l with LCall CMergeCursors _ => true | _ => false end.

(** A computation that, when it returns, has only added to the log,
    and no call of [MergeCursors]. *)
Definition mergeFree {W Ptr A : Type} (m : @M W Ptr A) : Prop :=
  forall s a s', m s = Some (a, s') ->
    exists t, trace s' = trace s ++ t /\ forallb (fun l => negb (isMerge l)) t = true.

(** The world of these scenarios is a journal of the actions that ran,
    each with the view it ran on; a cursor pointer is a number. *)
Definition Journal : Type := list (string * nat).

Definition helpPane : @ViewSt nat := mkViewSt vtHelp None false true false false true.
Definition textPane : @ViewSt nat := mkViewSt vtDefault None false true false false true.

Definition Delete : Action := mkAction "Delete" 0.
Definition NextSplit : Action := mkAction "NextSplit" 1.
Definition CursorDown : Action := mkAction "CursorDown" 2.
Definition Paste : Action := mkAction "Paste" 3.

(** An action writes itself into the journal; [NextSplit] also makes
    the next view the current one. *)
Definition journalAction (a : Action) (curv : nat) (e : @Editor Journal nat)
  : @Editor Journal nat * bool :=
  let w := world e ++ [(funcName a, curv)] in
  if String.eqb (funcName a) "NextSplit"
  then (mkEditor (views e) (S (curView e)) (recordingMacro e) (curMacro e) w, false)
  else (setWorld w e, false).

(** A read-only help pane beside a text pane; [cur] is the current one. *)
Definition helpAndText (cur : nat) : @Editor Journal nat :=
  mkEditor [helpPane; textPane] cur false [] [].

(** A text pane alone, whose buffer has two cursors, 0 (the primary
    one) and 1.  The other collaborators do nothing. *)
Definition oneText : @Editor Journal nat := mkEditor [textPane] 0 false [] [].

Definition idle (_ : Call) (_ : nat) (e : @Editor Journal nat) : @Editor Journal nat := e.
Definition never (_ : Query) (_ : nat) (_ : @Editor Journal nat) : bool := false.
Definition always (_ : Query) (_ : nat) (_ : @Editor Journal nat) : bool := true.
Definition twoCursors (_ : nat) (_ : @Editor Journal nat) : nat := 2%nat.
Definition nthCursor (_ : nat) (_ : @Editor Journal nat) (i : nat) (_ : @Editor Journal nat)
  : option nat := Some i.
Definition firstCursor (_ : nat) (_ : @Editor Journal nat) : nat := 0%nat.
Definition keepWorld (_ : nat) (_ : nat) (w : Journal) : Journal := w.
Definition sameClip (_ : nat) (clip : string) (_ : @Editor Journal nat) : string := clip.

(** [HandleEvent] with these collaborators; [ask] is left open. *)
Definition handle (ask : Query -> nat -> @Editor Journal nat -> bool)
           (bindings : Bindings) (event : Event) : M unit :=
  HandleEvent journalAction idle ask twoCursors nthCursor firstCursor keepWorld sameClip
              0 bindings [] event.

(** The toggle of the macro recorder, which here does nothing, and a
    text pane alone while a macro is recorded. *)
Definition ToggleMacroAction : Action := mkAction "ToggleMacro" 4.
Definition recordingText : @Editor Journal nat := mkEditor [textPane] 0 true [] [].

(** Ctrl-D bound to [CursorDown]. *)
Definition ctrlD : Key := mkKey 4 2 0 0 "".
Definition bindCtrlD : Bindings := [(ctrlD, [CursorDown])].

End DispatchScenarios.

(** ** What the log of a dispatch may hold *)

Module DispatchMore.

Import Viewport Dispatch DispatchScenarios.

(** A computation that, when it returns, has only added to the log,
    and only steps that [P] accepts. *)
Definition only {W Ptr A : Type} (P : @LogItem Ptr -> bool) (m : @M W Ptr A) : Prop :=
  forall s a s', m s = Some (a, s') ->
    exists t, trace s' = trace s ++ t /\ forallb P t = true.

(** A bound action was reached: invoked or skipped. *)
Definition isAction {Ptr : Type} (l : @LogItem Ptr) : bool :=
  match l with LInvoke _ _ | LSkip _ _ => true | _ => false end.

Definition noAction {Ptr : Type} (l : @LogItem Ptr) : bool := negb (isAction l).

Definition noRelocate {Ptr : Type} (l : @LogItem Ptr) : bool :=
  match l with LCall CRelocate _ => false | _ => true end.

Definition anyStep {Ptr : Type} (_ : @LogItem Ptr) : bool := true.

(** A stretch of log in which the cursors are settled: no bound action
    was reached, or the last one reached is followed by a [SetCursor]
    on view [v] (the reset to the primary cursor) and, next to it, by
    [MergeCursors]. *)
Definition settled {Ptr : Type} (v : nat) (t : list (@LogItem Ptr)) : Prop :=
  forallb noAction t = true
  \/ exists t1 p t2,
       t = t1 ++ [LSetCursor v p; LCall CMergeCursors v] ++ t2
       /\ forallb noAction t2 = true.

Definition settles {W Ptr A : Type} (v : nat) (m : @M W Ptr A) : Prop :=
  forall s a s', m s = Some (a, s') ->
    exists t, trace s' = trace s ++ t /\ settled v t.

(** The current view exists and takes edits. *)
Definition writableCurrent {W Ptr : Type} (e : @Editor W Ptr) : Prop :=
  exists cv, views e !! curView e = Some cv /\ Readonly (vType cv) = false.

(** What a predicate on steps lets through: the setting of a cursor,
    the calls other than [Relocate] and [MergeCursors], the bound
    actions. *)
Definition letsCursor {Ptr : Type} (P : @LogItem Ptr -> bool) : Prop :=
  forall u p, P (LSetCursor u p) = true.

Definition letsCalls {Ptr : Type} (P : @LogItem Ptr -> bool) : Prop :=
  forall c u, c <> CRelocate -> c <> CMergeCursors -> P (LCall c u) = true.

Definition letsActions {Ptr : Type} (P : @LogItem Ptr -> bool) : Prop :=
  forall a u, P (LInvoke a u) = true /\ P (LSkip a u) = true.

(** A step that is neither a bound action, nor [Relocate], nor
    [MergeCursors]. *)
Definition quiet {Ptr : Type} (l : @LogItem Ptr) : bool :=
  noAction l && noRelocate l && negb (isMerge l).

(** The calls [HandleEvent] makes for an event that a read-only pane
    does not take. *)
Definition passingCalls (event : Event) : list Call :=
  [CCheckModTime]
  ++ match event with EventKey key _ _ => [CCompleterHandleEvent key] | _ => [] end
  ++ [CRelocate; CRelocate; CDeactivateIfOutOfBounds].

(** An action that a macro records. *)
Definition recorded (a : Action) : bool :=
  negb (String.eqb (funcName a) "ToggleMacro")
  && negb (String.eqb (funcName a) "PlayMacro").

(** No binding of the list takes a mouse event. *)
Definition noButtonApplies (btn mods : Z) (bs : Bindings) : bool :=
  forallb (fun b => negb ((btn =? buttons (fst b)) && (mods =? modifiers (fst b)))) bs.

(** The actions of a binding, one after the other on the current
    view, none skipped: the editor at the end and whether one of them
    asked for a relocation. *)
Fixpoint invokeAll {W Ptr : Type}
         (callAction : Action -> nat -> @Editor W Ptr -> @Editor W Ptr * bool)
         (relocate : bool) (actions : list Action) (e : @Editor W Ptr)
  : @Editor W Ptr * bool :=
  match actions with
  | [] => (e, relocate)
  | a :: rest =>
      let '(e', rel) := invoked callAction a (curView e) e in
      invokeAll callAction (rel || relocate) rest e'
  end.

End DispatchMore.

Module SchedulerScenarios.

Import Dispatch Scheduler.

(** The event a step hands to a view or to the search bar. *)
Definition handled (s : Step) : option Event :=
  match s with
  | SViewHandleEvent _ ev => Some ev
  | SHandleSearchEvent ev => Some ev
  | SCurViewHandleEvent ev => Some ev
  | _ => None
  end.

(** The world of these scenarios is the index of the current tab.  A
    left click on row 0 picks the tab drawn at that column, eight
    columns to a tab, and reports whether the tab changed. *)
Definition tabbar (ev : Event) (tab : nat) : nat * bool :=
  match ev with
  | EventMouse btn _ px py =>
      if (btn =? Button1) && (py =? 0)
      then (Z.to_nat (px / 8), negb (Nat.eqb (Z.to_nat (px / 8)) tab))
      else (tab, false)
  | _ => (tab, false)
  end.

Definition same (tab : nat) : nat := tab.

(** One iteration of the loop in that world: nothing is being searched,
    no view lies under the wheel, the mouse is released. *)
Definition turn (wk : Wake) (l : @Loop nat) : option (@Loop nat) :=
  iteration same (fun _ => same) (fun _ => false) same (fun _ => same) same
            (fun _ => false) (fun _ _ => false) same (fun _ => true)
            (fun _ => same) (fun _ _ => None) (fun _ _ => same)
            tabbar (fun _ => same) (fun _ => same) wk l.

(** The event a step offers to the view under the wheel or to the
    tab bar: every event the loop takes from the channel goes to one
    of the two first. *)
Definition offered (s : Step) : option Event :=
  match s with
  | SViewHandleEvent _ ev => Some ev
  | STabbarHandleMouseEvent ev _ => Some ev
  | _ => None
  end.

Definition isRedraw (s : Step) : bool :=
  match s with SRedrawAll => true | _ => false end.

Definition clickTab1 : Event := EventMouse Button1 0 9 0.
Definition typeA : Event := EventKey KeyRune 97 0.
Definition typeB : Event := EventKey KeyRune 98 0.

End SchedulerScenarios.

Module ConfigScenarios.

Import Config.

(** A disk that holds [configDir] and, perhaps, [settings.json].
    [fault] makes a read fail after that many bytes. *)
Record Disk : Type := mkDisk {
  settingsJson : option string;
  fault : option (nat * string)
}.

Definition hasDir (_ : Disk) : bool := true.
Definition hasFile (d : Disk) : bool := bool_decide (is_Some (settingsJson d)).
Definition lacksFile (d : Disk) : bool := negb (hasFile d).

Fixpoint firstBytes (n : nat) (s : string) : string :=
  match n, s with
  | S n', String a s' => String a (firstBytes n' s')
  | _, _ => EmptyString
  end.

Definition readDisk (d : Disk) : string * option string :=
  match settingsJson d with
  | None => (EmptyString, Some "no such file"%string)
  | Some text =>
      match fault d with
      | Some (n, e) => (firstBytes n text, Some e)
      | None => (text, None)
      end
  end.

Definition writeDisk (text : string) (d : Disk) : Disk * option string :=
  (mkDisk (Some text) (fault d), None).

(** A decoder that knows two documents; anything else is malformed. *)
Definition decode (input : string) (parsed : gmap string Value)
  : gmap string Value * option string :=
  if String.eqb input "{}" then (parsed, None)
  else if String.eqb input "{tabsize: 8}" then (<["tabsize"%string := VFloat 8]> parsed, None)
  else (parsed, Some "invalid character"%string).

(** An encoder that writes the names of the options. *)
Definition encode (m : gmap string Value) : string :=
  "{" +:+ String.concat "," (fst <$> map_to_list m) +:+ "}".

Definition parseBool (s : string) : option bool :=
  if String.eqb s "on" || String.eqb s "true" then Some true
  else if String.eqb s "off" || String.eqb s "false" then Some false
  else None.

Definition knownScheme (s : string) : bool := String.eqb s "default".

(** A Markdown buffer in the only view.  Its settings hold the local
    option [filetype] and a number [wrapcol] that a glob section of
    [settings.json] gave to this buffer alone. *)
Definition markdownSettings : gmap string Value :=
  {[ "filetype" := VString "markdown"; "wrapcol" := VFloat 80;
     "tabsize" := VFloat 4 ]}%string.

Definition session (invalid : bool) (d : Disk) : @Config Disk :=
  mkConfig DefaultGlobalSettings invalid [markdownSettings] [mkTab [0%nat] 0] 0 [] d.

Definition goodDisk : Disk := mkDisk (Some "{tabsize: 8}"%string) None.
(** The user broke the file by hand. *)
Definition brokenDisk : Disk := mkDisk (Some "{tabsize: 8"%string) None.
(** A file that begins with [null], and a read that fails after four
    bytes. *)
Definition faultyDisk : Disk := mkDisk (Some "null {tabsize: 8}"%string) (Some (4%nat, "input/output error"%string)).

Definition setOption := SetOption (FS := Disk) parseBool knownScheme.
Definition setLocalOption := SetLocalOption (FS := Disk) parseBool knownScheme.
Definition setOptionAndSettings :=
  SetOptionAndSettings hasDir hasFile readDisk writeDisk decode encode parseBool knownScheme.
Definition writeSettings := WriteSettings hasDir hasFile readDisk writeDisk decode encode.
Definition initGlobalSettings :=
  InitGlobalSettings hasDir hasFile lacksFile readDisk writeDisk decode encode.

End ConfigScenarios.

(** * Properties *)

(** ** Arithmetic of [int] *)

Module GoIntFacts.

Import GoInt.

Lemma wrap_inRange z : inRange (wrap z).
Proof.
  unfold inRange, wrap, minInt, maxInt.
  pose proof (Z.mod_pos_bound (z + 2 ^ 63) (2 ^ 64) ltac:(lia)). lia.
Qed.

Lemma wrap_id z : inRange z -> wrap z = z.
Proof.
  unfold inRange, wrap, minInt, maxInt. intros H.
  rewrite Z.mod_small; lia.
Qed.

Lemma add_exact a b : inRange (a + b) -> add a b = a + b.
Proof. apply wrap_id. Qed.

Lemma sub_exact a b : inRange (a - b) -> sub a b = a - b.
Proof. apply wrap_id. Qed.

Lemma wrap_wrap_add a b : wrap (wrap a + b) = wrap (a + b).
Proof.
  unfold wrap. f_equal.
  replace (((a + 2 ^ 63) mod 2 ^ 64 - 2 ^ 63) + b + 2 ^ 63)
    with ((a + 2 ^ 63) mod 2 ^ 64 + b) by lia.
  rewrite Zplus_mod_idemp_l. f_equal. lia.
Qed.

(** [(a + b) - a] is [b] whatever wraps on the way. *)
Lemma sub_add_cancel a b : inRange b -> sub (add a b) a = b.
Proof.
  intros H. unfold sub, add.
  replace (wrap (a + b) - a) with (wrap (a + b) + - a) by lia.
  rewrite wrap_wrap_add. replace (a + b + - a) with b by lia.
  by apply wrap_id.
Qed.

Lemma small_inRange z : small z -> inRange z.
Proof. unfold small, inRange, minInt, maxInt. lia. Qed.

End GoIntFacts.

(** ** The viewport *)

Module ViewportSpec.

Import GoInt GoIntFacts Viewport ViewportScenarios.

(** *** ScrollUp and ScrollDown *)

(** C9.  For a view with [Topline >= 0] and [n >= 0]: [ScrollUp n]
    subtracts [n] when [Topline - n >= 0], else takes one off a
    positive [Topline], else changes nothing, and so never makes
    [Topline] negative; [ScrollDown n] adds [n] when Go's sum
    [Topline + n] is at most [NumLines], else adds one exactly when
    [Topline < NumLines - 1], else changes nothing, and so never
    moves [Topline] above [NumLines]. *)
Theorem scroll_stays_in_bounds (v : View) (n : Z) :
  inRange (Topline v) -> inRange n -> inRange (NumLines (Buf v)) ->
  0 <= NumLines (Buf v) -> 0 <= Topline v -> 0 <= n ->
  let top := Topline v in
  let lines := NumLines (Buf v) in
  let up := Topline (ScrollUp n v) in
  let down := Topline (ScrollDown n v) in
  (0 <= up
   /\ (0 <= top - n -> up = top - n)
   /\ (top - n < 0 -> 0 < top -> up = top - 1)
   /\ (top - n < 0 -> top = 0 -> up = top))
  /\ ((top <= lines -> down <= lines)
      /\ (down <= lines \/ down = top)
      /\ (top + n <= maxInt -> add top n = top + n)
      /\ (add top n <= lines -> down = add top n)
      /\ (lines < add top n -> top < lines - 1 -> down = top + 1)
      /\ (lines < add top n -> lines - 1 <= top -> down = top)).
Proof.
  intros Ht Hn Hl Hl0 Ht0 Hn0. cbv zeta.
  unfold ScrollUp, ScrollDown.
  assert (Hsub : sub (Topline v) n = Topline v - n)
    by (apply sub_exact; unfold inRange, minInt, maxInt in *; lia).
  assert (Hsub1 : sub (Topline v) 1 = Topline v - 1)
    by (apply sub_exact; unfold inRange, minInt, maxInt in *; lia).
  assert (Hl1 : sub (NumLines (Buf v)) 1 = NumLines (Buf v) - 1)
    by (apply sub_exact; unfold inRange, minInt, maxInt in *; lia).
  rewrite Hsub, Hsub1, Hl1.
  split.
  - destruct (Z.leb_spec 0 (Topline v - n)); [simpl; lia|].
    destruct (Z.ltb_spec 0 (Topline v)); simpl; lia.
  - assert (Hadd : Topline v + n <= maxInt -> add (Topline v) n = Topline v + n)
      by (intros; apply add_exact; unfold inRange, minInt, maxInt in *; lia).
    destruct (Z.leb_spec (add (Topline v) n) (NumLines (Buf v))).
    + simpl. repeat split; auto; lia.
    + destruct (Z.ltb_spec (Topline v) (NumLines (Buf v) - 1)).
      * assert (Hadd1 : add (Topline v) 1 = Topline v + 1)
          by (apply add_exact; unfold inRange, minInt, maxInt in *; lia).
        rewrite Hadd1. simpl. repeat split; auto; lia.
      * repeat split; auto; lia.
Qed.

Lemma scroll_stays_in_bounds_witness :
  0 <= Topline (ScrollUp 7 (view100 5 0))
  /\ Topline (ScrollDown 7 (view100 95 0)) <= NumLines (Buf (view100 95 0)).
Proof.
  split.
  - apply (scroll_stays_in_bounds (view100 5 0) 7);
      unfold inRange, minInt, maxInt; simpl; lia.
  - apply (scroll_stays_in_bounds (view100 95 0) 7);
      unfold inRange, minInt, maxInt; simpl; lia.
Defined.

(** *** Relocate *)

Section Relocation.

Variable GetVisualX : Cursor -> Buffer -> Z.

(** C3.  In a buffer of 100 lines, with a visible height of 20
    ([Bottomline - Topline]) and a scroll margin of 3, [Relocate]
    with the cursor on line 99 sets [Topline] to 80, wherever the
    view was before. *)
Theorem relocate_last_line (v : View) (bottom : Z) :
  NumLines (Buf v) = 100 ->
  Bottomline v = Some bottom ->
  sub bottom (Topline v) = 20 ->
  Settings (Buf v) !! "scrollmargin" = Some (VFloat 3) ->
  Y (Cursor_ v) = 99 ->
  exists v' ret, Relocate GetVisualX v = Some (v', ret) /\ Topline v' = 80.
Proof.
  intros Hn Hb Hh Hm Hy.
  unfold Relocate. rewrite Hb. simpl. rewrite Hh, Hm, Hy, Hn. simpl.
  assert (Hsw : exists b, asBool (Settings (Buf v) !! "softwrap") = Some b).
  { unfold Bottomline in Hb.
    destruct (asBool (Settings (Buf v) !! "softwrap")); [eauto | discriminate]. }
  destruct Hsw as [b Hsw]. rewrite Hsw. simpl.
  destruct (relocateTop 99 3 (Topline v)) as [t1 r1] eqn:Ht.
  unfold relocateBottom.
  replace (99 <? sub 100 3) with false by reflexivity.
  rewrite andb_false_r.
  replace ((sub 100 3 <=? 99) && (20 <=? 99)) with true by reflexivity.
  replace (sub 100 20) with 80 by reflexivity.
  simpl. destruct (negb b).
  - repeat match goal with
           | |- context [if ?c then _ else _] => destruct c
           end; simpl; eauto.
  - eauto.
Qed.

End Relocation.

Lemma relocate_last_line_witness :
  NumLines (Buf (view100 0 99)) = 100
  /\ exists v' ret,
       Relocate (fun c _ => X c) (view100 0 99) = Some (v', ret) /\ Topline v' = 80.
Proof.
  split; [reflexivity|].
  apply (relocate_last_line (fun c _ => X c) (view100 0 99) 20); reflexivity.
Defined.

(** *** Relocate without soft wrap *)

Ltac pure_term t :=
  lazymatch t with
  | context [add _ _] => fail
  | context [sub _ _] => fail
  | _ => idtac
  end.

Ltac in_range := unfold inRange, minInt, maxInt, small in *; lia.

Ltac exact_step :=
  match goal with
  | |- context [add ?a ?b] =>
      pure_term a; pure_term b; rewrite (add_exact a b) by in_range
  | |- context [sub ?a ?b] =>
      pure_term a; pure_term b; rewrite (sub_exact a b) by in_range
  end.

Ltac cond_step :=
  match goal with
  | |- context [?a <? ?b] =>
      pure_term a; pure_term b; destruct (Z.ltb_spec a b)
  | |- context [?a <=? ?b] =>
      pure_term a; pure_term b; destruct (Z.leb_spec a b)
  end; cbn [andb fst snd] in *.

Ltac crunch := repeat first [exact_step | cond_step]; try reflexivity; try lia.

(** The vertical part of [Relocate] reaches a fixed point in one pass
    when the height does not depend on [Topline]. *)
Lemma relocate_vertical_idem (cy m h n top : Z) :
  small cy -> small m -> small h -> small n -> small top -> 0 <= m ->
  let top1 := fst (relocateBottom cy m h n (relocateTop cy m top)) in
  fst (relocateBottom cy m h n (relocateTop cy m top1)) = top1.
Proof.
  intros Hcy Hm Hh Hn Htop Hm0. cbv zeta.
  unfold relocateBottom, relocateTop. crunch.
Qed.

Lemma relocate_left_idem (cx : Z) (v : View) (l : Z) (r r' : bool) :
  small cx -> small (Width v) -> small (lineNumOffset v) -> small l ->
  let l1 := fst (relocateLeft cx v (l, r)) in
  fst (relocateLeft cx v (l1, r')) = l1.
Proof.
  intros Hcx Hw Ho Hl. cbv zeta. unfold relocateLeft.
  destruct (Z.ltb_spec cx l); crunch.
Qed.

Section Idempotence.

Variable GetVisualX : Cursor -> Buffer -> Z.

(** [Relocate] without soft wrap, in one equation. *)
Lemma Relocate_without_softwrap (v : View) (m : Z) :
  Settings (Buf v) !! "softwrap" = Some (VBool false) ->
  Settings (Buf v) !! "scrollmargin" = Some (VFloat m) ->
  inRange (Height v) ->
  let tr := relocateBottom (Y (Cursor_ v)) m (Height v) (NumLines (Buf v))
                           (relocateTop (Y (Cursor_ v)) m (Topline v)) in
  let lr := relocateLeft (GetVisualX (Cursor_ v) (Buf v)) v (leftCol v, snd tr) in
  Relocate GetVisualX v = Some (setLeftCol (fst lr) (setTopline (fst tr) v), snd lr).
Proof.
  intros Hs Hm Hh. cbv zeta. unfold Relocate, Bottomline.
  rewrite Hs. cbn [asBool mbind option_bind negb]. rewrite Hm.
  cbn [asInt mbind option_bind]. rewrite sub_add_cancel by done.
  destruct (relocateBottom _ _ _ _ _) as [t r].
  cbn [asBool mbind option_bind negb fst snd].
  destruct (relocateLeft _ _ _) as [l r']. reflexivity.
Qed.

(** X1.  Without soft wrap, with a scroll margin that is not negative
    and sizes far from the ends of [int], a second [Relocate] finds
    the view where the first one left it. *)
Theorem relocate_idempotent_without_softwrap (v : View) (m : Z) :
  Settings (Buf v) !! "softwrap" = Some (VBool false) ->
  Settings (Buf v) !! "scrollmargin" = Some (VFloat m) ->
  0 <= m -> small m ->
  small (Topline v) -> small (leftCol v) -> small (Width v) -> small (Height v) ->
  small (lineNumOffset v) -> small (NumLines (Buf v)) ->
  small (Y (Cursor_ v)) -> small (GetVisualX (Cursor_ v) (Buf v)) ->
  exists v1 r1 r2,
    Relocate GetVisualX v = Some (v1, r1) /\ Relocate GetVisualX v1 = Some (v1, r2).
Proof.
  intros Hs Hm Hm0 Hsm Ht Hl Hw Hh Ho Hn Hy Hx.
  pose proof (Relocate_without_softwrap v m Hs Hm (small_inRange _ Hh)) as E1.
  cbv zeta in E1.
  set (tr := relocateBottom _ _ _ _ _) in E1.
  set (lr := relocateLeft _ _ _) in E1.
  set (v1 := setLeftCol (fst lr) (setTopline (fst tr) v)) in E1.
  pose proof (Relocate_without_softwrap v1 m Hs Hm (small_inRange _ Hh)) as E2.
  cbv zeta in E2. cbn [v1 setLeftCol setTopline Cursor_ Buf Height Topline leftCol] in E2.
  fold v1 in E2.
  pose proof (relocate_vertical_idem (Y (Cursor_ v)) m (Height v) (NumLines (Buf v))
                (Topline v) Hy Hsm Hh Hn Ht Hm0) as Ev.
  cbv zeta in Ev. fold tr in Ev. rewrite Ev in E2.
  assert (El : forall r, fst (relocateLeft (GetVisualX (Cursor_ v) (Buf v)) v1
                                 (fst lr, r)) = fst lr).
  { intros r.
    exact (relocate_left_idem (GetVisualX (Cursor_ v) (Buf v)) v (leftCol v)
             (snd tr) r Hx Hw Ho Hl). }
  rewrite El in E2.
  exists v1, (snd lr). eexists. split; [exact E1|]. rewrite E2. reflexivity.
Qed.

End Idempotence.

(** *** Relocate under soft wrap *)

(** C4, at the input where it fails.  With soft wrap on, a first
    [Relocate] from the top of [wrapView] moves [Topline] to 7, and a
    second one, with nothing changed in between, moves it again, to
    9: the first pass measured the height on the short lines at the
    top, the second on the wrapped lines at the bottom. *)
Theorem relocate_softwrap_second_pass_moves :
  Relocate plainX (wrapView 0 0) = Some (wrapView 7 0, true)
  /\ Relocate plainX (wrapView 7 0) = Some (wrapView 9 0, true)
  /\ Topline (wrapView 7 0) <> Topline (wrapView 9 0).
Proof. split; [|split]; [vm_compute; reflexivity .. | discriminate]. Qed.

(** C5, as stated, fails: with soft wrap on, [Relocate] returns with
    the nonzero [leftCol] it found. *)
Lemma relocate_softwrap_keeps_nonzero_leftCol :
  asBool (Settings (Buf (wrapView 9 5)) !! "softwrap") = Some true
  /\ exists v' ret,
       Relocate plainX (wrapView 9 5) = Some (v', ret) /\ leftCol v' = 5.
Proof.
  split; [reflexivity|].
  exists (wrapView 9 5), true. split; [vm_compute|]; reflexivity.
Qed.

Section SoftWrap.

Variable GetVisualX : Cursor -> Buffer -> Z.
Variable drawCells : View -> option Cursor.

Lemma wrapRune_total (v : View) (t : Z) (st : Z * Z) (ch : rune) :
  Settings (Buf v) !! "tabsize" = Some (VFloat t) ->
  is_Some (wrapRune v (Some st) ch).
Proof.
  intros Ht. destruct st as [sx sy]. unfold wrapRune. simpl.
  destruct (sub (Width v) (lineNumOffset v) <=? sx);
    destruct (ch =? tab); rewrite ?Ht; simpl; eauto.
Qed.

Lemma wrapLine_total (v : View) (t : Z) (line : list rune) (sy : Z) :
  Settings (Buf v) !! "tabsize" = Some (VFloat t) ->
  is_Some (wrapLine v sy line).
Proof.
  intros Ht. unfold wrapLine.
  assert (H : forall st, is_Some (fold_left (wrapRune v) line (Some st))).
  { induction line as [|ch line IH]; intros st; cbn [fold_left]; [eauto|].
    destruct (wrapRune_total v t st ch Ht) as [st' Hst]. rewrite Hst. apply IH. }
  destruct (H (0, sy)) as [st Hst]. rewrite Hst. simpl. eauto.
Qed.

Lemma bottomLoop_total (v : View) (t : Z) (todo : nat) (lineN sy n : Z) :
  Settings (Buf v) !! "tabsize" = Some (VFloat t) ->
  is_Some (bottomLoop v todo lineN sy n).
Proof.
  intros Ht. revert lineN sy n.
  induction todo as [|todo IH]; intros lineN sy n; simpl; [eauto|].
  destruct (wrapLine_total v t (Line (Buf v) lineN) sy Ht) as [y Hy].
  rewrite Hy. simpl. destruct (Height v <=? add y 1); [eauto | apply IH].
Qed.

Lemma Bottomline_total (v : View) (b : bool) (t : Z) :
  Settings (Buf v) !! "softwrap" = Some (VBool b) ->
  Settings (Buf v) !! "tabsize" = Some (VFloat t) ->
  is_Some (Bottomline v).
Proof.
  intros Hs Ht. unfold Bottomline. rewrite Hs. simpl.
  destruct b; simpl; [|eauto].
  destruct (bottomLoop_total v t
              (Z.to_nat (add (Topline v) (Height v) - Topline v))
              (Topline v) 0 0 Ht) as [n Hn].
  rewrite Hn. simpl. eauto.
Qed.

(** With soft wrap on, [Relocate] returns and leaves [leftCol] alone. *)
Lemma Relocate_softwrap (v : View) (m t : Z) :
  Settings (Buf v) !! "softwrap" = Some (VBool true) ->
  Settings (Buf v) !! "scrollmargin" = Some (VFloat m) ->
  Settings (Buf v) !! "tabsize" = Some (VFloat t) ->
  exists v' ret,
    Relocate GetVisualX v = Some (v', ret)
    /\ leftCol v' = leftCol v /\ Type_ v' = Type_ v /\ Buf v' = Buf v
    /\ messages v' = messages v /\ x v' = x v.
Proof.
  intros Hs Hm Ht.
  destruct (Bottomline_total v true t Hs Ht) as [bottom Hb].
  unfold Relocate. rewrite Hb. simpl. rewrite Hm. simpl.
  destruct (relocateBottom _ _ _ _ _) as [top ret]. rewrite Hs. simpl.
  eexists _, _. split; [reflexivity|]. simpl. auto.
Qed.

(** C5, amended.  With soft wrap on, [Relocate] returns and leaves
    [leftCol] as it was, so it is 0 afterwards exactly when it was 0
    before; [DisplayView] of a view that is not an embedded
    terminal returns with [leftCol] at 0. *)
Theorem softwrap_leftCol (v : View) (m t : Z) :
  Settings (Buf v) !! "softwrap" = Some (VBool true) ->
  Settings (Buf v) !! "scrollmargin" = Some (VFloat m) ->
  Settings (Buf v) !! "tabsize" = Some (VFloat t) ->
  (forall u, is_Some (drawCells u)) ->
  (exists v' ret, Relocate GetVisualX v = Some (v', ret) /\ leftCol v' = leftCol v)
  /\ (Type_ v <> vtTerm ->
      exists v', DisplayView GetVisualX drawCells v = Some v' /\ leftCol v' = 0).
Proof.
  intros Hs Hm Ht Hdraw. split.
  - destruct (Relocate_softwrap v m t Hs Hm Ht) as (v' & ret & H & Hl & _).
    eauto.
  - intros Hterm. unfold DisplayView.
    destruct (decide (Type_ v = vtTerm)) as [|_]; [contradiction|].
    rewrite Hs. simpl.
    set (v1 := if negb (leftCol v =? 0) then setLeftCol 0 v else v).
    assert (H1 : leftCol v1 = 0 /\ Buf v1 = Buf v /\ Type_ v1 = Type_ v).
    { unfold v1. destruct (Z.eqb_spec (leftCol v) 0); simpl; auto. }
    destruct H1 as (Hl1 & Hb1 & Ht1).
    assert (H2 : exists v2,
               (if decide (Type_ v1 = vtLog ∨ Type_ v1 = vtRaw)
                then fst <$> Relocate GetVisualX v1 else Some v1) = Some v2
               /\ leftCol v2 = 0).
    { destruct (decide (Type_ v1 = vtLog ∨ Type_ v1 = vtRaw)); [|eauto].
      destruct (Relocate_softwrap v1 m t) as (v2 & ret & H & Hl & _);
        rewrite ?Hb1; auto.
      rewrite H. simpl. exists v2. split; [reflexivity | congruence]. }
    destruct H2 as (v2 & H2 & Hl2). rewrite H2. simpl.
    match goal with |- context [drawCells ?u] =>
      destruct (Hdraw u) as [c Hc]; rewrite Hc end.
    simpl. eexists. split; [reflexivity|]. simpl. exact Hl2.
Qed.

End SoftWrap.

Lemma softwrap_leftCol_witness :
  (exists v' ret,
      Relocate plainX (wrapView 9 5) = Some (v', ret) /\ leftCol v' = 5)
  /\ exists v',
       DisplayView plainX (fun u => Some (Cursor_ u)) (wrapView 9 5) = Some v'
       /\ leftCol v' = 0.
Proof.
  destruct (softwrap_leftCol plainX (fun u => Some (Cursor_ u)) (wrapView 9 5) 3 4)
    as [H1 H2]; [reflexivity .. | intros u; eauto |].
  split; [exact H1 | apply H2; discriminate].
Defined.

(** *** GutterMessage *)

Lemma lineTakenb_spec (lineN : Z) (m : gmap string (list GutterMessage)) :
  lineTakenb lineN m = true <-> lineTaken lineN m.
Proof.
  unfold lineTakenb.
  apply (map_fold_weak_ind (fun b m => b = true <-> lineTaken lineN m)).
  - split; [discriminate|]. intros (s & l & g & Hs & _). by rewrite lookup_empty in Hs.
  - intros i l m' acc Hi IH. rewrite orb_true_iff, IH, existsb_exists. split.
    + intros [(g & Hg & Heq) | (s & l' & g & Hs & Hg & Heq)].
      * exists i, l, g. rewrite lookup_insert_eq.
        split; [done|]. split; [by apply list_elem_of_In | by apply Z.eqb_eq].
      * exists s, l', g. rewrite lookup_insert_ne; [done | congruence].
    + intros (s & l' & g & Hs & Hg & Heq).
      destruct (decide (i = s)) as [->|Hne].
      * rewrite lookup_insert_eq in Hs. injection Hs as <-. left.
        exists g. split; [by apply list_elem_of_In | by apply Z.eqb_eq].
      * rewrite lookup_insert_ne in Hs by done. right. by exists s, l', g.
Qed.

(** C10.  [GutterMessage(section, lineN, msg, kind)] stores the
    message under the line index [lineN - 1], at the end of its
    section, and changes nothing at all when a message of any section
    already has that line index. *)
Theorem gutter_message_once (section_ : string) (lineN : Z) (msg_ : string) (kind_ : Z)
        (v : View) :
  minInt < lineN <= maxInt ->
  let stored := mkGutterMessage (lineN - 1) msg_ kind_ in
  let v' := GutterMessage_ section_ lineN msg_ kind_ v in
  (lineTaken (lineN - 1) (messages v) -> v' = v)
  /\ (~ lineTaken (lineN - 1) (messages v) ->
      messages v' =
        <[section_ := default [] (messages v !! section_) ++ [stored]]> (messages v)).
Proof.
  intros Hr. cbv zeta. unfold GutterMessage_.
  rewrite sub_exact by (unfold inRange, minInt, maxInt in *; lia).
  destruct (lineTakenb (lineN - 1) (messages v)) eqn:Hb.
  - split; [done|]. intros Hn. apply lineTakenb_spec in Hb. contradiction.
  - split; [|done]. intros Ht. apply lineTakenb_spec in Ht. congruence.
Qed.

Lemma gutter_message_once_witness :
  GutterMessage_ "spell" 5 "typo" 1 lintView = lintView
  /\ messages (GutterMessage_ "spell" 7 "typo" 1 lintView)
     = <["spell"%string := [mkGutterMessage 6 "typo" 1]]> (messages lintView).
Proof.
  split.
  - apply (gutter_message_once "spell" 5 "typo" 1 lintView);
      [unfold minInt, maxInt; lia|].
    exists "lint"%string, [mkGutterMessage 4 "unused variable" 2],
      (mkGutterMessage 4 "unused variable" 2).
    split; [reflexivity|]. split; [apply list_elem_of_here | reflexivity].
  - apply (gutter_message_once "spell" 7 "typo" 1 lintView);
      [unfold minInt, maxInt; lia|].
    intros Ht. apply lineTakenb_spec in Ht. vm_compute in Ht. discriminate.
Defined.

End ViewportSpec.

(** ** Dispatch *)

Module DispatchSpec.

Import Viewport Dispatch DispatchScenarios.

(** *** ExecuteActions in a read-only pane *)

(** C1, as stated, fails.  [ExecuteActions] looks at the current view,
    not at its receiver.  Called on the read-only help pane while the
    text pane is current, it invokes [Delete]; and called while the
    help pane is current, with [NextSplit] first in the list, it
    invokes [Delete] on the pane [NextSplit] moved to. *)
Lemma readonly_pane_runs_mutating_action :
  Readonly (vType helpPane) = true
  /\ matchesReadonlyList (funcName Delete) = true
  /\ (exists st,
        run (ExecuteActions journalAction 0 [Delete]) (helpAndText 1) = Some (false, st)
        /\ trace st = [LInvoke Delete 1]
        /\ world (ed st) = [("Delete"%string, 1%nat)])
  /\ (exists st,
        run (ExecuteActions journalAction 0 [NextSplit; Delete]) (helpAndText 0)
          = Some (false, st)
        /\ trace st = [LInvoke NextSplit 0; LInvoke Delete 1]).
Proof.
  split; [reflexivity|]. split; [reflexivity|].
  split; eexists; (split; [vm_compute; reflexivity|]); auto.
Qed.

Section Gating.

Context {W Ptr : Type}.
Variable callAction : Action -> nat -> @Editor W Ptr -> @Editor W Ptr * bool.

Lemma bind_some {A B : Type} (m : @M W Ptr A) (k : A -> @M W Ptr B)
      (s : @St W Ptr) (a : A) (s' : @St W Ptr) :
  m s = Some (a, s') -> bind m k s = k a s'.
Proof. intros H. unfold bind. rewrite H. reflexivity. Qed.

Lemma invokeAction_eq (a : Action) (curv : nat) (s : @St W Ptr) :
  invokeAction callAction a curv s =
    Some (snd (invoked callAction a curv (ed s)),
          mkSt (fst (invoked callAction a curv (ed s))) (trace s ++ [LInvoke a curv])).
Proof.
  unfold invokeAction, invoked, bind, get, modify, emit, ret.
  destruct (callAction a curv (ed s)) as [e' rel]. cbn.
  destruct (negb (String.eqb (funcName a) "ToggleMacro")
            && negb (String.eqb (funcName a) "PlayMacro")); cbn; [|reflexivity].
  destruct (recordingMacro e'); reflexivity.
Qed.

Lemma invoked_keeps_views (a : Action) (curv : nat) (e : @Editor W Ptr) :
  views (fst (invoked callAction a curv e)) = views (fst (callAction a curv e))
  /\ curView (fst (invoked callAction a curv e)) = curView (fst (callAction a curv e)).
Proof.
  unfold invoked. destruct (callAction a curv e) as [e' rel]. cbn.
  destruct (_ && _); auto.
Qed.

(** One turn of the loop while the current view is read-only. *)
Lemma executeAction_readonly (rel : bool) (a : Action) (s : @St W Ptr) :
  readonlyCurrent (ed s) ->
  executeAction callAction rel a s =
    if passes a
    then Some (snd (invoked callAction a (curView (ed s)) (ed s)) || rel,
               mkSt (fst (invoked callAction a (curView (ed s)) (ed s)))
                    (trace s ++ [LInvoke a (curView (ed s))]))
    else Some (rel, mkSt (ed s) (trace s ++ [LSkip a (curView (ed s))])).
Proof.
  intros (cv & Hcv & Hro).
  unfold executeAction, theView, bind, get, ret, panic, passes. cbv beta.
  cbn [ed]. rewrite Hcv, Hro.
  destruct (matchesReadonlyList (funcName a)); cbn [negb].
  - reflexivity.
  - rewrite invokeAction_eq. reflexivity.
Qed.

Lemma executeLoop_gated (actions : list Action) :
  (forall a curv e, In a actions -> passes a = true ->
                    readonlyCurrent e -> readonlyCurrent (fst (callAction a curv e))) ->
  forall (rel : bool) (s s2 : @St W Ptr),
    readonlyCurrent (ed s) -> ed s2 = ed s ->
    exists rel' s' s2',
      executeLoop callAction rel actions s = Some (rel', s')
      /\ executeLoop callAction rel (List.filter passes actions) s2 = Some (rel', s2')
      /\ ed s2' = ed s'
      /\ verdicts (trace s') = verdicts (trace s) ++ map (fun a => (a, passes a)) actions
      /\ (forallb (fun a => negb (passes a)) actions = true -> ed s' = ed s /\ rel' = rel).
Proof.
  induction actions as [|a rest IH]; intros Hstay rel s s2 Hro Heq.
  - exists rel, s, s2. cbn. unfold ret. rewrite app_nil_r. repeat split; auto.
  - assert (Hrest : forall a' curv e, In a' rest -> passes a' = true ->
                      readonlyCurrent e -> readonlyCurrent (fst (callAction a' curv e)))
      by (intros; apply Hstay; [right|..]; assumption).
    pose proof (executeAction_readonly rel a s Hro) as E1.
    cbn [forallb map].
    destruct (passes a) eqn:Hp.
    + pose proof (executeAction_readonly rel a s2) as E2.
      rewrite Heq, Hp in E2. specialize (E2 Hro).
      set (inv := invoked callAction a (curView (ed s)) (ed s)) in *.
      assert (Hro1 : readonlyCurrent (fst inv)).
      { destruct (invoked_keeps_views a (curView (ed s)) (ed s)) as [Hv Hc].
        destruct (Hstay a (curView (ed s)) (ed s) (or_introl eq_refl) Hp Hro)
          as (cv & Hcv & Hr).
        exists cv. unfold inv. rewrite Hv, Hc. auto. }
      destruct (IH Hrest (snd inv || rel)
                  (mkSt (fst inv) (trace s ++ [LInvoke a (curView (ed s))]))
                  (mkSt (fst inv) (trace s2 ++ [LInvoke a (curView (ed s))]))
                  Hro1 eq_refl)
        as (rel' & s' & s2' & H1 & H2 & H3 & H4 & _).
      exists rel', s', s2'.
      cbn [executeLoop List.filter]. rewrite Hp. cbn [executeLoop].
      rewrite (bind_some _ _ _ _ _ E1), (bind_some _ _ _ _ _ E2).
      repeat split; auto; try discriminate.
      rewrite H4. cbn [trace]. unfold verdicts. rewrite omap_app, <- app_assoc.
      reflexivity.
    + destruct (IH Hrest rel (mkSt (ed s) (trace s ++ [LSkip a (curView (ed s))])) s2
                  Hro Heq)
        as (rel' & s' & s2' & H1 & H2 & H3 & H4 & H5).
      exists rel', s', s2'.
      cbn [executeLoop List.filter]. rewrite Hp.
      rewrite (bind_some _ _ _ _ _ E1).
      repeat split; auto; try (apply H5; assumption).
      rewrite H4. cbn [trace]. unfold verdicts. rewrite omap_app, <- app_assoc.
      reflexivity.
Qed.

(** C1, amended.  The gate of [ExecuteActions] is the view that is
    current when an action is reached, not the receiver.  While the
    current view is read-only, and stays so across the actions that
    run, each action of the list is, in order, skipped if its name
    contains one of [readonlyBindingsList] and invoked otherwise; the
    editor ends as if the skipped actions had not been in the list,
    and is untouched when every action is skipped. *)
Theorem readonly_gating (v : nat) (actions : list Action) (e : @Editor W Ptr) :
  readonlyCurrent e ->
  (forall a curv e', In a actions -> passes a = true ->
                     readonlyCurrent e' -> readonlyCurrent (fst (callAction a curv e'))) ->
  exists rel st,
    run (ExecuteActions callAction v actions) e = Some (rel, st)
    /\ verdicts (trace st) = map (fun a => (a, passes a)) actions
    /\ (exists st',
          run (ExecuteActions callAction v (List.filter passes actions)) e = Some (rel, st')
          /\ ed st' = ed st)
    /\ (forallb (fun a => negb (passes a)) actions = true -> ed st = e /\ rel = false).
Proof.
  intros Hro Hstay.
  destruct (executeLoop_gated actions Hstay false (mkSt e []) (mkSt e []) Hro eq_refl)
    as (rel & st & st' & H1 & H2 & H3 & H4 & H5).
  exists rel, st. unfold run, ExecuteActions. repeat split; auto.
  - exists st'. auto.
  - apply H5. assumption.
  - apply H5. assumption.
Qed.

End Gating.

Lemma readonly_gating_witness :
  exists rel st,
    run (ExecuteActions journalAction 0 [Delete; CursorDown; Paste]) (helpAndText 0)
      = Some (rel, st)
    /\ verdicts (trace st) = [(Delete, false); (CursorDown, true); (Paste, false)].
Proof.
  destruct (readonly_gating journalAction 0 [Delete; CursorDown; Paste] (helpAndText 0))
    as (rel & st & H1 & H2 & _).
  - exists helpPane. split; reflexivity.
  - intros a curv e' Hin Hp (cv & Hcv & Hr).
    assert (Hn : String.eqb (funcName a) "NextSplit" = false).
    { cbn in Hin. destruct Hin as [<-|[<-|[<-|[]]]]; reflexivity. }
    exists cv. unfold journalAction. rewrite Hn. cbn. auto.
  - exists rel, st. split; [exact H1 | exact H2].
Defined.

(** *** HandleEvent: which paths call MergeCursors *)

Section Reconcile.

Context {W Ptr : Type}.
Variable callAction : Action -> nat -> @Editor W Ptr -> @Editor W Ptr * bool.
Variable perform : Call -> nat -> @Editor W Ptr -> @Editor W Ptr.
Variable ask : Query -> nat -> @Editor W Ptr -> bool.
Variable lenCursors : nat -> @Editor W Ptr -> nat.
Variable rangeCursor : nat -> @Editor W Ptr -> nat -> @Editor W Ptr -> option Ptr.
Variable primaryCursor : nat -> @Editor W Ptr -> Ptr.
Variable storeCurCursor : nat -> Ptr -> W -> W.
Variable smartClip : nat -> string -> @Editor W Ptr -> string.

Lemma mergeFree_ret {A : Type} (a : A) : mergeFree (@ret W Ptr A a).
Proof.
  intros s a' s' H. injection H as <- <-. exists []. by rewrite app_nil_r.
Qed.

Lemma mergeFree_panic {A : Type} : mergeFree (@panic W Ptr A).
Proof. intros s a s' H. discriminate. Qed.

Lemma mergeFree_get : mergeFree (@get W Ptr).
Proof.
  intros s a s' H. injection H as <- <-. exists []. by rewrite app_nil_r.
Qed.

Lemma mergeFree_modify (f : @Editor W Ptr -> @Editor W Ptr) : mergeFree (modify f).
Proof.
  intros s a s' H. injection H as <- <-. exists []. by rewrite app_nil_r.
Qed.

Lemma mergeFree_emit (l : @LogItem Ptr) : isMerge l = false -> mergeFree (@emit W Ptr l).
Proof.
  intros Hl s a s' H. injection H as <- <-. exists [l]. cbn. by rewrite Hl.
Qed.

Lemma mergeFree_bind {A B : Type} (m : @M W Ptr A) (k : A -> @M W Ptr B) :
  mergeFree m -> (forall a, mergeFree (k a)) -> mergeFree (bind m k).
Proof.
  intros Hm Hk s b s' H. unfold bind in H.
  destruct (m s) as [[a s1]|] eqn:E; [|discriminate].
  destruct (Hm _ _ _ E) as (t1 & E1 & F1).
  destruct (Hk a _ _ _ H) as (t2 & E2 & F2).
  exists (t1 ++ t2). rewrite E2, E1, app_assoc. split; [reflexivity|].
  rewrite forallb_app, F1, F2. reflexivity.
Qed.

Ltac merge_free :=
  repeat first
    [ exact mergeFree_get
    | apply mergeFree_ret
    | apply mergeFree_panic
    | apply mergeFree_modify
    | apply mergeFree_emit; reflexivity
    | apply mergeFree_bind; [|intros ?]
    | assumption
    | match goal with
      | |- mergeFree (if ?b then _ else _) => destruct b
      | |- mergeFree (match ?x with _ => _ end) => destruct x
      | |- mergeFree (let '(_, _) := ?x in _) => destruct x
      end ].

Lemma mergeFree_call (c : Call) (v : nat) :
  c <> CMergeCursors -> mergeFree (call perform c v).
Proof.
  intros Hc. unfold call. apply mergeFree_bind; [apply mergeFree_modify|intros _].
  apply mergeFree_emit. destruct c; try reflexivity. contradiction.
Qed.

Lemma mergeFree_theView (v : nat) : mergeFree (@theView W Ptr v).
Proof. unfold theView. merge_free. Qed.

Lemma mergeFree_query (q : Query) (v : nat) : mergeFree (query ask q v).
Proof. unfold query. merge_free. Qed.

Lemma mergeFree_SetCursor (v : nat) (c : option Ptr) :
  mergeFree (SetCursor storeCurCursor v c).
Proof. unfold SetCursor. pose proof (mergeFree_theView v). merge_free. Qed.

Lemma mergeFree_resetToPrimary (v : nat) :
  mergeFree (resetToPrimary primaryCursor storeCurCursor v).
Proof.
  unfold resetToPrimary. apply mergeFree_bind; [exact mergeFree_get|intros e].
  apply mergeFree_bind; [apply mergeFree_SetCursor | intros; apply mergeFree_ret].
Qed.

Lemma mergeFree_dropSelection (v : nat) : mergeFree (dropSelection perform ask v).
Proof.
  unfold dropSelection. apply mergeFree_bind; [apply mergeFree_query|intros sel].
  destruct sel; [|apply mergeFree_ret].
  apply mergeFree_bind; [|intros _]; by apply mergeFree_call.
Qed.

Lemma mergeFree_insertRuneAt (v : nat) (ch : rune) (c : option Ptr) :
  mergeFree (insertRuneAt perform ask storeCurCursor v ch c).
Proof.
  unfold insertRuneAt.
  apply mergeFree_bind; [apply mergeFree_SetCursor|intros _].
  apply mergeFree_bind; [apply mergeFree_dropSelection|intros _].
  apply mergeFree_bind; [apply mergeFree_theView|intros vs].
  apply mergeFree_bind; [destruct (isOverwriteMode vs); by apply mergeFree_call|intros _].
  apply mergeFree_bind; [by apply mergeFree_call|intros _].
  apply mergeFree_bind; [by apply mergeFree_call|intros _].
  merge_free.
Qed.

Lemma mergeFree_insertRuneLoop (v : nat) (e0 : @Editor W Ptr) (ch : rune) (idx : list nat) :
  mergeFree (insertRuneLoop perform ask rangeCursor storeCurCursor v e0 ch idx).
Proof.
  induction idx as [|i idx IH]; cbn [insertRuneLoop]; [apply mergeFree_ret|].
  apply mergeFree_bind; [exact mergeFree_get|intros e].
  apply mergeFree_bind; [apply mergeFree_insertRuneAt | intros _; exact IH].
Qed.

Lemma mergeFree_paste (v : nat) (clip : string) :
  mergeFree (paste perform ask smartClip v clip).
Proof.
  unfold paste. apply mergeFree_bind; [exact mergeFree_get|intros e].
  apply mergeFree_bind; [apply mergeFree_dropSelection|intros _].
  apply mergeFree_bind; [by apply mergeFree_call|intros _].
  apply mergeFree_bind; [apply mergeFree_modify|intros _].
  by apply mergeFree_call.
Qed.

Lemma mergeFree_pasteLoop (v : nat) (e0 : @Editor W Ptr) (clip : string) (idx : list nat) :
  mergeFree (pasteLoop perform ask rangeCursor storeCurCursor smartClip v e0 clip idx).
Proof.
  induction idx as [|i idx IH]; cbn [pasteLoop]; [apply mergeFree_ret|].
  apply mergeFree_bind; [exact mergeFree_get|intros e].
  apply mergeFree_bind; [apply mergeFree_SetCursor|intros _].
  apply mergeFree_bind; [apply mergeFree_paste | intros _; exact IH].
Qed.

(** A key that no binding takes leaves the loop over [bindings]
    without a step. *)
Lemma keyBindings_none (v : nat) (key : Z) (ch : rune) (mods : Z) (bs : Bindings)
      (acc : bool * bool) :
  noKeyApplies key ch mods bs = true ->
  keyBindings callAction perform lenCursors rangeCursor primaryCursor storeCurCursor
              v key ch mods bs acc = ret acc.
Proof.
  induction bs as [|[k actions] bs IH]; cbn [keyBindings]; [reflexivity|].
  unfold noKeyApplies. cbn [forallb fst]. intros H.
  apply andb_true_iff in H as [Hk Hbs]. unfold keyApplies in Hk.
  destruct (key =? keyCode k); [|by apply IH].
  destruct ((key =? KeyRune) && negb (ch =? r k)); [by apply IH|].
  destruct (mods =? modifiers k); [discriminate | by apply IH].
Qed.

(** The switch of [HandleEvent] on a paste, and on a key that no
    binding takes, never calls [MergeCursors]. *)
Lemma mergeFree_handleSwitch (v : nat) (bindings mouseBindings : Bindings) (event : Event) :
  match event with
  | EventPaste _ => True
  | EventKey key ch mods => noKeyApplies key ch mods bindings = true
  | _ => False
  end ->
  mergeFree (handleSwitch callAction perform ask lenCursors rangeCursor primaryCursor
                          storeCurCursor smartClip v bindings mouseBindings event).
Proof.
  destruct event as [esc|key ch mods|text|btn mods px py|w h]; try contradiction;
    intros Hev; cbn [handleSwitch].
  - apply mergeFree_bind; [exact mergeFree_get|intros e].
    apply mergeFree_bind; [by apply mergeFree_call|intros _].
    destruct (ask _ v e); [apply mergeFree_ret|].
    rewrite keyBindings_none by exact Hev.
    apply mergeFree_bind; [apply mergeFree_ret|intros [relocate isBinding]].
    apply mergeFree_bind; [|intros _; apply mergeFree_ret].
    destruct (negb isBinding && (key =? KeyRune)); [|apply mergeFree_ret].
    apply mergeFree_bind; [apply mergeFree_theView|intros vs].
    destruct (negb (Readonly (vType vs))); [|apply mergeFree_ret].
    apply mergeFree_bind; [exact mergeFree_get|intros e0].
    apply mergeFree_bind; [apply mergeFree_insertRuneLoop|intros _].
    apply mergeFree_resetToPrimary.
  - apply mergeFree_bind; [apply mergeFree_theView|intros vs].
    apply mergeFree_bind; [|intros _; apply mergeFree_ret].
    destruct (negb (Readonly (vType vs))); [|apply mergeFree_ret].
    apply mergeFree_bind; [exact mergeFree_get|intros e].
    apply mergeFree_bind; [by apply mergeFree_call|intros _].
    destruct (ask _ v e); [|apply mergeFree_ret].
    apply mergeFree_bind; [exact mergeFree_get|intros e0].
    apply mergeFree_bind; [apply mergeFree_pasteLoop|intros _].
    apply mergeFree_bind; [apply mergeFree_resetToPrimary|intros _].
    by apply mergeFree_call.
Qed.

(** Whatever the buffer, the cursors and the plugins do: a paste, and
    a key that no binding takes, go through [HandleEvent] without a
    call of [MergeCursors]. *)
Theorem typed_and_pasted_never_merge (v : nat) (bindings mouseBindings : Bindings)
        (event : Event) (e : @Editor W Ptr) (st : @St W Ptr) :
  match event with
  | EventPaste _ => True
  | EventKey key ch mods => noKeyApplies key ch mods bindings = true
  | _ => False
  end ->
  run (HandleEvent callAction perform ask lenCursors rangeCursor primaryCursor
                   storeCurCursor smartClip v bindings mouseBindings event) e
    = Some (tt, st) ->
  forall u, ~ In (LCall CMergeCursors u) (trace st).
Proof.
  intros Hev Hrun u Hin.
  assert (Hfree : mergeFree (HandleEvent callAction perform ask lenCursors rangeCursor
                               primaryCursor storeCurCursor smartClip
                               v bindings mouseBindings event)).
  { unfold HandleEvent.
    apply mergeFree_bind; [apply mergeFree_theView|intros vs].
    destruct (decide (vType vs = vtTerm)); [by apply mergeFree_call|].
    destruct (decide (vType vs = vtRaw)).
    - apply mergeFree_bind; [by apply mergeFree_call|intros _].
      apply mergeFree_bind; [by apply mergeFree_call|intros _].
      destruct event; try apply mergeFree_ret.
      destruct (key =? KeyCtrlQ); [by apply mergeFree_call | apply mergeFree_ret].
    - apply mergeFree_bind; [by apply mergeFree_call|intros _].
      apply mergeFree_bind; [by apply mergeFree_handleSwitch|intros relocate].
      apply mergeFree_bind; [|intros _; by apply mergeFree_call].
      destruct relocate; [|apply mergeFree_ret].
      apply mergeFree_bind; [|intros _]; by apply mergeFree_call. }
  destruct (Hfree _ _ _ Hrun) as (t & Ht & Hf). cbn in Ht. subst.
  rewrite forallb_forall in Hf. specialize (Hf _ Hin). discriminate.
Qed.

Lemma bind_inv {A B : Type} (m : @M W Ptr A) (k : A -> @M W Ptr B)
      (s s' : @St W Ptr) (b : B) :
  bind m k s = Some (b, s') -> exists a s1, m s = Some (a, s1) /\ k a s1 = Some (b, s').
Proof.
  unfold bind. destruct (m s) as [[a s1]|]; [eauto | discriminate].
Qed.

Lemma call_trace (c : Call) (v : nat) (s s' : @St W Ptr) (u : unit) :
  call perform c v s = Some (u, s') -> trace s' = trace s ++ [LCall c v].
Proof. unfold call, bind, modify, emit. cbn. intros H. by injection H as _ <-. Qed.

Lemma resetToPrimary_trace (v : nat) (s s' : @St W Ptr) (u : unit) :
  resetToPrimary primaryCursor storeCurCursor v s = Some (u, s') ->
  exists p, trace s' = trace s ++ [LSetCursor v p].
Proof.
  unfold resetToPrimary, SetCursor, theView, bind, get, modify, emit, ret, panic.
  cbn [ed trace]. destruct (views (ed s) !! v); [|discriminate].
  intros H. injection H as _ <-. cbn [trace]. eauto.
Qed.

(** The three binding paths share [dispatchBinding]: when it returns,
    the last two steps are the reset of the active cursor to the
    primary one and [MergeCursors]. *)
Theorem dispatchBinding_reconciles (v : nat) (actions : list Action) (keep : bool)
        (acc acc' : bool * bool) (s s' : @St W Ptr) :
  dispatchBinding callAction perform lenCursors rangeCursor primaryCursor storeCurCursor
                  v actions keep acc s = Some (acc', s') ->
  exists t p, trace s' = t ++ [LSetCursor v p; LCall CMergeCursors v].
Proof.
  unfold dispatchBinding. intros H.
  apply bind_inv in H as (e0 & s0 & _ & H).
  apply bind_inv in H as (acc1 & s1 & _ & H).
  apply bind_inv in H as (u1 & s2 & Hreset & H).
  apply bind_inv in H as (u2 & s3 & Hmerge & H).
  injection H as _ <-.
  apply resetToPrimary_trace in Hreset as [p Hp].
  apply call_trace in Hmerge.
  exists (trace s1), p. rewrite Hmerge, Hp, <- app_assoc. reflexivity.
Qed.

End Reconcile.

(** *** HandleEvent: the cursors after a dispatch *)

(** C2, at the inputs where it fails.  In a text pane with two
    cursors, a typed rune that no binding takes and a paste both end
    with the reset of the active cursor to the primary one
    ([LSetCursor 0 0]) and without any call of [MergeCursors]; a bound
    key ends with the reset followed by [MergeCursors]. *)
Theorem typed_rune_and_paste_skip_merge :
  (exists st,
     run (handle never [] (EventKey KeyRune 97 0)) oneText = Some (tt, st)
     /\ trace st =
          [LCall CCheckModTime 0; LCall (CCompleterHandleEvent 256) 0;
           LSetCursor 0 0%nat; LCall (CInsertRune 97) 0;
           LCall (CCompleterProcess 97) 0; LCall (COnRunePlugins 97) 0;
           LSetCursor 0 1%nat; LCall (CInsertRune 97) 0;
           LCall (CCompleterProcess 97) 0; LCall (COnRunePlugins 97) 0;
           LSetCursor 0 0%nat;
           LCall CRelocate 0; LCall CRelocate 0; LCall CDeactivateIfOutOfBounds 0])
  /\ (exists st,
        run (handle always [] (EventPaste "x")) oneText = Some (tt, st)
        /\ trace st =
             [LCall CCheckModTime 0; LCall (CPreActionCall "Paste") 0;
              LSetCursor 0 0%nat; LCall CDeleteSelection 0; LCall CResetSelection 0;
              LCall (CBufInsert "x") 0; LCall (CMessage "Pasted clipboard") 0;
              LSetCursor 0 1%nat; LCall CDeleteSelection 0; LCall CResetSelection 0;
              LCall (CBufInsert "x") 0; LCall (CMessage "Pasted clipboard") 0;
              LSetCursor 0 0%nat; LCall (CPostActionCall "Paste") 0;
              LCall CRelocate 0; LCall CRelocate 0; LCall CDeactivateIfOutOfBounds 0])
  /\ (exists st,
        run (handle never bindCtrlD (EventKey 4 0 2)) oneText = Some (tt, st)
        /\ trace st =
             [LCall CCheckModTime 0; LCall (CCompleterHandleEvent 4) 0;
              LSetCursor 0 0%nat; LInvoke CursorDown 0;
              LSetCursor 0 1%nat; LInvoke CursorDown 0;
              LSetCursor 0 0%nat; LCall CMergeCursors 0;
              LCall CDeactivateIfOutOfBounds 0]).
Proof.
  split; [|split]; eexists; (split; [vm_compute; reflexivity | reflexivity]).
Qed.

End DispatchSpec.

(** ** The event loop *)

Module SchedulerSpec.

Import Dispatch Scheduler SchedulerScenarios.

(** C6, as stated, fails.  Two events are queued, a click on another
    tab and a key.  The iteration that receives the click stops at it
    and leaves the key in the channel; the loop redraws, and only the
    next iteration handles the key: a redraw stands between the two
    events of the batch. *)
Lemma tab_click_ends_the_drain :
  (exists l1,
     turn WEvents (mkLoop 0%nat [Some clickTab1; Some typeA] []) = Some l1
     /\ events l1 = [Some typeA]
     /\ steps l1 = [SRedrawAll; SFocusClicked clickTab1;
                    STabbarHandleMouseEvent clickTab1 true]
     /\ exists l2,
          turn WEvents l1 = Some l2
          /\ steps l2 = [SRedrawAll; SFocusClicked clickTab1;
                         STabbarHandleMouseEvent clickTab1 true;
                         SRedrawAll;
                         STabbarHandleMouseEvent typeA false;
                         SCurViewHandleEvent typeA]).
Proof.
  eexists. split; [vm_compute; reflexivity|]. split; [reflexivity|].
  split; [reflexivity|]. eexists. split; [vm_compute; reflexivity | reflexivity].
Qed.

Section Drain.

Context {W : Type}.
Variable RedrawAll : W -> W.
Variable runJob : nat -> W -> W.
Variable hasPath : W -> bool.
Variable Save : W -> W.
Variable CloseTerminal : nat -> W -> W.
Variable resizeTabs : W -> W.
Variable searching : W -> bool.
Variable onInfobarMessage : Event -> W -> bool.
Variable clipboardWrite : W -> W.
Variable curMouseReleased : W -> bool.
Variable focusClicked : Event -> W -> W.
Variable viewUnder : Event -> W -> option nat.
Variable viewHandleEvent : nat -> Event -> W -> W.
Variable TabbarHandleMouseEvent : Event -> W -> W * bool.
Variable HandleSearchEvent : Event -> W -> W.
Variable curViewHandleEvent : Event -> W -> W.

Abbreviation preDispatch' :=
  (preDispatch resizeTabs searching onInfobarMessage clipboardWrite curMouseReleased
               focusClicked viewUnder viewHandleEvent).
Abbreviation dispatchOne' :=
  (dispatchOne resizeTabs searching onInfobarMessage clipboardWrite curMouseReleased
               focusClicked viewUnder viewHandleEvent TabbarHandleMouseEvent
               HandleSearchEvent curViewHandleEvent).
Abbreviation drain' :=
  (drain resizeTabs searching onInfobarMessage clipboardWrite curMouseReleased
         focusClicked viewUnder viewHandleEvent TabbarHandleMouseEvent
         HandleSearchEvent curViewHandleEvent).
Abbreviation iteration' :=
  (iteration RedrawAll runJob hasPath Save CloseTerminal resizeTabs searching
             onInfobarMessage clipboardWrite curMouseReleased focusClicked viewUnder
             viewHandleEvent TabbarHandleMouseEvent HandleSearchEvent curViewHandleEvent).

Lemma preDispatch_steps (ev : Event) (l : @Loop W) :
  exists pre,
    steps (fst (preDispatch' ev l)) = steps l ++ pre
    /\ ~ In SRedrawAll pre
    /\ omap handled pre = (if snd (preDispatch' ev l) then [ev] else []).
Proof.
  unfold preDispatch, step.
  destruct ev as [esc|key ch mods|text|btn mods px py|w h]; cbn [fst snd steps];
    try (exists []; rewrite app_nil_r; repeat split; auto; fail).
  - destruct (negb (searching (world l)));
      [|exists []; rewrite app_nil_r; repeat split; auto].
    destruct (btn =? Button1).
    + destruct (onInfobarMessage _ _); cbn [fst snd steps].
      * exists [SClipboardWrite]. repeat split; auto. intros [H|[]]; discriminate.
      * destruct (curMouseReleased _); cbn [fst snd steps].
        -- eexists [_]. repeat split; auto. intros [H|[]]; discriminate.
        -- exists []. rewrite app_nil_r. repeat split; auto.
    + destruct ((btn =? WheelUp) || (btn =? WheelDown));
        [|exists []; rewrite app_nil_r; repeat split; auto].
      destruct (viewUnder _ _) as [v|]; cbn [fst snd steps].
      * eexists [_]. repeat split; auto. intros [H|[]]; discriminate.
      * exists []. rewrite app_nil_r. repeat split; auto.
  - exists [SResizeTabs]. repeat split; auto. intros [H|[]]; discriminate.
Qed.

Lemma dispatchOne_steps (ev : Event) (l : @Loop W) :
  (forall w, snd (TabbarHandleMouseEvent ev w) = false) ->
  exists body,
    snd (dispatchOne' ev l) = false
    /\ steps (fst (dispatchOne' ev l)) = steps l ++ body
    /\ ~ In SRedrawAll body /\ omap handled body = [ev].
Proof.
  intros Htab. unfold dispatchOne.
  destruct (preDispatch_steps ev l) as (pre & Hpre & Hno & Hh).
  destruct (preDispatch' ev l) as [l1 didAction]. cbn [fst snd] in *.
  destruct didAction; cbn [negb].
  - exists pre. repeat split; auto.
  - specialize (Htab (world l1)).
    destruct (TabbarHandleMouseEvent ev (world l1)) as [w changed].
    cbn [snd] in Htab. subst changed. cbn [world].
    unfold step.
    destruct (searching w); cbn [fst snd steps world events]; rewrite Hpre.
    + exists (pre ++ [STabbarHandleMouseEvent ev false; SHandleSearchEvent ev]).
      split; [reflexivity|]. split; [by rewrite <- !app_assoc|]. split.
      * rewrite in_app_iff. intros [H|[H|[H|[]]]]; try discriminate. contradiction.
      * rewrite omap_app, Hh. reflexivity.
    + exists (pre ++ [STabbarHandleMouseEvent ev false; SCurViewHandleEvent ev]).
      split; [reflexivity|]. split; [by rewrite <- !app_assoc|]. split.
      * rewrite in_app_iff. intros [H|[H|[H|[]]]]; try discriminate. contradiction.
      * rewrite omap_app, Hh. reflexivity.
Qed.

Lemma drain_batch (batch : list Event) :
  forall (ev : Event) (l : @Loop W),
    (forall e w, In e (ev :: batch) -> snd (TabbarHandleMouseEvent e w) = false) ->
    exists body,
      snd (drain' (Some ev) (map Some batch) l) = []
      /\ steps (fst (drain' (Some ev) (map Some batch) l)) = steps l ++ body
      /\ ~ In SRedrawAll body
      /\ omap handled body = ev :: batch.
Proof.
  induction batch as [|next batch IH]; intros ev l Htab.
  - destruct (dispatchOne_steps ev l) as (body & Hstop & Hsteps & Hno & Hh);
      [intros w; apply Htab; left; reflexivity|].
    cbn [drain map]. destruct (dispatchOne' ev l) as [l1 stop].
    cbn [fst snd] in *. subst stop. cbn [fst snd]. eauto.
  - destruct (dispatchOne_steps ev l) as (body & Hstop & Hsteps & Hno & Hh);
      [intros w; apply Htab; left; reflexivity|].
    cbn [drain map]. destruct (dispatchOne' ev l) as [l1 stop].
    cbn [fst snd] in *. subst stop.
    destruct (IH next l1) as (body' & Hq & Hsteps' & Hno' & Hh');
      [intros e w He; apply Htab; right; exact He|].
    exists (body ++ body'). split; [exact Hq|]. split; [|split].
    + rewrite Hsteps', Hsteps, app_assoc. reflexivity.
    + rewrite in_app_iff. tauto.
    + rewrite omap_app, Hh, Hh'. reflexivity.
Qed.

Lemma dispatchOne_extends (ev : Event) (l : @Loop W) :
  exists t, steps (fst (dispatchOne' ev l)) = steps l ++ t.
Proof.
  unfold dispatchOne.
  destruct (preDispatch_steps ev l) as (pre & Hpre & _).
  destruct (preDispatch' ev l) as [l1 didAction]. cbn [fst] in Hpre.
  destruct didAction; cbn [negb]; [eauto|].
  destruct (TabbarHandleMouseEvent ev (world l1)) as [w changed]. cbn [world].
  unfold step.
  destruct changed; [|destruct (searching w)]; cbn [fst steps world];
    rewrite Hpre, <- ?app_assoc; eauto.
Qed.

Lemma drain_extends (queue : list (option Event)) :
  forall (event : option Event) (l : @Loop W),
    exists t, steps (fst (drain' event queue l)) = steps l ++ t.
Proof.
  induction queue as [|next queue IH]; intros [ev|] l; cbn [drain];
    try (exists []; by rewrite app_nil_r).
  - destruct (dispatchOne_extends ev l) as [t Ht].
    destruct (dispatchOne' ev l) as [l1 stop]. cbn [fst] in Ht.
    destruct stop; cbn [fst]; eauto.
  - destruct (dispatchOne_extends ev l) as [t Ht].
    destruct (dispatchOne' ev l) as [l1 stop]. cbn [fst] in Ht.
    destruct stop; cbn [fst]; [eauto|].
    destruct (IH next l1) as [t' Ht']. rewrite Ht', Ht, <- app_assoc. eauto.
Qed.

(** Every iteration starts with a redraw. *)
Lemma iteration_redraws_first (wk : Wake) (l l' : @Loop W) :
  iteration' wk l = Some l' -> exists rest, steps l' = steps l ++ SRedrawAll :: rest.
Proof.
  unfold iteration, step. destruct wk; cbn [world events steps].
  - intros H. injection H as <-. cbn. rewrite <- app_assoc. eauto.
  - intros H. injection H as <-. destruct (hasPath _); cbn; rewrite <- ?app_assoc; eauto.
  - intros H. injection H as <-. cbn. eauto.
  - intros H. injection H as <-. cbn. rewrite <- app_assoc. eauto.
  - destruct (events l) as [|event queue]; [discriminate|].
    match goal with |- context [drain' event queue ?l0] =>
      destruct (drain_extends queue event l0) as [t Ht];
      destruct (drain' event queue l0) as [l1 rest] end.
    cbn [fst steps] in Ht. intros H. injection H as <-. cbn [steps].
    rewrite Ht, <- app_assoc. eauto.
Qed.

(** C6, amended.  An iteration that receives the first of a batch of
    queued input events hands over every event of the batch, in order,
    with no redraw between two of them, and leaves the channel empty;
    the one redraw that follows is the first step of the next
    iteration.  This holds as long as no event of the batch makes
    [TabbarHandleMouseEvent] report a change of tab: such an event
    ends the drain. *)
Theorem burst_is_drained_before_redraw (ev : Event) (batch : list Event) (l : @Loop W) :
  events l = Some ev :: map Some batch ->
  (forall e w, In e (ev :: batch) -> snd (TabbarHandleMouseEvent e w) = false) ->
  exists l' body,
    iteration' WEvents l = Some l'
    /\ events l' = []
    /\ steps l' = steps l ++ SRedrawAll :: body
    /\ ~ In SRedrawAll body
    /\ omap handled body = ev :: batch
    /\ forall wk l'',
         iteration' wk l' = Some l'' ->
         exists rest, steps l'' = steps l' ++ SRedrawAll :: rest.
Proof.
  intros Hev Htab. unfold iteration at 1. cbn [step events]. rewrite Hev.
  match goal with |- context [drain' (Some ev) (map Some batch) ?l0] =>
    destruct (drain_batch batch ev l0 Htab) as (body & Hq & Hsteps & Hno & Hh);
    destruct (drain' (Some ev) (map Some batch) l0) as [l1 rest] end.
  cbn [fst snd steps] in *. subst rest.
  eexists _, body. split; [reflexivity|]. cbn [events steps].
  split; [reflexivity|]. split; [rewrite Hsteps; unfold step; cbn [steps]; by rewrite <- app_assoc|].
  split; [exact Hno|]. split; [exact Hh|].
  intros wk l'' H. exact (iteration_redraws_first wk _ l'' H).
Qed.

End Drain.

Lemma burst_is_drained_before_redraw_witness :
  exists l' body,
    turn WEvents (mkLoop 0%nat [Some typeA; Some typeB; Some typeA] []) = Some l'
    /\ events l' = []
    /\ steps l' = SRedrawAll :: body
    /\ ~ In SRedrawAll body
    /\ omap handled body = [typeA; typeB; typeA].
Proof.
  destruct (burst_is_drained_before_redraw
              same (fun _ => same) (fun _ => false) same (fun _ => same) same
              (fun _ => false) (fun _ _ => false) same (fun _ => true)
              (fun _ => same) (fun _ _ => None) (fun _ _ => same)
              tabbar (fun _ => same) (fun _ => same)
              typeA [typeB; typeA]
              (mkLoop 0%nat [Some typeA; Some typeB; Some typeA] []))
    as (l' & body & H1 & H2 & H3 & H4 & H5 & _).
  - reflexivity.
  - intros e w [<-|[<-|[<-|[]]]]; reflexivity.
  - exists l', body. auto.
Defined.

End SchedulerSpec.

(** ** The settings store *)

Module ConfigSpec.

Import Config ConfigScenarios.

Section Store.

Context {FS : Type}.
Variable dirExists : FS -> bool.
Variable fileExists : FS -> bool.
Variable fileNotExist : FS -> bool.
Variable ReadFile : FS -> string * option string.
Variable WriteFile : string -> FS -> FS * option string.
Variable Unmarshal : string -> gmap string Value -> gmap string Value * option string.
Variable Marshal : gmap string Value -> string.
Variable ParseBool : string -> option bool.
Variable ColorschemeExists : string -> bool.

Abbreviation SetOption' := (SetOption (FS := FS) ParseBool ColorschemeExists).
Abbreviation SetLocalOption' := (SetLocalOption (FS := FS) ParseBool ColorschemeExists).
Abbreviation WriteSettings' :=
  (WriteSettings dirExists fileExists ReadFile WriteFile Unmarshal Marshal).
Abbreviation SetOptionAndSettings' :=
  (SetOptionAndSettings dirExists fileExists ReadFile WriteFile Unmarshal Marshal
                        ParseBool ColorschemeExists).
Abbreviation InitGlobalSettings' :=
  (InitGlobalSettings dirExists fileExists fileNotExist ReadFile WriteFile
                      Unmarshal Marshal).

(** *** SetOption *)

(** An error of [SetLocalOption] comes with the store as it was. *)
Lemma SetLocalOption_error_noop (opt value : string) (t i : nat) (c c' : @Config FS)
      (e : string) :
  SetLocalOption' opt value t i c = Some (c', Some e) -> c' = c.
Proof.
  unfold SetLocalOption. intros H.
  destruct (viewBuf t i c) as [buf|]; [|discriminate]. cbn in H.
  destruct (bufSettings c !! buf) as [settings|]; [|discriminate]. cbn in H.
  destruct (settings !! opt) as [old|]; [|by injection H as <- _].
  destruct (kindOf old) as [kind|]; [|discriminate]. cbn in H.
  destruct (nativeOf ParseBool kind value) as [nativeValue|e']; [|by injection H as <- _].
  destruct (optionIsValid ColorschemeExists opt nativeValue); [by injection H as <- _|].
  repeat match type of H with
         | context [mbind _ ?m] => destruct m; cbn in H
         | context [if ?b then _ else _] => destruct b; cbn in H
         end; discriminate.
Qed.

(** An error of [SetOption] comes with the store as it was. *)
Lemma SetOption_error_noop (opt value : string) (c c' : @Config FS) (e : string) :
  SetOption' opt value c = Some (c', Some e) -> c' = c.
Proof.
  unfold SetOption. intros H.
  destruct (globalSettings c !! opt) as [old|].
  - destruct (kindOf old) as [kind|]; [|discriminate]. cbn in H.
    destruct (nativeOf ParseBool kind value) as [nativeValue|e']; [|by injection H as <- _].
    destruct (optionIsValid ColorschemeExists opt nativeValue); [by injection H as <- _|].
    repeat match type of H with
           | context [mbind _ ?m] => destruct m; cbn in H
           | context [if ?b then _ else _] => destruct b; cbn in H
           end; discriminate.
  - destruct (curBuf c) as [buf|]; [|discriminate]. cbn in H.
    destruct (bufSettings c !! buf) as [settings|]; [|discriminate]. cbn in H.
    destruct (settings !! opt); [|by injection H as <- _].
    destruct (tabs c !! curTab c); [|discriminate]. cbn in H.
    destruct (SetLocalOption' _ _ _ _ _) as [[c1 e1]|]; discriminate.
Qed.

(** An option that neither the global settings nor the buffer of the
    current view know is refused. *)
Lemma SetOption_unknown (opt value : string) (c : @Config FS) (buf : nat)
      (settings : gmap string Value) :
  globalSettings c !! opt = None ->
  curBuf c = Some buf -> bufSettings c !! buf = Some settings -> settings !! opt = None ->
  SetOption' opt value c = Some (c, Some "Invalid option"%string).
Proof.
  intros Hg Hb Hs Ho. unfold SetOption. rewrite Hg, Hb. cbn. rewrite Hs. cbn.
  rewrite Ho. reflexivity.
Qed.

(** A global option whose text does not parse, or whose value the
    validator refuses, is refused. *)
Lemma SetOption_global_rejects (opt value : string) (c : @Config FS) (old : Value)
      (kind : ValueKind) (e : string) :
  globalSettings c !! opt = Some old ->
  kindOf old = Some kind ->
  (nativeOf ParseBool kind value = inr e
   \/ exists nativeValue,
        nativeOf ParseBool kind value = inl nativeValue
        /\ optionIsValid ColorschemeExists opt nativeValue = Some e) ->
  SetOption' opt value c = Some (c, Some e).
Proof.
  intros Hg Hk Hbad. unfold SetOption. rewrite Hg, Hk. cbn.
  destruct Hbad as [-> | (nv & -> & ->)]; reflexivity.
Qed.

(** After an error of [SetOption], [SetOptionAndSettings] tells the
    messenger and leaves settings and file alone. *)
Lemma SetOptionAndSettings_reports (opt value : string) (c c' : @Config FS) (e : string) :
  SetOption' opt value c = Some (c', Some e) ->
  SetOptionAndSettings' opt value c = Some (effect (EMessengerError e) c).
Proof.
  intros H. pose proof (SetOption_error_noop _ _ _ _ _ H) as ->.
  unfold SetOptionAndSettings. rewrite H. reflexivity.
Qed.

(** *** The invalidSettings flag *)

(** While the flag is set, [WriteSettings] returns at once. *)
Lemma WriteSettings_suppressed (c : @Config FS) :
  invalidSettings c = true -> WriteSettings' c = Some (c, None).
Proof. intros H. unfold WriteSettings. rewrite H. reflexivity. Qed.

(** A read of [settings.json] that fails, with bytes that do not start
    with [null], sets the flag. *)
Lemma InitGlobalSettings_read_error (c : @Config FS) (input e : string) :
  fileExists (fs c) = true ->
  ReadFile (fs c) = (input, Some e) ->
  String.prefix "null" input = false ->
  exists c',
    InitGlobalSettings' c = Some c' /\ invalidSettings c' = true /\ fs c' = fs c.
Proof.
  intros Hf Hr Hp. unfold InitGlobalSettings. cbn [fs setInvalid].
  rewrite Hf, Hr, Hp. cbn [negb]. eexists. split; [reflexivity|]. auto.
Qed.

(** A [settings.json] that does not parse sets the flag, and the file
    stays as it is. *)
Lemma InitGlobalSettings_parse_error (c : @Config FS) (input e : string)
      (parsed : gmap string Value) :
  fileExists (fs c) = true ->
  ReadFile (fs c) = (input, None) ->
  String.prefix "null" input = false ->
  Unmarshal input ∅ = (parsed, Some e) ->
  ~ map_Exists (fun _ v => v = VNull) parsed ->
  exists c',
    InitGlobalSettings' c = Some c' /\ invalidSettings c' = true /\ fs c' = fs c.
Proof.
  intros Hf Hr Hp Hu Hn. unfold InitGlobalSettings. cbn [fs setInvalid].
  rewrite Hf, Hr, Hp, Hu. cbn [negb]. unfold mergeParsed.
  rewrite bool_decide_eq_false_2 by exact Hn. cbn.
  rewrite orb_false_r. destruct (fileNotExist (fs c)).
  - unfold writeAfterInit, WriteSettings. cbn.
    eexists. split; [reflexivity|]. auto.
  - eexists. split; [reflexivity|]. auto.
Qed.

End Store.

(** C7, at the input where it fails.  [wrapcol] is a number that only
    the buffer knows.  [SetLocalOption] refuses the text [wide] with
    "Invalid value", and so does [SetOption] for the global number
    [tabsize]; but [SetOption] drops the error of [SetLocalOption] for
    [wrapcol] and returns nil, so [SetOptionAndSettings] tells the
    messenger nothing and writes the settings file. *)
Theorem local_only_option_error_is_dropped :
  setLocalOption "wrapcol" "wide" 0 0 (session false goodDisk)
    = Some (session false goodDisk, Some "Invalid value"%string)
  /\ setOption "tabsize" "wide" (session false goodDisk)
       = Some (session false goodDisk, Some "Invalid value"%string)
  /\ setOption "wrapcol" "wide" (session false goodDisk)
       = Some (session false goodDisk, None)
  /\ exists c',
       setOptionAndSettings "wrapcol" "wide" (session false goodDisk) = Some c'
       /\ effects c' = []
       /\ settingsJson (fs c') = Some (encode DefaultGlobalSettings)
       /\ settingsJson (fs c') <> settingsJson goodDisk.
Proof.
  split; [vm_compute; reflexivity|]. split; [vm_compute; reflexivity|].
  split; [vm_compute; reflexivity|].
  eexists. split; [vm_compute; reflexivity|].
  split; [reflexivity|]. split; [vm_compute; reflexivity|].
  vm_compute. discriminate.
Qed.

(** C8, at the inputs where it fails.  First, the file was fine when
    the settings were read and has been broken by hand since: the
    [WriteSettings] that finds it malformed sets the flag, and then
    writes over the file all the same.  Second, the file begins with
    [null] and the read fails after four bytes: [InitGlobalSettings]
    leaves the flag down and has the file written over. *)
Theorem corrupt_settings_file_is_overwritten :
  (exists c',
     writeSettings (session false brokenDisk) = Some (c', None)
     /\ invalidSettings c' = true
     /\ settingsJson (fs c') = Some (encode DefaultGlobalSettings)
     /\ settingsJson (fs c') <> settingsJson brokenDisk)
  /\ (readDisk faultyDisk = ("null"%string, Some "input/output error"%string)
      /\ exists c',
           initGlobalSettings (session false faultyDisk) = Some c'
           /\ invalidSettings c' = false
           /\ settingsJson (fs c') = Some (encode DefaultGlobalSettings)
           /\ settingsJson (fs c') <> settingsJson faultyDisk).
Proof.
  split.
  - eexists. split; [vm_compute; reflexivity|]. split; [reflexivity|].
    split; [vm_compute; reflexivity | vm_compute; discriminate].
  - split; [reflexivity|].
    eexists. split; [vm_compute; reflexivity|]. split; [reflexivity|].
    split; [vm_compute; reflexivity | vm_compute; discriminate].
Qed.

End ConfigSpec.

(** ** More on the viewport *)

Module ViewportExtras.

Import GoInt GoIntFacts Viewport ViewportMore ViewportScenarios ViewportSpec.

Lemma relocate_idempotent_without_softwrap_witness :
  exists v1 r1 r2,
    Relocate plainX (view100 0 99) = Some (v1, r1)
    /\ Relocate plainX v1 = Some (v1, r2).
Proof.
  apply (relocate_idempotent_without_softwrap plainX (view100 0 99) 3);
    try reflexivity; unfold small; simpl; lia.
Defined.

Section Visible.

Variable GetVisualX : Cursor -> Buffer -> Z.

(** X2.  Without soft wrap, in a pane taller than the scroll margin
    and wider than the gutter, [Relocate] leaves the cursor inside the
    window: its line is between [Topline] and [Topline + Height - 1],
    its visual column between [leftCol] and the right edge, and
    [Topline] is not negative. *)
Theorem relocate_shows_cursor (v : View) (m : Z) :
  Settings (Buf v) !! "softwrap" = Some (VBool false) ->
  Settings (Buf v) !! "scrollmargin" = Some (VFloat m) ->
  0 <= m < Height v ->
  lineNumOffset v < Width v ->
  0 <= Topline v ->
  0 <= Y (Cursor_ v) < NumLines (Buf v) ->
  small (Topline v) -> small (leftCol v) -> small (Width v) -> small (Height v) ->
  small (lineNumOffset v) -> small (NumLines (Buf v)) ->
  small (GetVisualX (Cursor_ v) (Buf v)) ->
  exists v' ret,
    Relocate GetVisualX v = Some (v', ret)
    /\ 0 <= Topline v' <= Y (Cursor_ v)
    /\ Y (Cursor_ v) <= Topline v' + Height v - 1
    /\ leftCol v' <= GetVisualX (Cursor_ v) (Buf v)
    /\ GetVisualX (Cursor_ v) (Buf v) + lineNumOffset v + 1 <= leftCol v' + Width v.
Proof.
  intros Hs Hm Hmh Hw Ht Hy St Sl Sw Sh So Sn Sx.
  rewrite (Relocate_without_softwrap GetVisualX v m Hs Hm (small_inRange _ Sh)).
  eexists _, _. split; [reflexivity|].
  cbn [Topline leftCol setLeftCol setTopline].
  assert (Sy : small (Y (Cursor_ v))) by (unfold small in *; lia).
  assert (Sm : small m) by (unfold small in *; lia).
  generalize dependent (GetVisualX (Cursor_ v) (Buf v)). intros cx Sx.
  generalize dependent (Y (Cursor_ v)). intros cy Hy Sy.
  generalize dependent (NumLines (Buf v)). intros n Sn Hy.
  generalize dependent (Topline v). intros top Ht St.
  generalize dependent (leftCol v). intros lc Sl.
  unfold relocateLeft, relocateBottom, relocateTop.
  generalize dependent (Height v). intros h Hmh Sh.
  generalize dependent (Width v). generalize dependent (lineNumOffset v).
  intros off So w Hw Sw.
  repeat split; crunch.
Qed.

End Visible.

Lemma relocate_shows_cursor_witness :
  exists v' ret,
    Relocate plainX (view100 0 99) = Some (v', ret)
    /\ 0 <= Topline v' <= 99 /\ 99 <= Topline v' + 20 - 1.
Proof.
  destruct (relocate_shows_cursor plainX (view100 0 99) 3)
    as (v' & ret & H & H1 & H2 & _);
    try reflexivity; try (unfold small; simpl; lia); try (simpl; lia).
  exists v', ret. auto.
Defined.

(** *** Bottomline *)

Lemma bottomLoop_bounds (v : View) (t : Z) (todo : nat) :
  Settings (Buf v) !! "tabsize" = Some (VFloat t) ->
  forall lineN sy n : Z,
    0 <= n -> n + Z.of_nat todo <= 2 ^ 60 ->
    exists r,
      bottomLoop v todo lineN sy n = Some r
      /\ n <= r <= n + Z.of_nat todo
      /\ ((0 < todo)%nat -> n + 1 <= r).
Proof.
  intros Ht. induction todo as [|todo IH]; intros lineN sy n Hn Hb.
  - exists n. cbn. repeat split; lia.
  - cbn [bottomLoop].
    destruct (wrapLine_total v t (Line (Buf v) lineN) sy Ht) as [y0 Hy].
    rewrite Hy. cbn [mbind option_bind].
    rewrite (add_exact n 1) by (unfold inRange, minInt, maxInt; lia).
    destruct (Height v <=? add y0 1).
    + exists (n + 1). repeat split; lia.
    + destruct (IH (add lineN 1) (add y0 1) (n + 1)) as (r & Hr & Hb1 & _); [lia..|].
      exists r. repeat split; auto; lia.
Qed.

(** X3.  The line [Bottomline] returns is never above [Topline] and
    never more than [Height] lines below it, with or without soft
    wrap; under soft wrap a pane of at least one row shows at least
    one line. *)
Theorem Bottomline_within_pane (v : View) (softwrap : bool) (t : Z) :
  Settings (Buf v) !! "softwrap" = Some (VBool softwrap) ->
  Settings (Buf v) !! "tabsize" = Some (VFloat t) ->
  0 <= Height v -> small (Height v) -> small (Topline v) ->
  exists bottom,
    Bottomline v = Some bottom
    /\ Topline v <= bottom <= Topline v + Height v
    /\ (1 <= Height v -> Topline v + 1 <= bottom).
Proof.
  intros Hs Ht Hh Sh St. unfold Bottomline. rewrite Hs. cbn [asBool mbind option_bind].
  rewrite (add_exact (Topline v) (Height v)) by in_range.
  destruct softwrap; cbn [negb].
  - replace (Topline v + Height v - Topline v) with (Height v) by lia.
    destruct (bottomLoop_bounds v t (Z.to_nat (Height v)) Ht (Topline v) 0 0)
      as (r & Hr & Hb & Hpos); [lia | unfold small in *; lia |].
    rewrite Hr. cbn [mbind option_bind].
    rewrite (add_exact r (Topline v)) by in_range.
    eexists. split; [reflexivity|]. split; [lia|].
    intros H1. assert (0 < Z.to_nat (Height v))%nat by lia. specialize (Hpos H). lia.
  - eexists. split; [reflexivity|]. lia.
Qed.

Lemma Bottomline_within_pane_witness :
  exists bottom,
    Bottomline (wrapView 7 0) = Some bottom /\ 7 <= bottom <= 7 + 3 /\ 7 + 1 <= bottom.
Proof.
  destruct (Bottomline_within_pane (wrapView 7 0) true 4) as (b & H & H1 & H2);
    try reflexivity; try (unfold small; simpl; lia); try (simpl; lia).
  exists b. split; [exact H|]. split; [exact H1|]. apply H2. simpl. lia.
Defined.

(** *** Scrolling there and back *)

(** X4.  A scroll that moved by the full [n] is undone by the scroll
    the other way: [ScrollUp n] after a [ScrollDown n] that stayed
    within [NumLines], and [ScrollDown n] after a [ScrollUp n] that
    stayed at or above line 0. *)
Theorem scroll_there_and_back (v : View) (n : Z) :
  0 <= n -> 0 <= Topline v -> Topline v <= NumLines (Buf v) ->
  inRange (NumLines (Buf v)) ->
  (Topline v + n <= NumLines (Buf v) -> ScrollUp n (ScrollDown n v) = v)
  /\ (0 <= Topline v - n -> ScrollDown n (ScrollUp n v) = v).
Proof.
  intros Hn Ht Hl Hr. split; intros H.
  - unfold ScrollDown.
    rewrite (add_exact (Topline v) n) by in_range.
    destruct (Z.leb_spec (Topline v + n) (NumLines (Buf v))); [|lia].
    unfold ScrollUp. cbn [Topline setTopline].
    rewrite (sub_exact (Topline v + n) n) by in_range.
    replace (Topline v + n - n) with (Topline v) by lia.
    destruct (Z.leb_spec 0 (Topline v)); [|lia].
    destruct v; reflexivity.
  - unfold ScrollUp.
    rewrite (sub_exact (Topline v) n) by in_range.
    destruct (Z.leb_spec 0 (Topline v - n)); [|lia].
    unfold ScrollDown. cbn [Topline setTopline Buf].
    rewrite (add_exact (Topline v - n) n) by in_range.
    replace (Topline v - n + n) with (Topline v) by lia.
    destruct (Z.leb_spec (Topline v) (NumLines (Buf v))); [|lia].
    destruct v; reflexivity.
Qed.

Lemma scroll_there_and_back_witness :
  ScrollUp 7 (ScrollDown 7 (view100 5 0)) = view100 5 0
  /\ ScrollDown 3 (ScrollUp 3 (view100 5 0)) = view100 5 0.
Proof.
  destruct (scroll_there_and_back (view100 5 0) 7) as [H1 _];
    try (unfold inRange, minInt, maxInt; simpl; lia).
  destruct (scroll_there_and_back (view100 5 0) 3) as [_ H2];
    try (unfold inRange, minInt, maxInt; simpl; lia).
  split; [apply H1 | apply H2]; simpl; lia.
Defined.

(** *** The gutter tables *)

(** X5.  A second [GutterMessage] with the same arguments changes
    nothing: the first one either found the line taken or has just
    taken it. *)
Theorem gutter_message_idempotent (section_ : string) (lineN : Z) (msg_ : string)
        (kind_ : Z) (v : View) :
  GutterMessage_ section_ lineN msg_ kind_ (GutterMessage_ section_ lineN msg_ kind_ v)
  = GutterMessage_ section_ lineN msg_ kind_ v.
Proof.
  unfold GutterMessage_.
  destruct (lineTakenb (sub lineN 1) (messages v)) eqn:Hb.
  - rewrite Hb. reflexivity.
  - cbn [messages setMessages].
    match goal with |- context [lineTakenb ?n ?m] =>
      assert (Ht : lineTakenb n m = true) end.
    { apply lineTakenb_spec. eexists section_, _, _.
      split; [apply lookup_insert_eq|].
      split; [apply elem_of_app; right; apply list_elem_of_here | reflexivity]. }
    rewrite Ht. reflexivity.
Qed.

Lemma oneMessagePerLine_empty : oneMessagePerLine ∅.
Proof. intros s1 s2 l1 l2 i j g1 g2 H. by rewrite lookup_empty in H. Qed.

(** X6.  The gutter never holds two messages on one line: the table
    of a new view is empty, and [GutterMessage], [ClearGutterMessages]
    and [ClearAllGutterMessages] keep the property. *)
Theorem one_message_per_line (v : View) :
  oneMessagePerLine (messages v) ->
  (forall section_ lineN msg_ kind_,
      oneMessagePerLine (messages (GutterMessage_ section_ lineN msg_ kind_ v)))
  /\ (forall section_, oneMessagePerLine (messages (ClearGutterMessages section_ v)))
  /\ oneMessagePerLine (messages (ClearAllGutterMessages v)).
Proof.
  intros Hinv. split; [|split].
  - intros section_ lineN msg_ kind_. unfold GutterMessage_.
    destruct (lineTakenb (sub lineN 1) (messages v)) eqn:Hb; [exact Hinv|].
    assert (Hfree : ~ lineTaken (sub lineN 1) (messages v)).
    { intros H. apply lineTakenb_spec in H. congruence. }
    cbn [messages setMessages].
    set (old := default [] (messages v !! section_)).
    set (g := mkGutterMessage (sub lineN 1) msg_ kind_).
    assert (Hold : forall i g', old !! i = Some g' ->
                     exists l, messages v !! section_ = Some l /\ l !! i = Some g').
    { unfold old. intros i g' H. destruct (messages v !! section_) as [l|]; cbn in H.
      - eauto.
      - by rewrite lookup_nil in H. }
    assert (Hnew : forall s l i g', messages v !! s = Some l -> l !! i = Some g' ->
                     lineNum g' <> sub lineN 1).
    { intros s l i g' Hs Hi Heq. apply Hfree. exists s, l, g'.
      split; [exact Hs|]. split; [|exact Heq]. apply list_elem_of_lookup. eauto. }
    assert (Hin : forall s l i g',
               <[section_ := old ++ [g]]> (messages v) !! s = Some l -> l !! i = Some g' ->
               (s = section_ /\ i = length old /\ g' = g)
               \/ (exists l0, messages v !! s = Some l0 /\ l0 !! i = Some g')).
    { intros s l i g' Hs Hi. destruct (decide (section_ = s)) as [<-|Hne].
      - rewrite lookup_insert_eq in Hs. injection Hs as <-.
        apply lookup_app_Some in Hi as [Hi | [Hlen Hi]].
        + right. exact (Hold i g' Hi).
        + left. apply list_lookup_singleton_Some in Hi as [Hz <-]. split; [done|].
          split; [lia | done].
      - rewrite lookup_insert_ne in Hs by done. right. eauto. }
    intros s1 s2 l1 l2 i j g1 g2 H1 H2 Hi Hj Heq.
    destruct (Hin _ _ _ _ H1 Hi) as [(-> & -> & ->) | (l1' & H1' & Hi')];
      destruct (Hin _ _ _ _ H2 Hj) as [(-> & -> & ->) | (l2' & H2' & Hj')].
    + done.
    + exfalso. exact (Hnew _ _ _ _ H2' Hj' (eq_sym Heq)).
    + exfalso. exact (Hnew _ _ _ _ H1' Hi' Heq).
    + exact (Hinv _ _ _ _ _ _ _ _ H1' H2' Hi' Hj' Heq).
  - intros section_ s1 s2 l1 l2 i j g1 g2 H1 H2 Hi Hj Heq.
    unfold ClearGutterMessages in *. cbn [messages setMessages] in *.
    destruct (decide (section_ = s1)) as [<-|N1].
    { rewrite lookup_insert_eq in H1. injection H1 as <-. by rewrite lookup_nil in Hi. }
    destruct (decide (section_ = s2)) as [<-|N2].
    { rewrite lookup_insert_eq in H2. injection H2 as <-. by rewrite lookup_nil in Hj. }
    rewrite lookup_insert_ne in H1, H2 by done.
    exact (Hinv _ _ _ _ _ _ _ _ H1 H2 Hi Hj Heq).
  - intros s1 s2 l1 l2 i j g1 g2 H1 H2 Hi Hj Heq.
    unfold ClearAllGutterMessages in *. cbn [messages setMessages] in *.
    rewrite lookup_fmap in H1. destruct (messages v !! s1); [|discriminate].
    injection H1 as <-. by rewrite lookup_nil in Hi.
Qed.

Lemma one_message_per_line_witness :
  oneMessagePerLine (messages (GutterMessage_ "spell" 7 "typo" 1 lintView)).
Proof.
  apply (one_message_per_line lintView).
  intros s1 s2 l1 l2 i j g1 g2 H1 H2 Hi Hj _.
  unfold lintView in H1, H2. cbn [messages] in H1, H2.
  apply lookup_singleton_Some in H1 as [<- <-].
  apply lookup_singleton_Some in H2 as [<- <-].
  split; [reflexivity|].
  destruct i as [|i]; [|by rewrite lookup_cons, lookup_nil in Hi].
  destruct j as [|j]; [reflexivity | by rewrite lookup_cons, lookup_nil in Hj].
Defined.

Lemma hasGutterMessages_spec (v : View) :
  hasGutterMessages v = true <-> exists s l, messages v !! s = Some l /\ l <> [].
Proof.
  unfold hasGutterMessages.
  apply (map_fold_weak_ind
           (fun b (m : gmap string (list GutterMessage)) =>
              b = true <-> exists s l, m !! s = Some l /\ l <> [])).
  - split; [discriminate|]. intros (s & l & H & _). by rewrite lookup_empty in H.
  - intros i l m acc Hi IH. case_bool_decide as Hl.
    + rewrite IH. split.
      * intros (s & l' & Hs & Hne). exists s, l'. split; [|done].
        rewrite lookup_insert_ne; [done|]. intros <-. congruence.
      * intros (s & l' & Hs & Hne). destruct (decide (i = s)) as [<-|N].
        -- rewrite lookup_insert_eq in Hs. congruence.
        -- rewrite lookup_insert_ne in Hs by done. eauto.
    + split; [|done]. intros _. exists i, l. by rewrite lookup_insert_eq.
Qed.

(** X7.  After [ClearAllGutterMessages] no line is taken and the
    gutter is gone, whatever the table held: every section is still
    there and empty, and a [GutterMessage] that follows is stored, as
    the only message of its section. *)
Theorem clear_all_frees_every_line (v : View)
        (section_ : string) (lineN : Z) (msg_ : string) (kind_ : Z) :
  let cleared := ClearAllGutterMessages v in
  hasGutterMessages cleared = false
  /\ (forall n, ~ lineTaken n (messages cleared))
  /\ (forall s, is_Some (messages v !! s) -> messages cleared !! s = Some [])
  /\ messages (GutterMessage_ section_ lineN msg_ kind_ cleared) !! section_
     = Some [mkGutterMessage (sub lineN 1) msg_ kind_].
Proof.
  cbv zeta.
  assert (Hempty : forall s l, messages (ClearAllGutterMessages v) !! s = Some l -> l = []).
  { intros s l H. unfold ClearAllGutterMessages in H. cbn [messages setMessages] in H.
    rewrite lookup_fmap in H. destruct (messages v !! s); [|discriminate].
    by injection H as <-. }
  assert (Hfree : forall n, ~ lineTaken n (messages (ClearAllGutterMessages v))).
  { intros n (s & l & g & Hs & Hg & _). apply Hempty in Hs as ->.
    by apply elem_of_nil in Hg. }
  split; [|split; [exact Hfree|split]].
  - destruct (hasGutterMessages (ClearAllGutterMessages v)) eqn:Hb; [|reflexivity].
    apply hasGutterMessages_spec in Hb as (s & l & Hs & Hne).
    apply Hempty in Hs. contradiction.
  - intros s [l Hl]. unfold ClearAllGutterMessages. cbn [messages setMessages].
    rewrite lookup_fmap, Hl. reflexivity.
  - unfold GutterMessage_.
    destruct (lineTakenb (sub lineN 1) (messages (ClearAllGutterMessages v))) eqn:Hb.
    { apply lineTakenb_spec in Hb. exfalso. exact (Hfree _ Hb). }
    cbn [messages setMessages]. rewrite lookup_insert_eq. f_equal.
    destruct (messages (ClearAllGutterMessages v) !! section_) as [l|] eqn:Hl;
      cbn [default]; [|reflexivity].
    apply Hempty in Hl as ->. reflexivity.
Qed.

(** *** The tab bar row *)

(** X8.  [ToggleTabbar] is idempotent for a fixed number of tabs, and
    the row it takes when a second tab opens is given back when the
    tabs are back to one: the view is as it was. *)
Theorem toggle_tabbar_there_and_back (v : View) (ntabs : nat) :
  ToggleTabbar ntabs (ToggleTabbar ntabs v) = ToggleTabbar ntabs v
  /\ (y v = 0 -> inRange (Height v) -> ToggleTabbar 1 (ToggleTabbar 2 v) = v).
Proof.
  split.
  - unfold ToggleTabbar. destruct (1 <? ntabs)%nat.
    + destruct (Z.eqb_spec (y v) 0) as [H|H]; cbn [y setY setHeight].
      * reflexivity.
      * destruct (Z.eqb_spec (y v) 0); [contradiction | reflexivity].
    + destruct (Z.eqb_spec (y v) 1) as [H|H]; cbn [y setY setHeight].
      * reflexivity.
      * destruct (Z.eqb_spec (y v) 1); [contradiction | reflexivity].
  - intros Hy Hr. unfold ToggleTabbar. cbn [Nat.ltb Nat.leb]. rewrite Hy.
    cbn [Z.eqb y setY setHeight Height].
    assert (E : add (sub (Height v) 1) 1 = Height v).
    { unfold add, sub. rewrite wrap_wrap_add.
      replace (Height v - 1 + 1) with (Height v) by lia. by apply wrap_id. }
    rewrite E. destruct v. cbn in *. subst. reflexivity.
Qed.

Lemma toggle_tabbar_there_and_back_witness :
  ToggleTabbar 1 (ToggleTabbar 2 (view100 0 0)) = view100 0 0.
Proof.
  apply (toggle_tabbar_there_and_back (view100 0 0) 2);
    [reflexivity | unfold inRange, minInt, maxInt; simpl; lia].
Defined.

(** *** Clicks under soft wrap *)

Section SoftWrapClicks.

Variable GetCharPosInLine : View -> Z -> Z -> Z.

Ltac bool_lia :=
  repeat match goal with
         | |- context [?a <=? ?b] => destruct (Z.leb_spec a b)
         | |- context [?a <? ?b] => destruct (Z.ltb_spec a b)
         | |- context [?a =? ?b] => destruct (Z.eqb_spec a b)
         end;
  cbn [andb]; try reflexivity; try lia.

Lemma scanLine_plain (v : View) (vx vy sy : Z) (line : list rune) :
  forall sx : Z,
    Forall (fun ch => ch <> tab) line ->
    0 <= sx ->
    sx + Z.of_nat (length line) <= sub (Width v) (lineNumOffset v) ->
    scanLine v vx vy line sx sy sx
    = Some (if (sy =? vy) && (sx <=? vx) && (vx <? sx + Z.of_nat (length line))
            then Hit vx
            else Miss (sx + Z.of_nat (length line)) sy (sx + Z.of_nat (length line))).
Proof.
  pose proof (wrap_inRange (Width v - lineNumOffset v)) as Hw.
  fold (sub (Width v) (lineNumOffset v)) in Hw.
  induction line as [|ch rest IH]; intros sx Hnt Hsx Hlen.
  - cbn [scanLine length]. rewrite Z.add_0_r.
    replace ((sy =? vy) && (sx <=? vx) && (vx <? sx)) with false; [reflexivity|].
    bool_lia.
  - cbn [scanLine length] in *. rewrite Nat2Z.inj_succ in *.
    destruct (Z.leb_spec (sub (Width v) (lineNumOffset v)) sx); [lia|].
    apply Forall_cons in Hnt as [Hch Hrest].
    destruct (Z.eqb_spec ch tab); [contradiction|].
    cbn [mbind option_bind].
    rewrite (add_exact sx 1) by (unfold inRange, minInt, maxInt in *; lia).
    rewrite IH by (auto; lia).
    replace (sx + 1 + Z.of_nat (length rest)) with (sx + Z.succ (Z.of_nat (length rest)))
      by lia.
    destruct ((sx =? vx) && (sy =? vy)) eqn:Hhit.
    + apply andb_true_iff in Hhit as [H1 H2].
      apply Z.eqb_eq in H1, H2. subst.
      replace ((vy =? vy) && (vx <=? vx) && (vx <? vx + Z.succ (Z.of_nat (length rest))))
        with true; [reflexivity|].
      symmetry. bool_lia.
    + f_equal.
      replace ((sy =? vy) && (sx + 1 <=? vx)
               && (vx <? sx + Z.succ (Z.of_nat (length rest))))
        with ((sy =? vy) && (sx <=? vx)
              && (vx <? sx + Z.succ (Z.of_nat (length rest)))); [reflexivity|].
      apply andb_false_iff in Hhit.
      destruct Hhit as [H1|H1]; [apply Z.eqb_neq in H1 | rewrite Z.eqb_sym in H1];
        bool_lia.
      all: rewrite ?H1; reflexivity.
Qed.

Lemma softWrapLoop_plain (v : View) (vx vy : Z) (k : nat) :
  forall (todo : nat) (lineN : Z),
    0 <= vx -> small vy -> small lineN ->
    vy - lineN = Z.of_nat k ->
    (k < todo)%nat ->
    vy < NumLines (Buf v) ->
    (forall n, lineN <= n <= vy ->
               Forall (fun ch => ch <> tab) (Line (Buf v) n)
               /\ Z.of_nat (length (Line (Buf v) n)) <= sub (Width v) (lineNumOffset v)) ->
    softWrapLoop v vx vy todo lineN lineN
    = Some (Z.min vx (Z.of_nat (length (Line (Buf v) vy))), vy).
Proof.
  induction k as [|k IH]; intros todo lineN Hvx Svy Sl Hk Htodo Hn Hplain;
    (destruct todo as [|todo]; [lia|]); cbn [softWrapLoop];
    (destruct (Z.leb_spec (NumLines (Buf v)) lineN); [lia|]);
    destruct (Hplain lineN ltac:(lia)) as [Hnt Hlen];
    rewrite (scanLine_plain v vx vy lineN (Line (Buf v) lineN) 0 Hnt) by lia;
    cbn [mbind option_bind].
  - assert (lineN = vy) by lia. subst lineN. rewrite Z.eqb_refl, Z.add_0_l.
    destruct (Z.leb_spec 0 vx); [|lia]. cbn [andb].
    destruct (Z.ltb_spec vx (Z.of_nat (length (Line (Buf v) vy)))).
    + rewrite Z.min_l by lia. reflexivity.
    + rewrite Z.eqb_refl, Z.min_r by lia. reflexivity.
  - rewrite Z.add_0_l.
    destruct (Z.eqb_spec lineN vy); [lia|]. cbn [andb].
    destruct (Z.eqb_spec lineN vy); [lia|].
    rewrite (add_exact lineN 1) by (unfold small, inRange, minInt, maxInt in *; lia).
    apply IH; auto; try lia; [unfold small in *; lia|].
    intros n' Hn'. apply Hplain. lia.
Qed.

(** X9.  Under soft wrap, when no line from the top of the window
    down to the clicked row holds a tab or is longer than the usable
    width, [GetSoftWrapLocation] resolves the cell [(vx, vy)] to
    buffer line [vy], at column [vx] or at the end of the line if the
    line is shorter. *)
Theorem click_on_unwrapped_lines (v : View) (vx vy bottom : Z) :
  Settings (Buf v) !! "softwrap" = Some (VBool true) ->
  Bottomline v = Some bottom ->
  Topline v <= vy < bottom ->
  vy < NumLines (Buf v) ->
  0 <= vx -> small vy -> small (Topline v) ->
  (forall n, Topline v <= n <= vy ->
             Forall (fun ch => ch <> tab) (Line (Buf v) n)
             /\ Z.of_nat (length (Line (Buf v) n)) <= sub (Width v) (lineNumOffset v)) ->
  GetSoftWrapLocation GetCharPosInLine v vx vy
  = Some (Z.min vx (Z.of_nat (length (Line (Buf v) vy))), vy).
Proof.
  intros Hs Hb Hvy Hn Hvx Svy St Hplain.
  unfold GetSoftWrapLocation. rewrite Hs, Hb. cbn [asBool mbind option_bind negb].
  apply (softWrapLoop_plain v vx vy (Z.to_nat (vy - Topline v))); auto; lia.
Qed.

Lemma scanLine_column (v : View) (vx vy t : Z) (line : list rune) :
  Settings (Buf v) !! "tabsize" = Some (VFloat t) ->
  forall sx sy c : Z,
    0 <= c -> c + Z.of_nat (length line) <= 2 ^ 62 ->
    exists r,
      scanLine v vx vy line sx sy c = Some r
      /\ match r with
         | Hit c' => c <= c' < c + Z.of_nat (length line)
         | Miss _ _ c' => c' = c + Z.of_nat (length line)
         end.
Proof.
  intros Ht. induction line as [|ch rest IH]; intros sx sy c Hc Hlen.
  - eexists. split; [reflexivity|]. cbn. lia.
  - cbn [scanLine length] in *. rewrite Nat2Z.inj_succ in *.
    destruct (if sub (Width v) (lineNumOffset v) <=? sx
              then (0, add sy 1) else (sx, sy)) as [sx1 sy1].
    destruct ((sx1 =? vx) && (sy1 =? vy)).
    + eexists. split; [reflexivity|]. cbn. lia.
    + rewrite (add_exact c 1) by (unfold inRange, minInt, maxInt; lia).
      assert (Hstep : exists sx2,
                 (if ch =? tab
                  then tabsize ← asInt (Settings (Buf v) !! "tabsize");
                       Some (add sx1 (sub tabsize 1))
                  else Some sx1) = Some sx2).
      { destruct (ch =? tab); rewrite ?Ht; cbn; eauto. }
      destruct Hstep as [sx2 ->]. cbn [mbind option_bind].
      destruct (IH (add sx2 1) sy1 (c + 1)) as (r & Hr & Hb); [lia | lia |].
      exists r. split; [exact Hr|]. destruct r; lia.
Qed.

Lemma softWrapLoop_column (v : View) (vx vy t : Z) (todo : nat) :
  Settings (Buf v) !! "tabsize" = Some (VFloat t) ->
  (forall n, Z.of_nat (length (Line (Buf v) n)) <= 2 ^ 62) ->
  forall lineN sy : Z,
    exists col line,
      softWrapLoop v vx vy todo lineN sy = Some (col, line)
      /\ 0 <= col <= Z.of_nat (length (Line (Buf v) line)).
Proof.
  intros Ht Hlen. induction todo as [|todo IH]; intros lineN sy; cbn [softWrapLoop].
  - exists 0, 0. split; [reflexivity | lia].
  - destruct (NumLines (Buf v) <=? lineN).
    { eexists _, _. split; [reflexivity | lia]. }
    destruct (scanLine_column v vx vy t (Line (Buf v) lineN) Ht 0 sy 0)
      as (r & Hr & Hb); [lia | specialize (Hlen lineN); lia |].
    rewrite Hr. cbn [mbind option_bind]. destruct r as [c | sx' sy' c].
    + eexists _, _. split; [reflexivity | lia].
    + destruct (sy' =? vy); [eexists _, _; split; [reflexivity | lia] | apply IH].
Qed.

Variable Count : list rune -> Z.

(** X10.  Under soft wrap, [GetMouseClickLocation] always returns,
    whatever the click, with a column inside the line it names,
    between 0 and the length of that line, so that its last clamp
    never has to act; and the view comes back as it was, or scrolled
    down by [ScrollDown 1]. *)
Theorem softwrap_click_lands_in_line (v : View) (t cx cy : Z) :
  Settings (Buf v) !! "softwrap" = Some (VBool true) ->
  Settings (Buf v) !! "tabsize" = Some (VFloat t) ->
  (forall l, Count l = Z.of_nat (length l)) ->
  (forall n, Z.of_nat (length (Line (Buf v) n)) <= 2 ^ 62) ->
  exists v' col line,
    GetMouseClickLocation GetCharPosInLine Count v cx cy = Some (v', (col, line))
    /\ 0 <= col <= Z.of_nat (length (Line (Buf v) line))
    /\ (v' = v \/ v' = ScrollDown 1 v)
    /\ exists x' y',
         GetSoftWrapLocation GetCharPosInLine v' x' y' = Some (col, line).
Proof.
  intros Hs Ht HCount Hlen. unfold GetMouseClickLocation.
  set (x0 := sub cx _). set (y0 := add cy _).
  assert (Hclamp : exists v' x' y',
             clampClick v x0 y0 = (v', x', y') /\ (v' = v \/ v' = ScrollDown 1 v)).
  { unfold clampClick.
    destruct (sub (Height v) 1 <? sub y0 (Topline v)); eexists _, _, _; eauto. }
  destruct Hclamp as (v' & x' & y' & -> & Hv').
  assert (Hbuf : Buf v' = Buf v).
  { destruct Hv' as [->| ->]; [reflexivity|].
    unfold ScrollDown. repeat match goal with |- context [if ?b then _ else _] =>
                                destruct b end; reflexivity. }
  assert (Hsoft : exists col line,
             GetSoftWrapLocation GetCharPosInLine v' x' y' = Some (col, line)
             /\ 0 <= col <= Z.of_nat (length (Line (Buf v) line))).
  { unfold GetSoftWrapLocation. rewrite Hbuf, Hs. cbn [asBool mbind option_bind negb].
    destruct (Bottomline_total v' true t) as [bottom Hb]; rewrite ?Hbuf; auto.
    rewrite Hb. cbn [mbind option_bind].
    destruct (softWrapLoop_column v' x' y' t (Z.to_nat (bottom - Topline v')))
      with (lineN := Topline v') (sy := Topline v') as (col & line & H & Hc);
      rewrite ?Hbuf; auto.
    rewrite Hbuf in Hc. eauto. }
  destruct Hsoft as (col & line & Hloc & Hcol).
  rewrite Hloc. cbn [mbind option_bind]. rewrite Hbuf, HCount.
  destruct (Z.ltb_spec (Z.of_nat (length (Line (Buf v) line))) col); [lia|].
  exists v', col, line. repeat split; auto; try lia. eauto.
Qed.

End SoftWrapClicks.

Lemma click_on_unwrapped_lines_witness :
  GetSoftWrapLocation (fun _ _ vx => vx) (wrapView 0 0) 4 2 = Some (1, 2).
Proof.
  apply (click_on_unwrapped_lines (fun _ _ vx => vx) (wrapView 0 0) 4 2 3);
    try reflexivity; try (unfold small; simpl; lia); try (simpl; lia).
  intros n Hn. cbn [Topline wrapView] in Hn.
  assert (Hcases : n = 0 \/ n = 1 \/ n = 2) by lia.
  destruct Hcases as [-> | [-> | ->]];
    (split; [repeat constructor; discriminate | vm_compute; discriminate]).
Defined.

Lemma softwrap_click_lands_in_line_witness :
  exists v' col line,
    GetMouseClickLocation (fun _ _ vx => vx) (fun l => Z.of_nat (length l))
                          (wrapView 7 0) 30 1 = Some (v', (col, line))
    /\ 0 <= col <= Z.of_nat (length (Line (Buf (wrapView 7 0)) line)).
Proof.
  destruct (softwrap_click_lands_in_line (fun _ _ vx => vx) (fun l => Z.of_nat (length l))
              (wrapView 7 0) 4 30 1) as (v' & col & line & H & Hc & _);
    try reflexivity.
  - intros n. unfold wrapView, longTail. cbn [Buf Line].
    destruct (7 <=? n); vm_compute; discriminate.
  - exists v', col, line. auto.
Defined.

End ViewportExtras.

(** ** Dispatch: what the log of [HandleEvent] holds *)

Module DispatchExtras.

Import Viewport Dispatch DispatchScenarios DispatchMore DispatchSpec.

Section Log.

Context {W Ptr : Type}.
Variable callAction : Action -> nat -> @Editor W Ptr -> @Editor W Ptr * bool.
Variable perform : Call -> nat -> @Editor W Ptr -> @Editor W Ptr.
Variable ask : Query -> nat -> @Editor W Ptr -> bool.
Variable lenCursors : nat -> @Editor W Ptr -> nat.
Variable rangeCursor : nat -> @Editor W Ptr -> nat -> @Editor W Ptr -> option Ptr.
Variable primaryCursor : nat -> @Editor W Ptr -> Ptr.
Variable storeCurCursor : nat -> Ptr -> W -> W.
Variable smartClip : nat -> string -> @Editor W Ptr -> string.

Variable P : @LogItem Ptr -> bool.

Lemma only_ret {A : Type} (a : A) : only P (@ret W Ptr A a).
Proof.
  intros s a' s' H. injection H as <- <-. exists []. by rewrite app_nil_r.
Qed.

Lemma only_panic {A : Type} : only P (@panic W Ptr A).
Proof. intros s a s' H. discriminate. Qed.

Lemma only_get : only P (@get W Ptr).
Proof.
  intros s a s' H. injection H as <- <-. exists []. by rewrite app_nil_r.
Qed.

Lemma only_modify (f : @Editor W Ptr -> @Editor W Ptr) : only P (modify f).
Proof.
  intros s a s' H. injection H as <- <-. exists []. by rewrite app_nil_r.
Qed.

Lemma only_emit (l : @LogItem Ptr) : P l = true -> only P (@emit W Ptr l).
Proof.
  intros Hl s a s' H. injection H as <- <-. exists [l]. cbn. by rewrite Hl.
Qed.

Lemma only_bind {A B : Type} (m : @M W Ptr A) (k : A -> @M W Ptr B) :
  only P m -> (forall a, only P (k a)) -> only P (bind m k).
Proof.
  intros Hm Hk s b s' H.
  apply bind_inv in H as (a & s1 & E & H).
  destruct (Hm _ _ _ E) as (t1 & E1 & F1).
  destruct (Hk a _ _ _ H) as (t2 & E2 & F2).
  exists (t1 ++ t2). rewrite E2, E1, app_assoc. split; [reflexivity|].
  rewrite forallb_app, F1, F2. reflexivity.
Qed.

Lemma only_call (c : Call) (v : nat) :
  P (LCall c v) = true -> only P (call perform c v).
Proof.
  intros Hc. unfold call. apply only_bind; [apply only_modify|intros _].
  by apply only_emit.
Qed.

Lemma only_theView (v : nat) : only P (@theView W Ptr v).
Proof.
  unfold theView. apply only_bind; [exact only_get|intros e].
  destruct (views e !! v); [apply only_ret | apply only_panic].
Qed.

Lemma only_query (q : Query) (v : nat) : only P (query ask q v).
Proof. unfold query. apply only_bind; [exact only_get | intros; apply only_ret]. Qed.

(** *** The steps outside the bindings *)

Section Plain.

Hypothesis Hcur : letsCursor P.
Hypothesis Hcalls : letsCalls P.

Lemma only_plain_call (c : Call) (v : nat) :
  c <> CRelocate -> c <> CMergeCursors -> only P (call perform c v).
Proof. intros H1 H2. apply only_call. by apply Hcalls. Qed.

Lemma only_SetCursor (v : nat) (c : option Ptr) : only P (SetCursor storeCurCursor v c).
Proof.
  unfold SetCursor. destruct c as [p|]; [|apply only_ret].
  apply only_bind; [apply only_theView|intros _].
  apply only_bind; [apply only_modify|intros _].
  apply only_bind; [apply only_modify|intros _].
  apply only_bind; [apply only_emit, Hcur | intros _; apply only_ret].
Qed.

Lemma only_resetToPrimary (v : nat) :
  only P (resetToPrimary primaryCursor storeCurCursor v).
Proof.
  unfold resetToPrimary. apply only_bind; [exact only_get|intros e].
  apply only_bind; [apply only_SetCursor | intros; apply only_ret].
Qed.

Lemma only_dropSelection (v : nat) : only P (dropSelection perform ask v).
Proof.
  unfold dropSelection. apply only_bind; [apply only_query|intros sel].
  destruct sel; [|apply only_ret].
  apply only_bind; [|intros _]; by apply only_plain_call.
Qed.

Lemma only_insertRuneAt (v : nat) (ch : rune) (c : option Ptr) :
  only P (insertRuneAt perform ask storeCurCursor v ch c).
Proof.
  unfold insertRuneAt.
  apply only_bind; [apply only_SetCursor|intros _].
  apply only_bind; [apply only_dropSelection|intros _].
  apply only_bind; [apply only_theView|intros vs].
  apply only_bind; [destruct (isOverwriteMode vs); by apply only_plain_call|intros _].
  apply only_bind; [by apply only_plain_call|intros _].
  apply only_bind; [by apply only_plain_call|intros _].
  apply only_bind; [exact only_get|intros e].
  destruct (recordingMacro e); [apply only_modify | apply only_ret].
Qed.

Lemma only_insertRuneLoop (v : nat) (e0 : @Editor W Ptr) (ch : rune) (idx : list nat) :
  only P (insertRuneLoop perform ask rangeCursor storeCurCursor v e0 ch idx).
Proof.
  induction idx as [|i idx IH]; cbn [insertRuneLoop]; [apply only_ret|].
  apply only_bind; [exact only_get|intros e].
  apply only_bind; [apply only_insertRuneAt | intros _; exact IH].
Qed.

Lemma only_paste (v : nat) (clip : string) : only P (paste perform ask smartClip v clip).
Proof.
  unfold paste. apply only_bind; [exact only_get|intros e].
  apply only_bind; [apply only_dropSelection|intros _].
  apply only_bind; [by apply only_plain_call|intros _].
  apply only_bind; [apply only_modify|intros _].
  by apply only_plain_call.
Qed.

Lemma only_pasteLoop (v : nat) (e0 : @Editor W Ptr) (clip : string) (idx : list nat) :
  only P (pasteLoop perform ask rangeCursor storeCurCursor smartClip v e0 clip idx).
Proof.
  induction idx as [|i idx IH]; cbn [pasteLoop]; [apply only_ret|].
  apply only_bind; [exact only_get|intros e].
  apply only_bind; [apply only_SetCursor|intros _].
  apply only_bind; [apply only_paste | intros _; exact IH].
Qed.

Lemma only_mouseActions (v : nat) (ev : Event) (actions : list Action) :
  only P (mouseActions perform v ev actions).
Proof.
  induction actions as [|a rest IH]; cbn [mouseActions]; [apply only_ret|].
  apply only_bind; [by apply only_plain_call | intros _; exact IH].
Qed.

Lemma only_mouseOnlyBindings (v : nat) (btn mods : Z) (ev : Event) (bs : Bindings) :
  only P (mouseOnlyBindings perform v btn mods ev bs).
Proof.
  induction bs as [|[k actions] bs IH]; cbn [mouseOnlyBindings]; [apply only_ret|].
  apply only_bind; [|intros _; exact IH].
  destruct (_ && _); [apply only_mouseActions | apply only_ret].
Qed.

Lemma only_mouseRelease (v : nat) (px py : Z) : only P (mouseRelease perform v px py).
Proof.
  unfold mouseRelease. apply only_bind; [apply only_theView|intros vs].
  destruct (negb (mouseReleased vs)); [|apply only_ret].
  apply only_bind; [|intros _; apply only_modify].
  destruct (_ && _); [|apply only_ret].
  apply only_bind; [by apply only_plain_call|intros _].
  apply only_bind; [|intros _]; by apply only_plain_call.
Qed.

(** The typing of a rune, when no binding took the key. *)
Lemma only_typing (v : nat) (key : Z) (ch : rune) (isBinding : bool) :
  only P (if negb isBinding && (key =? KeyRune)
          then bind (theView v) (fun vs =>
                 if negb (Readonly (vType vs))
                 then bind get (fun e0 =>
                        bind (insertRuneLoop perform ask rangeCursor storeCurCursor
                                             v e0 ch (seq 0 (lenCursors v e0)))
                             (fun _ => resetToPrimary primaryCursor storeCurCursor v))
                 else ret tt)
          else ret tt).
Proof.
  destruct (_ && _); [|apply only_ret].
  apply only_bind; [apply only_theView|intros vs].
  destruct (negb (Readonly (vType vs))); [|apply only_ret].
  apply only_bind; [exact only_get|intros e0].
  apply only_bind; [apply only_insertRuneLoop | intros _; apply only_resetToPrimary].
Qed.

(** The case of a paste in the switch of [HandleEvent]. *)
Lemma only_pasting (v : nat) (bindings mouseBindings : Bindings) (text : string) :
  only P (handleSwitch callAction perform ask lenCursors rangeCursor primaryCursor
                       storeCurCursor smartClip v bindings mouseBindings (EventPaste text)).
Proof.
  cbn [handleSwitch].
  apply only_bind; [apply only_theView|intros vs].
  apply only_bind; [|intros _; apply only_ret].
  destruct (negb (Readonly (vType vs))); [|apply only_ret].
  apply only_bind; [exact only_get|intros e].
  apply only_bind; [by apply only_plain_call|intros _].
  destruct (ask _ v e); [|apply only_ret].
  apply only_bind; [exact only_get|intros e0].
  apply only_bind; [apply only_pasteLoop|intros _].
  apply only_bind; [apply only_resetToPrimary|intros _].
  by apply only_plain_call.
Qed.

(** What follows the loop over [bindings] for a mouse event. *)
Lemma only_mouse_tail (v : nat) (btn mods px py : Z) (mouseBindings : Bindings)
      (relocate : bool) :
  only P (bind (mouseOnlyBindings perform v btn mods (EventMouse btn mods px py)
                                  mouseBindings)
               (fun _ => bind (if btn =? ButtonNone then mouseRelease perform v px py
                               else ret tt)
                              (fun _ => ret relocate))).
Proof.
  apply only_bind; [apply only_mouseOnlyBindings|intros _].
  apply only_bind; [|intros _; apply only_ret].
  destruct (btn =? ButtonNone); [apply only_mouseRelease | apply only_ret].
Qed.

(** A terminal pane and a raw pane hand the event over. *)
Lemma only_raw_pane (v : nat) (event : Event) :
  only P (bind (call perform (CRawInsertType event) v) (fun _ =>
          bind (call perform (CRawInsertEscSeq event) v) (fun _ =>
          match event with
          | EventKey key _ _ => if key =? KeyCtrlQ then call perform CQuit v else ret tt
          | _ => ret tt
          end))).
Proof.
  apply only_bind; [by apply only_plain_call|intros _].
  apply only_bind; [by apply only_plain_call|intros _].
  destruct event; try apply only_ret.
  destruct (key =? KeyCtrlQ); [by apply only_plain_call | apply only_ret].
Qed.

End Plain.

(** *** The steps of the bindings *)

Section Bound.

Hypothesis Hcur : letsCursor P.
Hypothesis Hact : letsActions P.

Lemma only_executeLoop (actions : list Action) (rel : bool) :
  only P (executeLoop callAction rel actions).
Proof.
  revert rel. induction actions as [|a rest IH]; intros rel; cbn [executeLoop];
    [apply only_ret|].
  apply only_bind; [|intros rel'; apply IH].
  unfold executeAction.
  apply only_bind; [exact only_get|intros e].
  apply only_bind; [apply only_theView|intros cv].
  destruct (negb _).
  - apply only_bind; [|intros; apply only_ret].
    intros s r s' H. rewrite invokeAction_eq in H. injection H as _ <-.
    exists [LInvoke a (curView e)]. cbn. by rewrite (proj1 (Hact a (curView e))).
  - apply only_bind; [apply only_emit, Hact | intros; apply only_ret].
Qed.

Lemma only_cursorLoop (v : nat) (e0 : @Editor W Ptr) (actions : list Action) (keep : bool)
      (idx : list nat) (acc : bool * bool) :
  only P (cursorLoop callAction rangeCursor storeCurCursor v e0 actions keep idx acc).
Proof.
  revert acc. induction idx as [|i idx IH]; intros acc; cbn [cursorLoop];
    [apply only_ret|].
  apply only_bind; [exact only_get|intros e].
  apply only_bind; [by apply only_SetCursor|intros ok].
  destruct (negb ok); [apply only_ret|].
  apply only_bind; [apply only_executeLoop | intros rel; apply IH].
Qed.

End Bound.

End Log.

(** *** The cursors after the bound actions *)

Section Settled.

Context {W Ptr : Type}.
Variable callAction : Action -> nat -> @Editor W Ptr -> @Editor W Ptr * bool.
Variable perform : Call -> nat -> @Editor W Ptr -> @Editor W Ptr.
Variable ask : Query -> nat -> @Editor W Ptr -> bool.
Variable lenCursors : nat -> @Editor W Ptr -> nat.
Variable rangeCursor : nat -> @Editor W Ptr -> nat -> @Editor W Ptr -> option Ptr.
Variable primaryCursor : nat -> @Editor W Ptr -> Ptr.
Variable storeCurCursor : nat -> Ptr -> W -> W.
Variable smartClip : nat -> string -> @Editor W Ptr -> string.

Lemma noAction_cursor : letsCursor (@noAction Ptr).
Proof. intros u p. reflexivity. Qed.

Lemma noAction_calls : letsCalls (@noAction Ptr).
Proof. intros c u _ _. reflexivity. Qed.

Lemma settled_app (v : nat) (t1 t2 : list (@LogItem Ptr)) :
  settled v t1 -> settled v t2 -> settled v (t1 ++ t2).
Proof.
  intros H1 [H2|(a & p & b & -> & Hb)].
  - destruct H1 as [H1|(a & p & b & -> & Hb)].
    + left. by rewrite forallb_app, H1, H2.
    + right. exists a, p, (b ++ t2). split.
      * by rewrite <- !app_assoc.
      * by rewrite forallb_app, Hb, H2.
  - right. exists (t1 ++ a), p, b. split; [by rewrite <- !app_assoc | exact Hb].
Qed.

Lemma settles_bind {A B : Type} (v : nat) (m : @M W Ptr A) (k : A -> @M W Ptr B) :
  settles v m -> (forall a, settles v (k a)) -> settles v (bind m k).
Proof.
  intros Hm Hk s b s' H.
  apply bind_inv in H as (a & s1 & E & H).
  destruct (Hm _ _ _ E) as (t1 & E1 & F1).
  destruct (Hk a _ _ _ H) as (t2 & E2 & F2).
  exists (t1 ++ t2). rewrite E2, E1, app_assoc. split; [reflexivity|].
  by apply settled_app.
Qed.

Lemma only_settles {A : Type} (v : nat) (m : @M W Ptr A) : only noAction m -> settles v m.
Proof.
  intros Hm s a s' H. destruct (Hm _ _ _ H) as (t & E & F).
  exists t. split; [exact E | by left].
Qed.

(** The block of a binding: whatever the actions did, it ends with the
    reset and [MergeCursors]. *)
Lemma settles_dispatchBinding (v : nat) (actions : list Action) (keep : bool)
      (acc : bool * bool) :
  settles v (dispatchBinding callAction perform lenCursors rangeCursor primaryCursor
                             storeCurCursor v actions keep acc).
Proof.
  intros s acc' s' H. unfold dispatchBinding in H.
  apply bind_inv in H as (e0 & s0 & Hget & H). injection Hget as <- <-.
  apply bind_inv in H as (acc1 & s1 & Hloop & H).
  apply bind_inv in H as (u1 & s2 & Hreset & H).
  apply bind_inv in H as (u2 & s3 & Hmerge & H).
  injection H as _ <-.
  apply resetToPrimary_trace in Hreset as [p Hp].
  apply call_trace in Hmerge.
  destruct (only_cursorLoop callAction rangeCursor storeCurCursor anyStep
              ltac:(intros ? ?; reflexivity) ltac:(intros ? ?; split; reflexivity)
              v (ed s) actions keep _ acc _ _ _ Hloop) as (t & Ht & _).
  exists (t ++ [LSetCursor v p; LCall CMergeCursors v]).
  split.
  - rewrite Hmerge, Hp, Ht, <- !app_assoc. reflexivity.
  - right. exists t, p, []. split; [reflexivity | reflexivity].
Qed.

Lemma settles_ret {A : Type} (v : nat) (a : A) : settles v (@ret W Ptr A a).
Proof. apply only_settles, only_ret. Qed.

Lemma settles_rawBindings (v : nat) (esc : string) (bs : Bindings) (relocate : bool) :
  settles v (rawBindings callAction perform lenCursors rangeCursor primaryCursor
                         storeCurCursor v esc bs relocate).
Proof.
  induction bs as [|[k actions] bs IH]; cbn [rawBindings]; [apply settles_ret|].
  destruct (_ && _); [|exact IH].
  apply settles_bind; [apply settles_dispatchBinding | intros; apply settles_ret].
Qed.

Lemma settles_keyBindings (v : nat) (key : Z) (ch : rune) (mods : Z) (bs : Bindings)
      (acc : bool * bool) :
  settles v (keyBindings callAction perform lenCursors rangeCursor primaryCursor
                         storeCurCursor v key ch mods bs acc).
Proof.
  induction bs as [|[k actions] bs IH]; cbn [keyBindings]; [apply settles_ret|].
  destruct (key =? keyCode k); [|exact IH].
  destruct (_ && _); [exact IH|].
  destruct (mods =? modifiers k); [apply settles_dispatchBinding | exact IH].
Qed.

Lemma settles_mouseKeyBindings (v : nat) (btn mods : Z) (bs : Bindings) (relocate : bool) :
  settles v (mouseKeyBindings callAction perform lenCursors rangeCursor primaryCursor
                              storeCurCursor v btn mods bs relocate).
Proof.
  revert relocate.
  induction bs as [|[k actions] bs IH]; intros relocate; cbn [mouseKeyBindings];
    [apply settles_ret|].
  destruct (_ && _); [|apply IH].
  apply settles_bind; [apply settles_dispatchBinding | intros acc; apply IH].
Qed.

Lemma settles_handleSwitch (v : nat) (bindings mouseBindings : Bindings) (event : Event) :
  settles v (handleSwitch callAction perform ask lenCursors rangeCursor primaryCursor
                          storeCurCursor smartClip v bindings mouseBindings event).
Proof.
  pose proof noAction_cursor as Hc. pose proof noAction_calls as Hk.
  destruct event as [esc|key ch mods|text|btn mods px py|w h].
  - apply settles_rawBindings.
  - cbn [handleSwitch].
    apply settles_bind; [apply only_settles, only_get|intros e].
    apply settles_bind; [by apply only_settles, only_call|intros _].
    destruct (ask _ v e); [apply settles_ret|].
    apply settles_bind; [apply settles_keyBindings|intros [relocate isBinding]].
    apply settles_bind; [|intros; apply settles_ret].
    by apply only_settles, only_typing.
  - by apply only_settles, only_pasting.
  - cbn [handleSwitch].
    apply settles_bind; [apply settles_mouseKeyBindings|intros relocate].
    by apply only_settles, only_mouse_tail.
  - apply settles_ret.
Qed.

(** X11.  Whatever the bindings, the event, the buffer, the cursors and
    the bound actions are: when [HandleEvent] returns, either no bound
    action was reached, or the last one reached is followed by the
    reset of the view's cursor to the primary one and by
    [MergeCursors].  No binding leaves the cursors unmerged. *)
Theorem bound_actions_end_merged (v : nat) (bindings mouseBindings : Bindings)
        (event : Event) (e : @Editor W Ptr) (st : @St W Ptr) :
  run (HandleEvent callAction perform ask lenCursors rangeCursor primaryCursor
                   storeCurCursor smartClip v bindings mouseBindings event) e
    = Some (tt, st) ->
  settled v (trace st).
Proof.
  intros Hrun.
  pose proof noAction_cursor as Hc. pose proof noAction_calls as Hk.
  assert (Hs : settles v (HandleEvent callAction perform ask lenCursors rangeCursor
                            primaryCursor storeCurCursor smartClip
                            v bindings mouseBindings event)).
  { unfold HandleEvent.
    apply settles_bind; [apply only_settles, only_theView|intros vs].
    destruct (decide (vType vs = vtTerm)); [by apply only_settles, only_call|].
    destruct (decide (vType vs = vtRaw)); [by apply only_settles, only_raw_pane|].
    apply settles_bind; [by apply only_settles, only_call|intros _].
    apply settles_bind; [apply settles_handleSwitch|intros relocate].
    apply settles_bind; [|intros _; by apply only_settles, only_call].
    destruct relocate; [|apply settles_ret].
    apply settles_bind; [|intros _]; by apply only_settles, only_call. }
  destruct (Hs _ _ _ Hrun) as (t & Ht & Hf). cbn in Ht. by subst.
Qed.

End Settled.

Lemma bound_actions_end_merged_witness :
  exists st,
    run (handle never bindCtrlD (EventKey 4 0 2)) oneText = Some (tt, st)
    /\ settled 0 (trace st).
Proof.
  eexists. split; [vm_compute; reflexivity|].
  apply (bound_actions_end_merged journalAction idle never twoCursors nthCursor
           firstCursor keepWorld sameClip 0 bindCtrlD [] (EventKey 4 0 2) oneText).
  vm_compute. reflexivity.
Defined.

(** *** Events that a pane does not take *)

Section Passing.

Context {W Ptr : Type}.
Variable callAction : Action -> nat -> @Editor W Ptr -> @Editor W Ptr * bool.
Variable perform : Call -> nat -> @Editor W Ptr -> @Editor W Ptr.
Variable ask : Query -> nat -> @Editor W Ptr -> bool.
Variable lenCursors : nat -> @Editor W Ptr -> nat.
Variable rangeCursor : nat -> @Editor W Ptr -> nat -> @Editor W Ptr -> option Ptr.
Variable primaryCursor : nat -> @Editor W Ptr -> Ptr.
Variable storeCurCursor : nat -> Ptr -> W -> W.
Variable smartClip : nat -> string -> @Editor W Ptr -> string.

Lemma kept_type (v : nat) (ty : ViewType) (e e' : @Editor W Ptr) :
  vType <$> (views e' !! v) = vType <$> (views e !! v) ->
  vType <$> (views e !! v) = Some ty ->
  exists vs', views e' !! v = Some vs' /\ vType vs' = ty.
Proof.
  intros Hk H. rewrite <- Hk in H.
  destruct (views e' !! v) as [vs'|]; [|discriminate].
  injection H as <-. eauto.
Qed.

(** X12.  A read-only pane (help, log, scratch) takes neither a paste
    nor a typed key that no binding takes: [HandleEvent] returns, and
    all it did is [CheckModTime], the completer's look at the key, the
    two [Relocate] and [DeactivateIfOutOfBounds].  No cursor is set, no
    text is inserted, no plugin or pre-action hook is called. *)
Theorem readonly_pane_takes_no_text (v : nat) (bindings mouseBindings : Bindings)
        (event : Event) (e : @Editor W Ptr) (vs : @ViewSt Ptr) :
  views e !! v = Some vs ->
  vType vs <> vtTerm -> vType vs <> vtRaw -> Readonly (vType vs) = true ->
  (forall c e', vType <$> (views (perform c v e') !! v) = vType <$> (views e' !! v)) ->
  match event with
  | EventPaste _ => True
  | EventKey key ch mods => noKeyApplies key ch mods bindings = true
  | _ => False
  end ->
  run (HandleEvent callAction perform ask lenCursors rangeCursor primaryCursor
                   storeCurCursor smartClip v bindings mouseBindings event) e
    = Some (tt, mkSt (foldl (fun e' c => perform c v e') e (passingCalls event))
                     (map (fun c => LCall c v) (passingCalls event))).
Proof.
  intros Hv Hterm Hraw Hro Hkeep Hev.
  assert (H0 : vType <$> (views e !! v) = Some (vType vs)) by (by rewrite Hv).
  destruct (kept_type v (vType vs) e (perform CCheckModTime v e) (Hkeep _ _) H0)
    as (vs1 & Hv1 & Ht1).
  unfold run, HandleEvent.
  rewrite (bind_some _ _ _ vs (mkSt e []))
    by (unfold theView, bind, get, ret; cbn; by rewrite Hv).
  destruct (decide (vType vs = vtTerm)) as [|_]; [contradiction|].
  destruct (decide (vType vs = vtRaw)) as [|_]; [contradiction|].
  rewrite (bind_some _ _ _ tt (mkSt (perform CCheckModTime v e) [LCall CCheckModTime v]))
    by reflexivity.
  destruct event as [esc|key ch mods|text|btn mods px py|w h]; try contradiction.
  - assert (H1 : vType <$> (views (perform CCheckModTime v e) !! v) = Some (vType vs))
      by (by rewrite Hv1, <- Ht1).
    destruct (kept_type v (vType vs) _ (perform (CCompleterHandleEvent key) v
                                           (perform CCheckModTime v e)) (Hkeep _ _) H1)
      as (vs2 & Hv2 & Ht2).
    cbn [handleSwitch]. rewrite keyBindings_none by exact Hev.
    cbv beta iota delta [bind get call modify emit ret theView]. cbn [ed trace].
    destruct (ask _ v _); cbn [negb andb]; [reflexivity|].
    destruct (key =? KeyRune); [|reflexivity].
    cbn [ed trace]. rewrite Hv2. cbv beta iota. rewrite Ht2, Hro. reflexivity.
  - cbn [handleSwitch].
    cbv beta iota delta [bind get call modify emit ret theView]. cbn [ed trace].
    rewrite Hv1. cbv beta iota. rewrite Ht1, Hro. reflexivity.
Qed.

(** A mouse event that no binding takes leaves the loop over
    [bindings] without a step. *)
Lemma mouseKeyBindings_none (v : nat) (btn mods : Z) (bs : Bindings) (relocate : bool) :
  noButtonApplies btn mods bs = true ->
  mouseKeyBindings callAction perform lenCursors rangeCursor primaryCursor storeCurCursor
                   v btn mods bs relocate = ret relocate.
Proof.
  induction bs as [|[k actions] bs IH]; cbn [mouseKeyBindings]; [reflexivity|].
  unfold noButtonApplies. cbn [forallb fst]. intros H.
  apply andb_true_iff in H as [Hk Hbs].
  destruct (_ && _); [discriminate | by apply IH].
Qed.

Lemma quiet_cursor : letsCursor (@quiet Ptr).
Proof. intros u p. reflexivity. Qed.

Lemma quiet_calls : letsCalls (@quiet Ptr).
Proof. intros c u H1 H2. destruct c; try reflexivity; contradiction. Qed.

Lemma unbound_mouse_switch (v : nat) (bindings mouseBindings : Bindings)
      (btn mods px py : Z) (s s' : @St W Ptr) (rel : bool) :
  noButtonApplies btn mods bindings = true ->
  handleSwitch callAction perform ask lenCursors rangeCursor primaryCursor
               storeCurCursor smartClip v bindings mouseBindings
               (EventMouse btn mods px py) s = Some (rel, s') ->
  rel = false /\ exists t, trace s' = trace s ++ t /\ forallb quiet t = true.
Proof.
  intros Hnone H. cbn [handleSwitch] in H.
  rewrite mouseKeyBindings_none in H by exact Hnone.
  rewrite (bind_some _ _ _ false s) in H by reflexivity.
  split.
  - apply bind_inv in H as (u1 & s1 & _ & H).
    apply bind_inv in H as (u2 & s2 & _ & H).
    by injection H as <- _.
  - assert (L : only quiet
                  (bind (mouseOnlyBindings perform v btn mods (EventMouse btn mods px py)
                                           mouseBindings)
                        (fun _ => bind (if btn =? ButtonNone
                                        then mouseRelease perform v px py else ret tt)
                                       (fun _ => ret false))))
      by (apply only_mouse_tail, quiet_calls).
    exact (L _ _ _ H).
Qed.

(** X13.  A mouse event whose button and modifiers no entry of
    [bindings] has: [HandleEvent] never relocates the view for it,
    reaches no bound action and does not merge cursors, in any kind of
    pane and whatever [mouseBindings] holds. *)
Theorem unbound_mouse_event_never_relocates (v : nat) (bindings mouseBindings : Bindings)
        (btn mods px py : Z) (e : @Editor W Ptr) (st : @St W Ptr) :
  noButtonApplies btn mods bindings = true ->
  run (HandleEvent callAction perform ask lenCursors rangeCursor primaryCursor
                   storeCurCursor smartClip v bindings mouseBindings
                   (EventMouse btn mods px py)) e
    = Some (tt, st) ->
  forall u,
    ~ In (LCall CRelocate u) (trace st)
    /\ ~ In (LCall CMergeCursors u) (trace st)
    /\ forall a, ~ In (LInvoke a u) (trace st) /\ ~ In (LSkip a u) (trace st).
Proof.
  intros Hnone Hrun u.
  pose proof quiet_cursor as Hc. pose proof quiet_calls as Hk.
  assert (Hq : only quiet (HandleEvent callAction perform ask lenCursors rangeCursor
                             primaryCursor storeCurCursor smartClip
                             v bindings mouseBindings (EventMouse btn mods px py))).
  { unfold HandleEvent.
    apply only_bind; [apply only_theView|intros vs].
    destruct (decide (vType vs = vtTerm)); [by apply only_plain_call|].
    destruct (decide (vType vs = vtRaw));
      [exact (only_raw_pane perform quiet Hk v (EventMouse btn mods px py))|].
    apply only_bind; [by apply only_plain_call|intros _].
    intros s a s' H.
    apply bind_inv in H as (rel & s1 & Hsw & H).
    apply unbound_mouse_switch in Hsw as [-> (t1 & E1 & F1)]; [|exact Hnone].
    assert (L : only quiet (call perform CDeactivateIfOutOfBounds v))
      by (by apply only_plain_call).
    rewrite (bind_some _ _ _ tt s1) in H by reflexivity.
    destruct (L _ _ _ H) as (t2 & E2 & F2).
    exists (t1 ++ t2). rewrite E2, E1, app_assoc. split; [reflexivity|].
    by rewrite forallb_app, F1, F2. }
  destruct (Hq _ _ _ Hrun) as (t & Ht & Hf). cbn in Ht. subst t.
  rewrite forallb_forall in Hf.
  repeat split; intros Hin; specialize (Hf _ Hin); discriminate.
Qed.

End Passing.

Lemma readonly_pane_takes_no_text_witness :
  run (handle never bindCtrlD (EventKey KeyRune 97 0)) (helpAndText 0)
    = Some (tt, mkSt (helpAndText 0)
                     [LCall CCheckModTime 0; LCall (CCompleterHandleEvent 256) 0;
                      LCall CRelocate 0; LCall CRelocate 0;
                      LCall CDeactivateIfOutOfBounds 0]).
Proof.
  apply (readonly_pane_takes_no_text journalAction idle never twoCursors nthCursor
           firstCursor keepWorld sameClip 0 bindCtrlD [] (EventKey KeyRune 97 0)
           (helpAndText 0) helpPane);
    try reflexivity; try discriminate.
Defined.

Lemma unbound_mouse_event_never_relocates_witness :
  exists st,
    run (handle never bindCtrlD (EventMouse 1 0 3 4)) oneText = Some (tt, st)
    /\ forall u, ~ In (LCall CRelocate u) (trace st).
Proof.
  eexists. split; [vm_compute; reflexivity|].
  intros u.
  apply (unbound_mouse_event_never_relocates journalAction idle never twoCursors
           nthCursor firstCursor keepWorld sameClip 0 bindCtrlD [] 1 0 3 4 oneText);
    reflexivity.
Defined.

(** *** ExecuteActions in a pane that takes edits *)

Section Writable.

Context {W Ptr : Type}.
Variable callAction : Action -> nat -> @Editor W Ptr -> @Editor W Ptr * bool.

(** One turn of the loop while the current view takes edits. *)
Lemma executeAction_writable (rel : bool) (a : Action) (s : @St W Ptr) :
  writableCurrent (ed s) ->
  executeAction callAction rel a s =
    Some (snd (invoked callAction a (curView (ed s)) (ed s)) || rel,
          mkSt (fst (invoked callAction a (curView (ed s)) (ed s)))
               (trace s ++ [LInvoke a (curView (ed s))])).
Proof.
  intros (cv & Hcv & Hro).
  unfold executeAction, theView, bind, get, ret, panic. cbv beta.
  cbn [ed]. rewrite Hcv, Hro. cbn [negb].
  rewrite invokeAction_eq. reflexivity.
Qed.

Lemma executeLoop_writable (actions : list Action) :
  (forall a curv e, In a actions ->
                    writableCurrent e -> writableCurrent (fst (callAction a curv e))) ->
  forall (rel : bool) (s : @St W Ptr),
    writableCurrent (ed s) ->
    exists s',
      executeLoop callAction rel actions s
        = Some (snd (invokeAll callAction rel actions (ed s)), s')
      /\ ed s' = fst (invokeAll callAction rel actions (ed s))
      /\ verdicts (trace s') = verdicts (trace s) ++ map (fun a => (a, true)) actions.
Proof.
  induction actions as [|a rest IH]; intros Hstay rel s Hw.
  - exists s. cbn. rewrite app_nil_r. auto.
  - assert (Hrest : forall a' curv e, In a' rest ->
                      writableCurrent e -> writableCurrent (fst (callAction a' curv e)))
      by (intros; apply Hstay; [right|]; assumption).
    pose proof (executeAction_writable rel a s Hw) as E1.
    cbn [executeLoop invokeAll map].
    rewrite (bind_some _ _ _ _ _ E1).
    destruct (invoked callAction a (curView (ed s)) (ed s)) as [e1 r1] eqn:Einv.
    cbn [fst snd] in *.
    assert (Hw1 : writableCurrent e1).
    { destruct (invoked_keeps_views callAction a (curView (ed s)) (ed s)) as [Hv Hc].
      rewrite Einv in Hv, Hc. cbn [fst] in Hv, Hc.
      destruct (Hstay a (curView (ed s)) (ed s) (or_introl eq_refl) Hw) as (cv & Hcv & Hr).
      exists cv. rewrite Hv, Hc. auto. }
    destruct (IH Hrest (r1 || rel) (mkSt e1 (trace s ++ [LInvoke a (curView (ed s))])) Hw1)
      as (s' & H1 & H2 & H3).
    exists s'. cbn [ed] in *. repeat split; auto.
    rewrite H3. cbn [trace]. unfold verdicts. rewrite omap_app, <- app_assoc.
    reflexivity.
Qed.

(** X14.  While the current view takes edits, and stays so across the
    actions, [ExecuteActions] skips nothing: it returns, every action
    of the list is invoked, in order, on the view that is current when
    it is reached, and the result is true exactly when one of them
    returned true. *)
Theorem writable_pane_runs_every_action (v : nat) (actions : list Action)
        (e : @Editor W Ptr) :
  writableCurrent e ->
  (forall a curv e', In a actions ->
                     writableCurrent e' -> writableCurrent (fst (callAction a curv e'))) ->
  exists st,
    run (ExecuteActions callAction v actions) e
      = Some (snd (invokeAll callAction false actions e), st)
    /\ ed st = fst (invokeAll callAction false actions e)
    /\ verdicts (trace st) = map (fun a => (a, true)) actions.
Proof.
  intros Hw Hstay.
  destruct (executeLoop_writable actions Hstay false (mkSt e []) Hw) as (st & H1 & H2 & H3).
  exists st. unfold run, ExecuteActions. auto.
Qed.

Lemma invokeAll_records (actions : list Action) :
  (forall a curv e, In a actions ->
     curMacro (fst (callAction a curv e)) = curMacro e
     /\ recordingMacro (fst (callAction a curv e)) = recordingMacro e) ->
  forall (rel : bool) (e : @Editor W Ptr),
    curMacro (fst (invokeAll callAction rel actions e))
      = curMacro e ++ (if recordingMacro e
                       then map MAction (List.filter recorded actions) else [])
    /\ recordingMacro (fst (invokeAll callAction rel actions e)) = recordingMacro e.
Proof.
  induction actions as [|a rest IH]; intros Hkeep rel e.
  - cbn. destruct (recordingMacro e); by rewrite app_nil_r.
  - assert (Hrest : forall a' curv e', In a' rest ->
              curMacro (fst (callAction a' curv e')) = curMacro e'
              /\ recordingMacro (fst (callAction a' curv e')) = recordingMacro e')
      by (intros; apply Hkeep; by right).
    destruct (Hkeep a (curView e) e (or_introl eq_refl)) as [Hm Hr].
    cbn [invokeAll List.filter]. unfold invoked, recorded.
    destruct (callAction a (curView e) e) as [e1 r1]. cbn [fst] in Hm, Hr.
    destruct (negb (String.eqb (funcName a) "ToggleMacro")
              && negb (String.eqb (funcName a) "PlayMacro")); cbn [andb].
    + destruct (recordingMacro e1) eqn:Hrec.
      * destruct (IH Hrest (r1 || rel) (appendMacro (MAction a) e1)) as [H1 H2].
        rewrite H1, H2. cbn [appendMacro curMacro recordingMacro].
        rewrite Hrec, <- Hr, Hm, <- app_assoc. auto.
      * destruct (IH Hrest (r1 || rel) e1) as [H1 H2].
        rewrite H1, H2, Hrec, <- Hr, Hm. auto.
    + destruct (IH Hrest (r1 || rel) e1) as [H1 H2].
      rewrite H1, H2, Hr, Hm. auto.
Qed.

(** X15.  While a macro is recorded, [ExecuteActions] in a pane that
    takes edits appends to [curMacro] the actions of the list, in
    order, but for those named [ToggleMacro] and [PlayMacro]; while
    none is recorded, [curMacro] is left as it is.  (The actions
    themselves are taken not to touch the macro.) *)
Theorem macro_records_bound_actions (v : nat) (actions : list Action)
        (e : @Editor W Ptr) :
  writableCurrent e ->
  (forall a curv e', In a actions ->
                     writableCurrent e' -> writableCurrent (fst (callAction a curv e'))) ->
  (forall a curv e', In a actions ->
     curMacro (fst (callAction a curv e')) = curMacro e'
     /\ recordingMacro (fst (callAction a curv e')) = recordingMacro e') ->
  exists rel st,
    run (ExecuteActions callAction v actions) e = Some (rel, st)
    /\ curMacro (ed st)
         = curMacro e ++ (if recordingMacro e
                          then map MAction (List.filter recorded actions) else [])
    /\ recordingMacro (ed st) = recordingMacro e.
Proof.
  intros Hw Hstay Hkeep.
  destruct (executeLoop_writable actions Hstay false (mkSt e []) Hw) as (st & H1 & H2 & _).
  destruct (invokeAll_records actions Hkeep false e) as [H3 H4].
  exists (snd (invokeAll callAction false actions e)), st.
  unfold run, ExecuteActions. cbn [ed] in H2. rewrite H2. auto.
Qed.

End Writable.

(** In a text pane none of the three is skipped, [Delete] and [Paste]
    included. *)
Lemma writable_pane_runs_every_action_witness :
  exists st,
    run (ExecuteActions journalAction 0 [Delete; CursorDown; Paste]) oneText
      = Some (false, st)
    /\ verdicts (trace st) = [(Delete, true); (CursorDown, true); (Paste, true)].
Proof.
  destruct (writable_pane_runs_every_action journalAction 0 [Delete; CursorDown; Paste]
              oneText) as (st & H1 & _ & H3).
  - exists textPane. split; reflexivity.
  - intros a curv e' Hin (cv & Hcv & Hr).
    assert (Hn : String.eqb (funcName a) "NextSplit" = false).
    { cbn in Hin. destruct Hin as [<-|[<-|[<-|[]]]]; reflexivity. }
    exists cv. unfold journalAction. rewrite Hn. cbn. auto.
  - exists st. split; [exact H1 | exact H3].
Defined.

Lemma macro_records_bound_actions_witness :
  exists rel st,
    run (ExecuteActions journalAction 0 [Delete; ToggleMacroAction; CursorDown]) recordingText
      = Some (rel, st)
    /\ curMacro (ed st) = [MAction Delete; MAction CursorDown].
Proof.
  destruct (macro_records_bound_actions journalAction 0
              [Delete; ToggleMacroAction; CursorDown] recordingText)
    as (rel & st & H1 & H2 & _).
  - exists textPane. split; reflexivity.
  - intros a curv e' Hin (cv & Hcv & Hr).
    assert (Hn : String.eqb (funcName a) "NextSplit" = false).
    { cbn in Hin. destruct Hin as [<-|[<-|[<-|[]]]]; reflexivity. }
    exists cv. unfold journalAction. rewrite Hn. cbn. auto.
  - intros a curv e' Hin.
    assert (Hn : String.eqb (funcName a) "NextSplit" = false).
    { cbn in Hin. destruct Hin as [<-|[<-|[<-|[]]]]; reflexivity. }
    unfold journalAction. rewrite Hn. cbn. auto.
  - exists rel, st. split; [exact H1 | exact H2].
Defined.

End DispatchExtras.

(** ** The event loop: what it takes from the channel *)

Module SchedulerExtras.

Import Dispatch Scheduler SchedulerScenarios SchedulerSpec.

Section Channel.

Context {W : Type}.
Variable RedrawAll : W -> W.
Variable runJob : nat -> W -> W.
Variable hasPath : W -> bool.
Variable Save : W -> W.
Variable CloseTerminal : nat -> W -> W.
Variable resizeTabs : W -> W.
Variable searching : W -> bool.
Variable onInfobarMessage : Event -> W -> bool.
Variable clipboardWrite : W -> W.
Variable curMouseReleased : W -> bool.
Variable focusClicked : Event -> W -> W.
Variable viewUnder : Event -> W -> option nat.
Variable viewHandleEvent : nat -> Event -> W -> W.
Variable TabbarHandleMouseEvent : Event -> W -> W * bool.
Variable HandleSearchEvent : Event -> W -> W.
Variable curViewHandleEvent : Event -> W -> W.

Abbreviation preDispatch' :=
  (preDispatch resizeTabs searching onInfobarMessage clipboardWrite curMouseReleased
               focusClicked viewUnder viewHandleEvent).
Abbreviation dispatchOne' :=
  (dispatchOne resizeTabs searching onInfobarMessage clipboardWrite curMouseReleased
               focusClicked viewUnder viewHandleEvent TabbarHandleMouseEvent
               HandleSearchEvent curViewHandleEvent).
Abbreviation drain' :=
  (drain resizeTabs searching onInfobarMessage clipboardWrite curMouseReleased
         focusClicked viewUnder viewHandleEvent TabbarHandleMouseEvent
         HandleSearchEvent curViewHandleEvent).
Abbreviation iteration' :=
  (iteration RedrawAll runJob hasPath Save CloseTerminal resizeTabs searching
             onInfobarMessage clipboardWrite curMouseReleased focusClicked viewUnder
             viewHandleEvent TabbarHandleMouseEvent HandleSearchEvent curViewHandleEvent).
Abbreviation iterations' :=
  (iterations RedrawAll runJob hasPath Save CloseTerminal resizeTabs searching
              onInfobarMessage clipboardWrite curMouseReleased focusClicked viewUnder
              viewHandleEvent TabbarHandleMouseEvent HandleSearchEvent curViewHandleEvent).

Lemma preDispatch_offers (ev : Event) (l : @Loop W) :
  exists pre,
    steps (fst (preDispatch' ev l)) = steps l ++ pre
    /\ List.filter isRedraw pre = []
    /\ omap offered pre = (if snd (preDispatch' ev l) then [ev] else []).
Proof.
  unfold preDispatch, step.
  destruct ev as [esc|key ch mods|text|btn mods px py|w h]; cbn [fst snd steps];
    try (exists []; rewrite app_nil_r; repeat split; auto; fail).
  - destruct (negb (searching (world l)));
      [|exists []; rewrite app_nil_r; repeat split; auto].
    destruct (btn =? Button1).
    + destruct (onInfobarMessage _ _); cbn [fst snd steps].
      * exists [SClipboardWrite]. repeat split; auto.
      * destruct (curMouseReleased _); cbn [fst snd steps].
        -- eexists [_]. repeat split; auto.
        -- exists []. rewrite app_nil_r. repeat split; auto.
    + destruct ((btn =? WheelUp) || (btn =? WheelDown));
        [|exists []; rewrite app_nil_r; repeat split; auto].
      destruct (viewUnder _ _) as [v|]; cbn [fst snd steps].
      * eexists [_]. repeat split; auto.
      * exists []. rewrite app_nil_r. repeat split; auto.
  - exists [SResizeTabs]. repeat split; auto.
Qed.

Lemma dispatchOne_offers (ev : Event) (l : @Loop W) :
  exists body,
    steps (fst (dispatchOne' ev l)) = steps l ++ body
    /\ List.filter isRedraw body = []
    /\ omap offered body = [ev].
Proof.
  unfold dispatchOne.
  destruct (preDispatch_offers ev l) as (pre & Hpre & Hno & Hh).
  destruct (preDispatch' ev l) as [l1 didAction]. cbn [fst snd] in *.
  destruct didAction; cbn [negb]; [eauto|].
  destruct (TabbarHandleMouseEvent ev (world l1)) as [w changed]. cbn [world].
  unfold step.
  destruct changed; [|destruct (searching w)]; cbn [fst steps world events];
    rewrite Hpre, <- ?app_assoc; eexists; (split; [reflexivity|]);
    rewrite List.filter_app, omap_app, Hno, Hh; split; reflexivity.
Qed.

(** The drain takes a prefix of what is queued and offers each event
    of it once, in order. *)
Lemma drain_takes_prefix (queue : list (option Event)) :
  forall (event : option Event) (l : @Loop W),
    exists taken body,
      event :: queue = taken ++ snd (drain' event queue l)
      /\ taken <> []
      /\ steps (fst (drain' event queue l)) = steps l ++ body
      /\ List.filter isRedraw body = []
      /\ omap offered body = omap id taken.
Proof.
  induction queue as [|next queue IH]; intros [ev|] l; cbn [drain];
    try (exists [None], []; cbn; rewrite ?app_nil_r; repeat split; auto; discriminate).
  - destruct (dispatchOne_offers ev l) as (body & Hs & Hno & Hh).
    destruct (dispatchOne' ev l) as [l1 stop]. cbn [fst] in Hs.
    exists [Some ev], body. destruct stop; cbn [fst snd]; repeat split; auto; discriminate.
  - destruct (dispatchOne_offers ev l) as (body & Hs & Hno & Hh).
    destruct (dispatchOne' ev l) as [l1 stop]. cbn [fst] in Hs.
    destruct stop; cbn [fst snd].
    + exists [Some ev], body. repeat split; auto; discriminate.
    + destruct (IH next l1) as (taken & body' & Hq & Hne & Hs' & Hno' & Hh').
      exists (Some ev :: taken), (body ++ body'). repeat split.
      * cbn [app]. by rewrite <- Hq.
      * discriminate.
      * by rewrite Hs', Hs, app_assoc.
      * by rewrite List.filter_app, Hno, Hno'.
      * rewrite omap_app, Hh, Hh'. reflexivity.
Qed.

(** X16.  An iteration woken by the channel takes a prefix of what is
    queued, at least one element, and leaves the rest in place; each
    event taken is offered once, in the order of arrival, to the view
    under the wheel or to the tab bar; and the iteration redraws once,
    before the first of them.  No event is lost, repeated or
    reordered, whether or not the tab changes on the way. *)
Theorem drained_events_are_a_prefix (l l' : @Loop W) :
  iteration' WEvents l = Some l' ->
  exists taken body,
    events l = taken ++ events l'
    /\ taken <> []
    /\ steps l' = steps l ++ SRedrawAll :: body
    /\ List.filter isRedraw body = []
    /\ omap offered body = omap id taken.
Proof.
  unfold iteration, step. cbn [world events steps].
  destruct (events l) as [|event queue]; [discriminate|].
  match goal with |- context [drain' event queue ?l0] =>
    destruct (drain_takes_prefix queue event l0)
      as (taken & body & Hq & Hne & Hs & Hno & Hh);
    destruct (drain' event queue l0) as [l1 rest] end.
  cbn [fst snd steps] in *. intros H. injection H as <-. cbn [events steps].
  exists taken, body. rewrite Hs, <- app_assoc. auto.
Qed.

Lemma iteration_once (wk : Wake) (l l' : @Loop W) :
  iteration' wk l = Some l' ->
  exists taken body,
    events l = taken ++ events l'
    /\ steps l' = steps l ++ SRedrawAll :: body
    /\ List.filter isRedraw body = [].
Proof.
  destruct wk; try (unfold iteration, step; cbn [world events steps]).
  - intros H. injection H as <-. exists [], [SJob job]. cbn. by rewrite <- app_assoc.
  - intros H. injection H as <-.
    destruct (hasPath _); cbn; [exists [], [SSave] | exists [], []];
      rewrite <- ?app_assoc; auto.
  - intros H. injection H as <-. exists [], []. auto.
  - intros H. injection H as <-. exists [], [SCloseTerminal vnum]. cbn.
    by rewrite <- app_assoc.
  - intros H. apply drained_events_are_a_prefix in H
      as (taken & body & H1 & _ & H2 & H3 & _). eauto.
Qed.

(** X17.  Over any run of iterations, whatever woke each of them:
    the loop redraws exactly once per iteration, and what is left in
    the channel is a suffix of what was queued at the start (nothing
    arriving meanwhile), so the loop only ever takes from the front. *)
Theorem one_redraw_per_iteration (wks : list Wake) (l l' : @Loop W) :
  iterations' wks l = Some l' ->
  exists taken t,
    events l = taken ++ events l'
    /\ steps l' = steps l ++ t
    /\ length (List.filter isRedraw t) = length wks.
Proof.
  revert l. induction wks as [|wk wks IH]; intros l; cbn [iterations].
  - intros H. injection H as <-. exists [], []. by rewrite app_nil_r.
  - destruct (iteration' wk l) as [l1|] eqn:E; [|discriminate]. cbn.
    intros H. apply IH in H as (taken' & t' & H1 & H2 & H3).
    apply iteration_once in E as (taken & body & E1 & E2 & E3).
    exists (taken ++ taken'), (SRedrawAll :: body ++ t'). repeat split.
    + by rewrite E1, H1, app_assoc.
    + rewrite H2, E2, <- app_assoc. reflexivity.
    + cbn [List.filter isRedraw length]. rewrite List.filter_app, E3. cbn. by rewrite H3.
Qed.

End Channel.

Lemma drained_events_are_a_prefix_witness :
  exists taken body,
    [Some clickTab1; Some typeA] = taken ++ [Some typeA]
    /\ omap offered body = omap id taken.
Proof.
  destruct (drained_events_are_a_prefix
              same (fun _ => same) (fun _ => false) same (fun _ => same) same
              (fun _ => false) (fun _ _ => false) same (fun _ => true)
              (fun _ => same) (fun _ _ => None) (fun _ _ => same)
              tabbar (fun _ => same) (fun _ => same)
              (mkLoop 0%nat [Some clickTab1; Some typeA] [])
              (mkLoop 1%nat [Some typeA]
                      [SRedrawAll; SFocusClicked clickTab1;
                       STabbarHandleMouseEvent clickTab1 true]))
    as (taken & body & H1 & _ & _ & _ & H2).
  - vm_compute. reflexivity.
  - exists taken, body. split; [exact H1 | exact H2].
Defined.

Lemma one_redraw_per_iteration_witness :
  exists taken t,
    [Some clickTab1; Some typeA] = taken ++ []
    /\ length (List.filter isRedraw t) = 3%nat.
Proof.
  destruct (one_redraw_per_iteration
              same (fun _ => same) (fun _ => false) same (fun _ => same) same
              (fun _ => false) (fun _ _ => false) same (fun _ => true)
              (fun _ => same) (fun _ _ => None) (fun _ _ => same)
              tabbar (fun _ => same) (fun _ => same)
              [WEvents; WAutosave; WEvents]
              (mkLoop 0%nat [Some clickTab1; Some typeA] [])
              (mkLoop 1%nat []
                      [SRedrawAll; SFocusClicked clickTab1;
                       STabbarHandleMouseEvent clickTab1 true;
                       SRedrawAll; SRedrawAll;
                       STabbarHandleMouseEvent typeA false; SCurViewHandleEvent typeA]))
    as (taken & t & H1 & _ & H2).
  - vm_compute. reflexivity.
  - exists taken, t. split; [exact H1 | exact H2].
Defined.

End SchedulerExtras.

(** ** Settings: what the store keeps *)

Module ConfigExtras.

Import Config ConfigMore ConfigScenarios ConfigSpec.

Section Store.

Context {FS : Type}.
Variable dirExists : FS -> bool.
Variable fileExists : FS -> bool.
Variable fileNotExist : FS -> bool.
Variable ReadFile : FS -> string * option string.
Variable WriteFile : string -> FS -> FS * option string.
Variable Unmarshal : string -> gmap string Value -> gmap string Value * option string.
Variable Marshal : gmap string Value -> string.
Variable ParseBool : string -> option bool.
Variable ColorschemeExists : string -> bool.

Abbreviation SetOption' := (SetOption (FS := FS) ParseBool ColorschemeExists).
Abbreviation SetLocalOption' := (SetLocalOption (FS := FS) ParseBool ColorschemeExists).
Abbreviation setLocalAll' := (setLocalAll (FS := FS) ParseBool ColorschemeExists).
Abbreviation WriteSettings' :=
  (WriteSettings dirExists fileExists ReadFile WriteFile Unmarshal Marshal).
Abbreviation InitGlobalSettings' :=
  (InitGlobalSettings dirExists fileExists fileNotExist ReadFile WriteFile
                      Unmarshal Marshal).
Abbreviation AddOption' :=
  (AddOption dirExists fileExists ReadFile WriteFile Unmarshal Marshal).
Abbreviation validStore' := (validStore ColorschemeExists).
Abbreviation validConfig' := (validConfig (FS := FS) ColorschemeExists).

Lemma sameStore_refl (c : @Config FS) : sameStore c c.
Proof. repeat split. Qed.

Lemma sameStore_trans (c1 c2 c3 : @Config FS) :
  sameStore c1 c2 -> sameStore c2 c3 -> sameStore c1 c3.
Proof.
  intros (A1 & A2 & A3 & A4 & A5 & A6) (B1 & B2 & B3 & B4 & B5 & B6).
  repeat split; congruence.
Qed.

Lemma sameStore_effect (e : Effect) (c : @Config FS) : sameStore c (effect e c).
Proof. repeat split. Qed.

Lemma sameStore_foldl {A : Type} (f : @Config FS -> A -> @Config FS) (l : list A) :
  (forall c a, sameStore c (f c a)) -> forall c, sameStore c (foldl f c l).
Proof.
  intros Hf. induction l as [|a l IH]; intros c; cbn [foldl]; [apply sameStore_refl|].
  eapply sameStore_trans; [apply Hf | apply IH].
Qed.

Lemma nativeOf_kind (kind : ValueKind) (value : string) (nv : Value) :
  nativeOf ParseBool kind value = inl nv -> kindOf nv = Some kind.
Proof.
  destruct kind; cbn.
  - destruct (ParseBool value); [|discriminate]. by intros [= <-].
  - by intros [= <-].
  - destruct (Atoi value); [|discriminate]. by intros [= <-].
  - discriminate.
Qed.

(** What a call of [SetLocalOption] that reports no error has done. *)
Lemma SetLocalOption_done (opt value : string) (t i : nat) (c c' : @Config FS) :
  SetLocalOption' opt value t i c = Some (c', None) ->
  exists buf settings old kind nv,
    viewBuf t i c = Some buf
    /\ bufSettings c !! buf = Some settings
    /\ settings !! opt = Some old
    /\ kindOf old = Some kind
    /\ nativeOf ParseBool kind value = inl nv
    /\ optionIsValid ColorschemeExists opt nv = None
    /\ globalSettings c' = globalSettings c
    /\ bufSettings c' = <[buf := <[opt := nv]> settings]> (bufSettings c)
    /\ tabs c' = tabs c /\ curTab c' = curTab c /\ fs c' = fs c
    /\ invalidSettings c' = invalidSettings c.
Proof.
  unfold SetLocalOption. intros H.
  destruct (viewBuf t i c) as [buf|]; [|discriminate]. cbn -[asBool] in H.
  destruct (bufSettings c !! buf) as [settings|] eqn:Hs; [|discriminate]. cbn -[asBool] in H.
  destruct (settings !! opt) as [old|] eqn:Ho; [|discriminate].
  destruct (kindOf old) as [kind|] eqn:Hk; [|discriminate]. cbn -[asBool] in H.
  destruct (nativeOf ParseBool kind value) as [nv|e'] eqn:Hn; [|discriminate].
  destruct (optionIsValid ColorschemeExists opt nv) eqn:Hv; [discriminate|].
  exists buf, settings, old, kind, nv.
  repeat match type of H with
         | context [String.eqb opt ?s] => destruct (String.eqb opt s); cbn -[asBool] in H
         | context [asBool ?x] => destruct (asBool x) as [[|]|]; cbn -[asBool] in H
         end;
    try discriminate; injection H as <-; cbn; repeat split; auto.
Qed.

(** Either way, [SetLocalOption] leaves the global options, the tabs
    and the file system alone. *)
Lemma SetLocalOption_frame (opt value : string) (t i : nat) (c c' : @Config FS)
      (err : option string) :
  SetLocalOption' opt value t i c = Some (c', err) ->
  globalSettings c' = globalSettings c /\ tabs c' = tabs c /\ curTab c' = curTab c
  /\ fs c' = fs c /\ invalidSettings c' = invalidSettings c.
Proof.
  destruct err as [e|]; intros H.
  - apply SetLocalOption_error_noop in H as ->. auto.
  - apply SetLocalOption_done in H
      as (? & ? & ? & ? & ? & _ & _ & _ & _ & _ & _ & H1 & _ & H2 & H3 & H4 & H5).
    auto.
Qed.

Lemma setLocalAll_keeps (Q : @Config FS -> Prop) (opt value : string) :
  (forall t i c c' err,
     Q c -> SetLocalOption' opt value t i c = Some (c', err) -> Q c') ->
  forall vs c c', Q c -> setLocalAll' opt value vs c = Some c' -> Q c'.
Proof.
  intros Hstep. induction vs as [|[[t i] b] vs IH]; intros c c' HQ H; cbn in H.
  - by injection H as <-.
  - destruct (SetLocalOption' opt value t i c) as [[c1 e1]|] eqn:E; [|discriminate].
    cbn in H. eapply IH; [|exact H]. eapply Hstep; eauto.
Qed.

(** What a call of [SetOption] on a global option that reports no
    error has done: the option is stored, and then, perhaps, handed
    to the views. *)
Lemma SetOption_done (opt value : string) (c c' : @Config FS) (old : Value) :
  globalSettings c !! opt = Some old ->
  SetOption' opt value c = Some (c', None) ->
  exists kind nv c1,
    kindOf old = Some kind
    /\ nativeOf ParseBool kind value = inl nv
    /\ optionIsValid ColorschemeExists opt nv = None
    /\ sameStore (setGlobal (<[opt := nv]> (globalSettings c)) c) c1
    /\ (c' = c1
        /\ (length (tabs c1) = 0%nat
            \/ exists buf settings,
                 curBuf c1 = Some buf /\ bufSettings c1 !! buf = Some settings
                 /\ settings !! opt = None)
        \/ setLocalAll' opt value (allViews c1) c1 = Some c').
Proof.
  intros Hg. unfold SetOption. rewrite Hg. intros H.
  destruct (kindOf old) as [kind|] eqn:Hk; [|discriminate]. cbn -[asBool effect setGlobal allViews curBuf] in H.
  destruct (nativeOf ParseBool kind value) as [nv|e'] eqn:Hn; [|discriminate].
  destruct (optionIsValid ColorschemeExists opt nv) eqn:Hv; [discriminate|].
  exists kind, nv.
  set (c0 := setGlobal (<[opt := nv]> (globalSettings c)) c) in *.
  set (c1 := if String.eqb opt "colorscheme" then _ else c0) in *.
  assert (S1 : sameStore c0 c1).
  { subst c1. destruct (String.eqb opt "colorscheme"); [|apply sameStore_refl].
    eapply sameStore_trans; [apply (sameStore_effect EInitColorscheme)|].
    apply sameStore_foldl. intros c2 [[? ?] b]. apply sameStore_effect. }
  set (c2 := if String.eqb opt "infobar" || String.eqb opt "keymenu" then _ else c1) in *.
  assert (S2 : sameStore c0 c2).
  { subst c2. destruct (_ || _); [|exact S1].
    eapply sameStore_trans; [exact S1|].
    apply sameStore_foldl. intros c3 ?. apply sameStore_effect. }
  clearbody c2. clear S1. clearbody c0.
  destruct (String.eqb opt "mouse").
  - destruct (asBool (Some nv)) as [b|]; cbn -[asBool effect setGlobal allViews curBuf] in H; [|discriminate].
    set (c3 := effect _ c2) in *.
    assert (S3 : sameStore c0 c3)
      by (eapply sameStore_trans; [exact S2 | apply sameStore_effect]).
    clearbody c3. exists c3. do 3 (split; [first [reflexivity | assumption]|]). split; [exact S3|].
    destruct (length (tabs c3) =? 0)%nat eqn:Hlen;
      cbn -[asBool effect setGlobal allViews curBuf] in H.
    + injection H as <-. left. split; [reflexivity|]. left. by apply Nat.eqb_eq.
    + destruct (curBuf c3) as [buf|]; [|discriminate].
      cbn -[asBool effect setGlobal allViews curBuf] in H.
      destruct (bufSettings c3 !! buf) as [settings|] eqn:Hbs; [|discriminate].
      cbn -[asBool effect setGlobal allViews curBuf] in H.
      destruct (settings !! opt) eqn:Hso.
      * destruct (setLocalAll' opt value (allViews c3) c3) as [c4|] eqn:E;
          [|discriminate].
        cbn -[asBool effect setGlobal allViews curBuf] in H. injection H as <-; auto.
      * injection H as <-. left. split; [reflexivity|]. right. eauto.
  - cbn -[asBool effect setGlobal allViews curBuf] in H. exists c2. do 3 (split; [first [reflexivity | assumption]|]). split; [exact S2|].
    destruct (length (tabs c2) =? 0)%nat eqn:Hlen;
      cbn -[asBool effect setGlobal allViews curBuf] in H.
    + injection H as <-. left. split; [reflexivity|]. left. by apply Nat.eqb_eq.
    + destruct (curBuf c2) as [buf|]; [|discriminate].
      cbn -[asBool effect setGlobal allViews curBuf] in H.
      destruct (bufSettings c2 !! buf) as [settings|] eqn:Hbs; [|discriminate].
      cbn -[asBool effect setGlobal allViews curBuf] in H.
      destruct (settings !! opt) eqn:Hso.
      * destruct (setLocalAll' opt value (allViews c2) c2) as [c4|] eqn:E;
          [|discriminate].
        cbn -[asBool effect setGlobal allViews curBuf] in H. injection H as <-; auto.
      * injection H as <-. left. split; [reflexivity|]. right. eauto.
Qed.

Lemma setLocalAll_frame (opt value : string) (vs : list (nat * nat * nat))
      (c c' : @Config FS) :
  setLocalAll' opt value vs c = Some c' ->
  globalSettings c' = globalSettings c /\ tabs c' = tabs c /\ curTab c' = curTab c
  /\ fs c' = fs c /\ invalidSettings c' = invalidSettings c.
Proof.
  apply (setLocalAll_keeps
           (fun c1 => globalSettings c1 = globalSettings c /\ tabs c1 = tabs c
                      /\ curTab c1 = curTab c /\ fs c1 = fs c
                      /\ invalidSettings c1 = invalidSettings c)); [|by repeat split].
  intros t i c1 c2 err (A1 & A2 & A3 & A4 & A5) H.
  apply SetLocalOption_frame in H as (B1 & B2 & B3 & B4 & B5).
  repeat split; congruence.
Qed.

(** X18.  A [SetOption] on a global option that reports no error has
    stored the text converted to the type the option had, a value its
    validator accepts, and no other global option has changed:
    [GetGlobalOption] returns the new value. *)
Theorem global_option_round_trip (opt value : string) (c c' : @Config FS) (old : Value) :
  globalSettings c !! opt = Some old ->
  SetOption' opt value c = Some (c', None) ->
  exists kind nv,
    kindOf old = Some kind
    /\ nativeOf ParseBool kind value = inl nv
    /\ kindOf nv = Some kind
    /\ optionIsValid ColorschemeExists opt nv = None
    /\ globalSettings c' = <[opt := nv]> (globalSettings c)
    /\ GetGlobalOption opt c' = nv.
Proof.
  intros Hg H.
  destruct (SetOption_done opt value c c' old Hg H)
    as (kind & nv & c1 & Hk & Hn & Hv & (S1 & _) & Hc).
  assert (G : globalSettings c' = <[opt := nv]> (globalSettings c)).
  { destruct Hc as [[-> _]|Hc]; [exact S1|].
    apply setLocalAll_frame in Hc as [-> _]. exact S1. }
  exists kind, nv. repeat split; auto.
  - by apply nativeOf_kind in Hn.
  - unfold GetGlobalOption. by rewrite G, lookup_insert_eq.
Qed.

(** X21.  A [SetOption] or a [SetLocalOption] that reports an error
    has changed nothing: no option, no buffer, no file, and no effect
    has run. *)
Theorem rejected_option_changes_nothing (opt value : string) (c c' : @Config FS)
        (e : string) :
  SetOption' opt value c = Some (c', Some e)
  \/ (exists t i, SetLocalOption' opt value t i c = Some (c', Some e)) ->
  c' = c.
Proof.
  intros [H|(t & i & H)].
  - by eapply SetOption_error_noop.
  - by eapply SetLocalOption_error_noop.
Qed.

(** X22.  A [SetLocalOption] that reports no error has changed one
    option of one buffer: the buffer of the view reads the new value,
    which is not nil; its other options, the other buffers and the
    global options are as before; and if the view is the current one,
    [GetOption] returns the new value, whatever the global one is. *)
Theorem local_option_round_trip (opt value : string) (t i : nat) (c c' : @Config FS) :
  SetLocalOption' opt value t i c = Some (c', None) ->
  exists buf nv,
    viewBuf t i c = Some buf
    /\ GetLocalOption opt buf c' = Some nv
    /\ isNil nv = false
    /\ (forall name, name <> opt -> GetLocalOption name buf c' = GetLocalOption name buf c)
    /\ (forall b, b <> buf -> bufSettings c' !! b = bufSettings c !! b)
    /\ (forall name, GetGlobalOption name c' = GetGlobalOption name c)
    /\ (curBuf c = Some buf -> GetOption opt c' = Some nv).
Proof.
  intros H.
  apply SetLocalOption_done in H
    as (buf & settings & old & kind & nv & Hb & Hs & Ho & Hk & Hn & Hv
        & Hg & Hbs & Ht & Hct & _).
  assert (Hlt : (buf < length (bufSettings c))%nat) by (by eapply lookup_lt_Some).
  assert (Hnew : bufSettings c' !! buf = Some (<[opt := nv]> settings))
    by (by rewrite Hbs, list_lookup_insert_eq).
  assert (Hget : GetLocalOption opt buf c' = Some nv).
  { unfold GetLocalOption. rewrite Hnew. cbn. by rewrite lookup_insert_eq. }
  assert (Hnil : isNil nv = false).
  { apply nativeOf_kind in Hn. by destruct nv. }
  exists buf, nv. repeat split; auto.
  - intros name Hne. unfold GetLocalOption. rewrite Hnew, Hs. cbn.
    by rewrite lookup_insert_ne.
  - intros b Hne. rewrite Hbs. by rewrite list_lookup_insert_ne.
  - intros name. unfold GetGlobalOption. by rewrite Hg.
  - intros Hcur. unfold GetOption.
    assert (Hcur' : curBuf c' = Some buf) by (unfold curBuf in *; by rewrite Ht, Hct).
    rewrite Hcur'. cbn. rewrite Hget. cbn. rewrite Hnil. reflexivity.
Qed.

Lemma WriteSettings_frame (c c' : @Config FS) (err : option string) :
  WriteSettings' c = Some (c', err) ->
  globalSettings c' = globalSettings c
  /\ bufSettings c' = bufSettings c
  /\ tabs c' = tabs c
  /\ (invalidSettings c = true -> invalidSettings c' = true).
Proof.
  unfold WriteSettings. intros H.
  destruct (invalidSettings c) eqn:Hi.
  { injection H as <- <-. repeat split; auto. }
  destruct (dirExists (fs c)) eqn:Hd.
  2:{ injection H as <- <-. repeat split; auto. discriminate. }
  destruct (fileExists (fs c)).
  - destruct (ReadFile (fs c)) as [input rerr].
    destruct (negb (String.eqb input "null")).
    + destruct rerr as [e|].
      * cbn in H. injection H as <- <-. repeat split; auto; discriminate.
      * destruct (Unmarshal input (globalSettings c)) as [parsed perr].
        destruct perr as [e|]; cbn -[overlayGlobals] in H;
          (destruct (overlayGlobals _ parsed) as [parsed'|]; [|discriminate]);
          cbn in H; destruct (WriteFile _ _) as [f werr]; injection H as <- <-;
          repeat split; auto; discriminate.
    + cbn in H. destruct (WriteFile _ _) as [f werr]. injection H as <- <-.
      repeat split; auto; discriminate.
  - cbn in H. destruct (WriteFile _ _) as [f werr]. injection H as <- <-.
    repeat split; auto; discriminate.
Qed.

(** X23.  [WriteSettings] never changes an option, global or local,
    whatever it finds on disk; it never lowers [invalidSettings];
    while the flag is up, and when [configDir] does not exist, it
    writes nothing and reports no error. *)
Theorem WriteSettings_keeps_options (c c' : @Config FS) (err : option string) :
  WriteSettings' c = Some (c', err) ->
  globalSettings c' = globalSettings c
  /\ bufSettings c' = bufSettings c
  /\ tabs c' = tabs c
  /\ (invalidSettings c = true -> invalidSettings c' = true)
  /\ (invalidSettings c = true \/ dirExists (fs c) = false -> c' = c /\ err = None).
Proof.
  intros H.
  destruct (WriteSettings_frame c c' err H) as (H1 & H2 & H3 & H4).
  do 4 (split; [assumption|]).
  intros Hor. unfold WriteSettings in H. destruct Hor as [Hi|Hd].
  - rewrite Hi in H. by injection H as <- <-.
  - destruct (invalidSettings c); [by injection H as <- <-|].
    rewrite Hd in H. by injection H as <- <-.
Qed.

(** *** Invariants of the store *)

Lemma SetOption_keeps (Q : @Config FS -> Prop) (opt value : string) :
  (forall c c', sameStore c c' -> Q c -> Q c') ->
  (forall t i c c' err, Q c -> SetLocalOption' opt value t i c = Some (c', err) -> Q c') ->
  (forall c old kind nv,
     globalSettings c !! opt = Some old -> kindOf old = Some kind ->
     nativeOf ParseBool kind value = inl nv ->
     optionIsValid ColorschemeExists opt nv = None ->
     Q c -> Q (setGlobal (<[opt := nv]> (globalSettings c)) c)) ->
  forall c c' err, Q c -> SetOption' opt value c = Some (c', err) -> Q c'.
Proof.
  intros Hsame Hlocal Hglobal c c' err HQ H.
  destruct err as [e|]; [by apply SetOption_error_noop in H as ->|].
  destruct (globalSettings c !! opt) as [old|] eqn:Hg.
  - destruct (SetOption_done opt value c c' old Hg H)
      as (kind & nv & c1 & Hk & Hn & Hv & S1 & Hc).
    assert (HQ1 : Q c1) by (eapply Hsame; [exact S1|]; eapply Hglobal; eauto).
    destruct Hc as [[-> _]|Hc]; [exact HQ1|].
    eapply setLocalAll_keeps; [|exact HQ1|exact Hc]. exact Hlocal.
  - unfold SetOption in H. rewrite Hg in H.
    destruct (curBuf c) as [buf|]; [|discriminate]. cbn in H.
    destruct (bufSettings c !! buf) as [settings|]; [|discriminate]. cbn in H.
    destruct (settings !! opt); [|discriminate].
    destruct (tabs c !! curTab c) as [tb|]; [|discriminate]. cbn in H.
    destruct (SetLocalOption' opt value (curTab c) (CurView_ tb) c) as [[c1 e1]|] eqn:E;
      [|discriminate].
    cbn in H. injection H as <-. eapply Hlocal; eauto.
Qed.

Lemma sameKinds_refl (g : gmap string Value) : sameKinds g g.
Proof. intros k. reflexivity. Qed.

Lemma sameKinds_trans (g1 g2 g3 : gmap string Value) :
  sameKinds g1 g2 -> sameKinds g2 g3 -> sameKinds g1 g3.
Proof. intros H1 H2 k. by rewrite H2, H1. Qed.

Lemma sameKinds_insert (g : gmap string Value) (opt : string) (old nv : Value) :
  g !! opt = Some old -> kindOf nv = kindOf old -> sameKinds g (<[opt := nv]> g).
Proof.
  intros Hg Hk k. destruct (decide (k = opt)) as [->|Hne].
  - rewrite lookup_insert_eq, Hg. cbn. by rewrite Hk.
  - by rewrite lookup_insert_ne.
Qed.

Lemma sameKinds_list_insert (bufs : list (gmap string Value)) (buf : nat)
      (s s' : gmap string Value) :
  bufs !! buf = Some s -> sameKinds s s' -> Forall2 sameKinds bufs (<[buf := s']> bufs).
Proof.
  intros Hb Hs. rewrite <- (list_insert_id bufs buf s Hb) at 1.
  apply Forall2_insert; [|exact Hs].
  apply Forall_Forall2_diag, Forall_forall. intros x _. apply sameKinds_refl.
Qed.

Lemma Forall2_sameKinds_trans (l1 l2 l3 : list (gmap string Value)) :
  Forall2 sameKinds l1 l2 -> Forall2 sameKinds l2 l3 -> Forall2 sameKinds l1 l3.
Proof.
  intros H1. revert l3. induction H1 as [|x y l k Hxy Hlk IH]; intros l3 H2.
  - by inversion H2.
  - inversion H2 as [|? z ? k' Hyz Hk]; subst. constructor.
    + by eapply sameKinds_trans.
    + by apply IH.
Qed.

(** X19.  No call of [SetOption] or [SetLocalOption], whatever it
    reports, adds an option, removes one, or changes the type of one:
    in the global settings and in the settings of every buffer, each
    name that held a bool, a string or a number holds one of the same
    type afterwards. *)
Theorem options_keep_their_type (opt value : string) (c c' : @Config FS)
        (err : option string) :
  SetOption' opt value c = Some (c', err)
  \/ (exists t i, SetLocalOption' opt value t i c = Some (c', err)) ->
  sameKinds (globalSettings c) (globalSettings c')
  /\ Forall2 sameKinds (bufSettings c) (bufSettings c').
Proof.
  set (Q := fun c1 : @Config FS =>
              sameKinds (globalSettings c) (globalSettings c1)
              /\ Forall2 sameKinds (bufSettings c) (bufSettings c1)).
  assert (Q0 : Q c).
  { split; [apply sameKinds_refl|].
    apply Forall_Forall2_diag, Forall_forall. intros x _. apply sameKinds_refl. }
  assert (Hlocal : forall t i c1 c2 e,
             Q c1 -> SetLocalOption' opt value t i c1 = Some (c2, e) -> Q c2).
  { intros t i c1 c2 [e|] [Q1 Q2] H.
    - by apply SetLocalOption_error_noop in H as ->.
    - apply SetLocalOption_done in H
        as (buf & settings & old & kind & nv & _ & Hs & Ho & Hk & Hn & _ & Hg & Hbs & _).
      split; [by rewrite Hg|]. rewrite Hbs.
      eapply Forall2_sameKinds_trans; [exact Q2|].
      eapply sameKinds_list_insert; [exact Hs|].
      eapply sameKinds_insert; [exact Ho|].
      apply nativeOf_kind in Hn. congruence. }
  intros [H|(t & i & H)]; [|by eapply Hlocal].
  eapply (SetOption_keeps Q); [| exact Hlocal | | exact Q0 | exact H].
  - intros c1 c2 (S1 & S2 & _) [Q1 Q2]. split; [by rewrite S1 | by rewrite S2].
  - intros c1 old kind nv Hg Hk Hn _ [Q1 Q2]. split; [|exact Q2].
    cbn. eapply sameKinds_trans; [exact Q1|].
    eapply sameKinds_insert; [exact Hg|].
    apply nativeOf_kind in Hn. congruence.
Qed.

Lemma validStore_insert (g : gmap string Value) (opt : string) (nv : Value) :
  validStore' g -> optionIsValid ColorschemeExists opt nv = None ->
  validStore' (<[opt := nv]> g).
Proof.
  intros Hg Hv k v. destruct (decide (k = opt)) as [->|Hne].
  - rewrite lookup_insert_eq. by intros [= <-].
  - rewrite lookup_insert_ne by done. apply Hg.
Qed.

(** X20.  If every stored option, global and local, passes its
    validator ([tabsize] at least 1, [scrollmargin], [scrollspeed]
    and [colorcolumn] not negative, a known [colorscheme], a
    [fileformat] that is [unix] or [dos]), then so it is after any
    call of [SetOption] or [SetLocalOption], whatever it reports. *)
Theorem stored_options_stay_valid (opt value : string) (c c' : @Config FS)
        (err : option string) :
  validConfig' c ->
  SetOption' opt value c = Some (c', err)
  \/ (exists t i, SetLocalOption' opt value t i c = Some (c', err)) ->
  validConfig' c'.
Proof.
  intros V.
  assert (Hlocal : forall t i c1 c2 e,
             validConfig' c1 -> SetLocalOption' opt value t i c1 = Some (c2, e) ->
             validConfig' c2).
  { intros t i c1 c2 [e|] [V1 V2] H.
    - by apply SetLocalOption_error_noop in H as ->.
    - apply SetLocalOption_done in H
        as (buf & settings & old & kind & nv & _ & Hs & _ & _ & _ & Hv & Hg & Hbs & _).
      split; [by rewrite Hg|]. rewrite Hbs.
      apply Forall_insert; [exact V2|].
      apply validStore_insert; [|exact Hv].
      rewrite Forall_lookup in V2. by eapply V2. }
  intros [H|(t & i & H)]; [|by eapply Hlocal].
  eapply (SetOption_keeps validConfig'); [| exact Hlocal | | exact V | exact H].
  - intros c1 c2 (S1 & S2 & _) [V1 V2]. split; [by rewrite S1 | by rewrite S2].
  - intros c1 old kind nv _ _ _ Hv [V1 V2]. split; [|exact V2].
    cbn. by apply validStore_insert.
Qed.

(** *** InitGlobalSettings *)

Abbreviation writeAfterInit' :=
  (writeAfterInit dirExists fileExists ReadFile WriteFile Unmarshal Marshal).

Lemma writeAfterInit_frame (c c' : @Config FS) :
  writeAfterInit' c = Some c' ->
  globalSettings c' = globalSettings c /\ bufSettings c' = bufSettings c.
Proof.
  unfold writeAfterInit. intros H.
  destruct (WriteSettings' c) as [[c1 err]|] eqn:E; [|discriminate].
  apply WriteSettings_frame in E as (E1 & E2 & _).
  cbn in H. injection H as <-. destruct err; cbn; auto.
Qed.

Lemma defaults_are_plain (k : string) (v : Value) :
  DefaultGlobalSettings !! k = Some v -> isMap v = false /\ isNil v = false.
Proof.
  unfold DefaultGlobalSettings. intros H.
  apply elem_of_list_to_map_2 in H.
  repeat (apply elem_of_cons in H as [H|H]; [injection H as _ ->; by split|]).
  by apply elem_of_nil in H.
Qed.

Lemma mergeParsed_options (parsed g : gmap string Value) :
  mergeParsed DefaultGlobalSettings parsed = Some g ->
  (forall k, is_Some (DefaultGlobalSettings !! k) -> is_Some (g !! k))
  /\ (forall k v, g !! k = Some v -> isMap v = false /\ isNil v = false)
  /\ (forall k v, parsed !! k = Some v -> isMap v = false -> g !! k = Some v).
Proof.
  unfold mergeParsed. case_bool_decide as Hn; [discriminate|]. intros [= <-].
  split; [|split].
  - intros k [d Hd]. destruct (filter (fun kv : string * Value => isMap kv.2 = false) parsed !! k)
      as [v|] eqn:E.
    + exists v. by apply lookup_union_Some_l.
    + exists d. by rewrite lookup_union_r.
  - intros k v H. apply lookup_union_Some_raw in H as [H|[_ H]].
    + apply map_lookup_filter_Some in H as [H Hm]. cbn in Hm. split; [exact Hm|].
      destruct v; try reflexivity. exfalso. apply Hn. by exists k, VNull.
    + by apply defaults_are_plain in H.
  - intros k v H Hm. apply lookup_union_Some_l.
    by apply map_lookup_filter_Some.
Qed.

(** X24.  When [InitGlobalSettings] returns, either the read of
    [settings.json] failed, and then the flag is up and the global
    settings are what they were before the call, no default applied;
    or every default option is set, every entry of the file that is
    not a map has its value from the file, and no global option is a
    map or nil: the sections for a file type or a glob stay out. *)
Theorem InitGlobalSettings_options (c c' : @Config FS) :
  InitGlobalSettings' c = Some c' ->
  (invalidSettings c' = true /\ globalSettings c' = globalSettings c
   /\ exists input e, fileExists (fs c) = true /\ ReadFile (fs c) = (input, Some e))
  \/ ((forall k, is_Some (DefaultGlobalSettings !! k) -> is_Some (globalSettings c' !! k))
      /\ (forall k v, globalSettings c' !! k = Some v -> isMap v = false /\ isNil v = false)
      /\ (forall input parsed perr k v,
            fileExists (fs c) = true -> ReadFile (fs c) = (input, None) ->
            String.prefix "null" input = false ->
            Unmarshal input ∅ = (parsed, perr) ->
            parsed !! k = Some v -> isMap v = false ->
            globalSettings c' !! k = Some v)).
Proof.
  unfold InitGlobalSettings. cbn [fs setInvalid]. intros H.
  assert (Hfin : forall c0 parsed ws,
            (g ← mergeParsed DefaultGlobalSettings parsed;
             let c1 := setGlobal g c0 in
             if fileNotExist (fs c1) || ws then writeAfterInit' c1 else Some c1) = Some c' ->
            exists g, mergeParsed DefaultGlobalSettings parsed = Some g
                      /\ globalSettings c' = g).
  { intros c0 parsed ws H0.
    destruct (mergeParsed DefaultGlobalSettings parsed) as [g|]; [|discriminate].
    cbn in H0. exists g. split; [reflexivity|].
    destruct (_ || _); [|by injection H0 as <-].
    by apply writeAfterInit_frame in H0 as [-> _]. }
  destruct (fileExists (fs c)) eqn:Hf.
  - destruct (ReadFile (fs c)) as [input rerr] eqn:Hr.
    destruct (negb (String.prefix "null" input)) eqn:Hp.
    + destruct rerr as [e|].
      * injection H as <-. left. cbn. eauto 6.
      * right. destruct (Unmarshal input ∅) as [parsed perr] eqn:Hu.
        apply Hfin in H as (g & Hm & ->).
        apply mergeParsed_options in Hm as (M1 & M2 & M3).
        repeat split; auto; try (by eapply M2).
        intros input' parsed' perr' k v _ [= <-] _ Hu' Hk Hv.
        rewrite Hu in Hu'. injection Hu' as <- _. by apply M3.
    + right. apply Hfin in H as (g & Hm & ->).
      apply mergeParsed_options in Hm as (M1 & M2 & M3).
      repeat split; auto; try (by eapply M2).
      intros input' parsed' perr' k v _ Hr' Hp' _ _ _. exfalso.
      injection Hr' as <- _. rewrite Hp' in Hp. discriminate.
  - right. apply Hfin in H as (g & Hm & ->).
    apply mergeParsed_options in Hm as (M1 & M2 & M3).
    repeat split; auto; try (by eapply M2).
    intros; discriminate.
Qed.

(** X25.  The first start: with no [settings.json], the global
    settings are the defaults, the flag is down, and the defaults are
    written to the file, if [configDir] exists; a failed write is
    reported and changes nothing else. *)
Theorem first_start_writes_defaults (c : @Config FS) :
  fileExists (fs c) = false -> fileNotExist (fs c) = true ->
  exists c',
    InitGlobalSettings' c = Some c'
    /\ globalSettings c' = DefaultGlobalSettings
    /\ invalidSettings c' = false
    /\ bufSettings c' = bufSettings c
    /\ fs c' = (if dirExists (fs c)
                then fst (WriteFile (Marshal DefaultGlobalSettings) (fs c))
                else fs c)
    /\ effects c' =
         effects c ++
         match (if dirExists (fs c)
                then snd (WriteFile (Marshal DefaultGlobalSettings) (fs c)) else None) with
         | Some e => [ETermMessage ("Error writing settings.json file: " +:+ e)]
         | None => []
         end.
Proof.
  intros Hf Hn. unfold InitGlobalSettings. cbn [fs setInvalid]. rewrite Hf.
  assert (Hm : mergeParsed DefaultGlobalSettings ∅ = Some DefaultGlobalSettings).
  { unfold mergeParsed. rewrite bool_decide_eq_false_2.
    - by rewrite map_filter_empty, (left_id_L ∅ (∪)).
    - intros (k & v & Hk & _). by rewrite lookup_empty in Hk. }
  cbv zeta. rewrite Hm. cbn [mbind option_bind fs setGlobal setInvalid]. rewrite Hn.
  cbn [orb].
  unfold writeAfterInit, WriteSettings.
  cbn [invalidSettings fs globalSettings setGlobal setInvalid].
  destruct (dirExists (fs c)).
  - rewrite Hf. cbn -[DefaultGlobalSettings].
    destruct (WriteFile (Marshal DefaultGlobalSettings) (fs c)) as [f werr].
    cbn -[DefaultGlobalSettings]. eexists. split; [reflexivity|].
    destruct werr; cbn -[DefaultGlobalSettings]; rewrite ?app_nil_r; auto 10.
  - cbn -[DefaultGlobalSettings]. eexists. split; [reflexivity|].
    cbn -[DefaultGlobalSettings]. rewrite app_nil_r. auto 10.
Qed.

(** *** A global option and the views *)

Lemma SetLocalOption_applies (opt value : string) (t i : nat) (c c' : @Config FS)
      (err : option string) (buf : nat) (settings : gmap string Value) (v2 : Value)
      (kind : ValueKind) (nv : Value) :
  viewBuf t i c = Some buf -> bufSettings c !! buf = Some settings ->
  settings !! opt = Some v2 -> kindOf v2 = Some kind ->
  nativeOf ParseBool kind value = inl nv ->
  optionIsValid ColorschemeExists opt nv = None ->
  SetLocalOption' opt value t i c = Some (c', err) ->
  err = None
  /\ bufSettings c' = <[buf := <[opt := nv]> settings]> (bufSettings c)
  /\ tabs c' = tabs c.
Proof.
  intros Hb Hs Ho Hk Hn Hv H.
  assert (He : err = None).
  { unfold SetLocalOption in H. rewrite Hb in H. cbn -[asBool] in H.
    rewrite Hs in H. cbn -[asBool] in H. rewrite Ho, Hk in H. cbn -[asBool] in H.
    rewrite Hn, Hv in H.
    repeat match type of H with
           | context [String.eqb opt ?s] => destruct (String.eqb opt s); cbn -[asBool] in H
           | context [asBool ?x] => destruct (asBool x) as [[|]|]; cbn -[asBool] in H
           end;
      try discriminate; by injection H as _ <-. }
  subst err. split; [reflexivity|].
  apply SetLocalOption_done in H
    as (buf' & settings' & old' & kind' & nv' & Hb' & Hs' & Ho' & Hk' & Hn' & _
        & _ & Hbs & Ht & _).
  rewrite Hb in Hb'. injection Hb' as <-.
  rewrite Hs in Hs'. injection Hs' as <-.
  rewrite Ho in Ho'. injection Ho' as <-.
  rewrite Hk in Hk'. injection Hk' as <-.
  rewrite Hn in Hn'. injection Hn' as <-. auto.
Qed.

Lemma SetLocalOption_skips (opt value : string) (t i : nat) (c c' : @Config FS)
      (err : option string) (buf : nat) (settings : gmap string Value) :
  viewBuf t i c = Some buf -> bufSettings c !! buf = Some settings ->
  settings !! opt = None ->
  SetLocalOption' opt value t i c = Some (c', err) -> c' = c.
Proof.
  intros Hb Hs Ho H. unfold SetLocalOption in H. rewrite Hb in H. cbn in H.
  rewrite Hs in H. cbn in H. rewrite Ho in H. by injection H as <- _.
Qed.

Lemma SetLocalOption_needs (opt value : string) (t i : nat) (c c' : @Config FS)
      (err : option string) :
  SetLocalOption' opt value t i c = Some (c', err) ->
  exists buf settings, viewBuf t i c = Some buf /\ bufSettings c !! buf = Some settings.
Proof.
  unfold SetLocalOption. intros H.
  destruct (viewBuf t i c) as [buf|] eqn:Hb; [|discriminate]. cbn in H.
  destruct (bufSettings c !! buf) as [settings|] eqn:Hs; [|discriminate]. eauto.
Qed.

Lemma allViews_viewBuf (c : @Config FS) (t i b : nat) :
  (t, i, b) ∈ allViews c -> viewBuf t i c = Some b.
Proof.
  unfold allViews, viewBuf. rewrite list_elem_of_In, in_concat.
  intros (l & Hl & Hx).
  rewrite <- list_elem_of_In in Hl. rewrite <- list_elem_of_In in Hx.
  apply elem_of_lookup_imap in Hl as (t' & tb & -> & Htb).
  apply elem_of_lookup_imap in Hx as (i' & b' & Heq & Hb). injection Heq as -> -> ->.
  rewrite Htb. cbn. exact Hb.
Qed.

Section Spread.

Variable opt value : string.
Variable kind : ValueKind.
Variable nv : Value.
Variable c1 : @Config FS.

Hypothesis Hnv : nativeOf ParseBool kind value = inl nv.
Hypothesis Hvalid : optionIsValid ColorschemeExists opt nv = None.
Hypothesis Hkinds : forall b s v,
  bufSettings c1 !! b = Some s -> s !! opt = Some v -> kindOf v = Some kind.

Abbreviation spreading := (spreading opt nv c1).

Lemma spreading_step (t i b : nat) (c2 c3 : @Config FS) (err : option string) :
  spreading c2 -> viewBuf t i c1 = Some b ->
  SetLocalOption' opt value t i c2 = Some (c3, err) ->
  spreading c3
  /\ (forall s, bufSettings c1 !! b = Some s -> is_Some (s !! opt) ->
        bufSettings c3 !! b = Some (<[opt := nv]> s))
  /\ (forall b' s, bufSettings c1 !! b' = Some s ->
        bufSettings c2 !! b' = Some (<[opt := nv]> s) ->
        bufSettings c3 !! b' = Some (<[opt := nv]> s)).
Proof.
  intros (St & Sl & Sb) Hb H.
  assert (Hb2 : viewBuf t i c2 = Some b) by (unfold viewBuf in *; by rewrite St).
  destruct (SetLocalOption_needs _ _ _ _ _ _ _ H) as (b' & s2 & Hb' & Hs2).
  rewrite Hb2 in Hb'. injection Hb' as <-.
  assert (Hlt : (b < length (bufSettings c1))%nat)
    by (rewrite <- Sl; by eapply lookup_lt_Some).
  destruct (lookup_lt_is_Some_2 _ _ Hlt) as [s Hs].
  assert (Hcase : (exists v2, s2 !! opt = Some v2 /\ kindOf v2 = Some kind
                              /\ <[opt := nv]> s2 = <[opt := nv]> s
                              /\ is_Some (s !! opt))
                  \/ (s2 !! opt = None /\ s2 = s)).
  { destruct (Sb b s Hs) as [E|[Hsome E]]; rewrite Hs2 in E; injection E as ->.
    - destruct (s !! opt) as [v2|] eqn:Ho; [|by right].
      left. exists v2. repeat split; eauto.
    - left. exists nv. rewrite lookup_insert_eq, insert_insert_eq.
      repeat split; auto. by eapply nativeOf_kind. }
  destruct Hcase as [(v2 & Ho & Hk & Hins & Hsome)|[Ho ->]].
  - destruct (SetLocalOption_applies opt value t i c2 c3 err b s2 v2 kind nv
                Hb2 Hs2 Ho Hk Hnv Hvalid H) as (_ & Hbs & Ht).
    rewrite Hins in Hbs.
    assert (Hlt2 : (b < length (bufSettings c2))%nat) by (by rewrite Sl).
    split; [split; [congruence|split]|split].
    + by rewrite Hbs, length_insert.
    + intros b' s' Hs'. rewrite Hbs. destruct (decide (b' = b)) as [->|Hne].
      * rewrite Hs in Hs'. injection Hs' as <-. right. split; [exact Hsome|].
        by rewrite list_lookup_insert_eq.
      * rewrite list_lookup_insert_ne by done. by apply Sb.
    + intros s' Hs' _. rewrite Hs in Hs'. injection Hs' as <-.
      by rewrite Hbs, list_lookup_insert_eq.
    + intros b' s' Hs' E. rewrite Hbs. destruct (decide (b' = b)) as [->|Hne].
      * rewrite Hs in Hs'. injection Hs' as <-. by rewrite list_lookup_insert_eq.
      * by rewrite list_lookup_insert_ne.
  - pose proof (SetLocalOption_skips opt value t i c2 c3 err b s Hb2 Hs2 Ho H) as ->.
    split; [by repeat split|]. split; [|auto].
    intros s' Hs' [v Hv]. rewrite Hs in Hs'. injection Hs' as <-. congruence.
Qed.

Lemma spreading_all (vs : list (nat * nat * nat)) :
  forall c2 c3,
    (forall t i b, (t, i, b) ∈ vs -> viewBuf t i c1 = Some b) ->
    spreading c2 -> setLocalAll' opt value vs c2 = Some c3 ->
    spreading c3
    /\ (forall t i b s, (t, i, b) ∈ vs -> bufSettings c1 !! b = Some s ->
          is_Some (s !! opt) -> bufSettings c3 !! b = Some (<[opt := nv]> s))
    /\ (forall b s, bufSettings c1 !! b = Some s ->
          bufSettings c2 !! b = Some (<[opt := nv]> s) ->
          bufSettings c3 !! b = Some (<[opt := nv]> s)).
Proof.
  induction vs as [|[[t i] b] vs IH]; intros c2 c3 Hvs S2 H; cbn in H.
  - injection H as <-. split; [exact S2|]. split; [|auto].
    intros t i b s Hin. by apply elem_of_nil in Hin.
  - destruct (SetLocalOption' opt value t i c2) as [[c2' e]|] eqn:E; [|discriminate].
    cbn in H.
    destruct (spreading_step t i b c2 c2' e S2 (Hvs t i b (list_elem_of_here _ _)) E)
      as (S2' & Hnow & Hkeep).
    destruct (IH c2' c3 (fun t' i' b' Hin => Hvs t' i' b' (list_elem_of_further _ _ _ Hin))
                 S2' H) as (S3 & Hall & Hkeep').
    split; [exact S3|]. split.
    + intros t' i' b' s Hin Hs Hsome. apply elem_of_cons in Hin as [Heq|Hin].
      * injection Heq as -> -> ->. apply Hkeep'; [exact Hs|]. by apply Hnow.
      * by eapply Hall.
    + intros b' s Hs E2. apply Hkeep'; [exact Hs|]. by eapply Hkeep.
Qed.

End Spread.

(** X26.  A global option that buffers hold too, with the type it has
    globally: when the buffer of the current view holds it, a
    [SetOption] that reports no error has handed the new value to
    every view whose buffer holds the option.  Each of them reads,
    locally, the value that [GetGlobalOption] returns, and so does
    [GetOption]. *)
Theorem global_option_reaches_every_view (opt value : string) (c c' : @Config FS)
        (old : Value) (cb : nat) (cs : gmap string Value) :
  globalSettings c !! opt = Some old ->
  (forall b s v, bufSettings c !! b = Some s -> s !! opt = Some v ->
                 kindOf v = kindOf old) ->
  tabs c <> [] ->
  curBuf c = Some cb -> bufSettings c !! cb = Some cs -> is_Some (cs !! opt) ->
  SetOption' opt value c = Some (c', None) ->
  GetOption opt c' = Some (GetGlobalOption opt c')
  /\ forall t i b s,
       viewBuf t i c = Some b -> bufSettings c !! b = Some s -> is_Some (s !! opt) ->
       viewBuf t i c' = Some b
       /\ GetLocalOption opt b c' = Some (GetGlobalOption opt c').
Proof.
  intros Hg Hkinds Htabs Hcb Hcs Hco H.
  destruct (SetOption_done opt value c c' old Hg H)
    as (kind & nv & c1 & Hk & Hn & Hv & (S1 & S2 & S3 & S4 & _) & Hc).
  cbn in S1, S2, S3, S4.
  assert (Hcur1 : curBuf c1 = Some cb) by (unfold curBuf in *; by rewrite S3, S4).
  destruct Hc as [[_ [Hlen|(b0 & s0 & Hb0 & Hs0 & Hno)]]|Hall].
  { rewrite S3 in Hlen. by apply nil_length_inv in Hlen. }
  { rewrite Hcur1 in Hb0. injection Hb0 as <-. rewrite S2, Hcs in Hs0.
    injection Hs0 as <-. destruct Hco as [v Hco]. congruence. }
  assert (Hkinds1 : forall b s v, bufSettings c1 !! b = Some s -> s !! opt = Some v ->
                                  kindOf v = Some kind).
  { intros b s v Hs Ho. rewrite S2 in Hs. rewrite <- Hk. by eapply Hkinds. }
  assert (S0 : ConfigMore.spreading opt nv c1 c1) by (repeat split; auto).
  destruct (spreading_all opt value kind nv c1 Hn Hv Hkinds1 (allViews c1) c1 c'
              (allViews_viewBuf c1) S0 Hall) as ((T1 & _) & Hviews & _).
  apply setLocalAll_frame in Hall as (G & _ & CT & _).
  assert (Hglob : GetGlobalOption opt c' = nv).
  { unfold GetGlobalOption. by rewrite G, S1, lookup_insert_eq. }
  assert (Hin : forall t i b, viewBuf t i c = Some b -> (t, i, b) ∈ allViews c1).
  { intros t i b Hb. unfold allViews, viewBuf in *. rewrite S3.
    destruct (tabs c !! t) as [tb|] eqn:Htb; [|discriminate]. cbn in Hb.
    rewrite list_elem_of_In, in_concat.
    exists (imap (fun i0 b1 => (t, i0, b1)) (Views tb)).
    rewrite <- !list_elem_of_In. split.
    - apply elem_of_lookup_imap. eauto.
    - apply elem_of_lookup_imap. eauto. }
  assert (Hread : forall t i b s,
            viewBuf t i c = Some b -> bufSettings c !! b = Some s -> is_Some (s !! opt) ->
            GetLocalOption opt b c' = Some nv).
  { intros t i b s Hb Hs Hsome. unfold GetLocalOption.
    rewrite (Hviews t i b s (Hin t i b Hb)) by (by rewrite ?S2). cbn.
    by rewrite lookup_insert_eq. }
  split.
  - assert (Hcv : exists t i, viewBuf t i c = Some cb).
    { unfold curBuf, viewBuf in *. destruct (tabs c !! curTab c) as [tb|] eqn:E;
        [|discriminate]. exists (curTab c), (CurView_ tb). by rewrite E. }
    destruct Hcv as (t & i & Hcv).
    unfold GetOption.
    assert (Hcur' : curBuf c' = Some cb) by (unfold curBuf in *; by rewrite T1, CT).
    rewrite Hcur'. cbn. rewrite (Hread t i cb cs Hcv Hcs Hco). cbn.
    rewrite Hglob. apply nativeOf_kind in Hn. by destruct nv.
  - intros t i b s Hb Hs Hsome. split.
    + unfold viewBuf in *. by rewrite T1, S3.
    + rewrite Hglob. by eapply Hread.
Qed.

(** X27.  [AddOption] stores the value under the name, whatever was
    there and whether or not the write to [settings.json] succeeds;
    the other global options and the options of the buffers are as
    before.  It returns only if [globalSettings] has been made. *)
Theorem added_option_round_trip (made : bool) (name : string) (value : Value)
        (c c' : @Config FS) :
  AddOption' made name value c = Some c' ->
  made = true
  /\ GetGlobalOption name c' = value
  /\ (forall other, other <> name -> GetGlobalOption other c' = GetGlobalOption other c)
  /\ bufSettings c' = bufSettings c.
Proof.
  unfold AddOption. destruct made; [|discriminate]. intros H.
  apply writeAfterInit_frame in H as [G B]. cbn in G, B.
  split; [reflexivity|]. unfold GetGlobalOption. rewrite G. split; [|split].
  - by rewrite lookup_insert_eq.
  - intros other Hne. by rewrite lookup_insert_ne.
  - exact B.
Qed.

End Store.

(** The settings of the scenarios pass their validators. *)
Lemma session_valid (invalid : bool) (d : Disk) :
  validConfig knownScheme (session invalid d).
Proof.
  split.
  - intros opt v H. cbn [session globalSettings] in H. unfold DefaultGlobalSettings in H.
    apply elem_of_list_to_map_2 in H.
    repeat (apply elem_of_cons in H as [H|H]; [injection H as -> ->; reflexivity|]).
    by apply elem_of_nil in H.
  - cbn [session bufSettings]. constructor; [|constructor].
    intros opt v H. unfold markdownSettings in H.
    apply lookup_insert_Some in H as [[<- <-]|[_ H]]; [reflexivity|].
    apply lookup_insert_Some in H as [[<- <-]|[_ H]]; [reflexivity|].
    apply lookup_singleton_Some in H as [<- <-]. reflexivity.
Qed.

Lemma global_option_round_trip_witness :
  exists c',
    setOption "tabsize" "8" (session false goodDisk) = Some (c', None)
    /\ GetGlobalOption "tabsize" c' = VFloat 8.
Proof.
  assert (E : exists c', setOption "tabsize" "8" (session false goodDisk) = Some (c', None))
    by (eexists; vm_compute; reflexivity).
  destruct E as [c' E]. exists c'. split; [exact E|].
  destruct (global_option_round_trip parseBool knownScheme "tabsize" "8"
              (session false goodDisk) c' (VFloat 4))
    as (kind & nv & Hk & Hn & _ & _ & _ & Hget); [reflexivity | exact E |].
  injection Hk as <-. vm_compute in Hn. injection Hn as <-. exact Hget.
Defined.

Lemma options_keep_their_type_witness :
  exists c',
    setOption "tabsize" "8" (session false goodDisk) = Some (c', None)
    /\ sameKinds DefaultGlobalSettings (globalSettings c')
    /\ Forall2 sameKinds [markdownSettings] (bufSettings c').
Proof.
  assert (E : exists c', setOption "tabsize" "8" (session false goodDisk) = Some (c', None))
    by (eexists; vm_compute; reflexivity).
  destruct E as [c' E]. exists c'. split; [exact E|].
  apply (options_keep_their_type parseBool knownScheme "tabsize" "8"
           (session false goodDisk) c' None).
  left. exact E.
Defined.

Lemma stored_options_stay_valid_witness :
  exists c',
    setOption "tabsize" "8" (session false goodDisk) = Some (c', None)
    /\ validConfig knownScheme c'.
Proof.
  assert (E : exists c', setOption "tabsize" "8" (session false goodDisk) = Some (c', None))
    by (eexists; vm_compute; reflexivity).
  destruct E as [c' E]. exists c'. split; [exact E|].
  apply (stored_options_stay_valid parseBool knownScheme "tabsize" "8"
           (session false goodDisk) c' None).
  - apply session_valid.
  - left. exact E.
Defined.

Lemma rejected_option_changes_nothing_witness :
  exists c' e,
    setOption "tabsize" "0" (session false goodDisk) = Some (c', Some e)
    /\ c' = session false goodDisk.
Proof.
  assert (E : exists c' e,
             setOption "tabsize" "0" (session false goodDisk) = Some (c', Some e))
    by (eexists _, _; vm_compute; reflexivity).
  destruct E as (c' & e & E). exists c', e. split; [exact E|].
  apply (rejected_option_changes_nothing parseBool knownScheme "tabsize" "0"
           (session false goodDisk) c' e).
  left. exact E.
Defined.

Lemma local_option_round_trip_witness :
  exists c',
    setLocalOption "tabsize" "8" 0 0 (session false goodDisk) = Some (c', None)
    /\ GetOption "tabsize" c' = Some (VFloat 8)
    /\ GetGlobalOption "tabsize" c' = VFloat 4.
Proof.
  assert (E : exists c',
             setLocalOption "tabsize" "8" 0 0 (session false goodDisk) = Some (c', None))
    by (eexists; vm_compute; reflexivity).
  destruct E as [c' E]. exists c'. split; [exact E|].
  destruct (local_option_round_trip parseBool knownScheme "tabsize" "8" 0 0
              (session false goodDisk) c' E)
    as (buf & nv & Hb & Hget & _ & Hrest & _ & Hglob & Hopt).
  injection Hb as <-.
  assert (Hnv : nv = VFloat 8).
  { pose proof (SetLocalOption_done parseBool knownScheme _ _ _ _ _ _ E)
      as (b & s0 & old & kind & nv' & Hb & Hs & Ho & Hk & Hn & _ & _ & Hbs & _).
    injection Hb as <-. injection Hs as <-. vm_compute in Ho. injection Ho as <-.
    injection Hk as <-. vm_compute in Hn. injection Hn as <-.
    unfold GetLocalOption in Hget. rewrite Hbs in Hget. cbn in Hget.
    rewrite lookup_insert_eq in Hget. by injection Hget as <-. }
  subst nv. split; [by apply Hopt | by rewrite Hglob].
Defined.

Lemma WriteSettings_keeps_options_witness :
  exists c' err,
    writeSettings (session true brokenDisk) = Some (c', err)
    /\ c' = session true brokenDisk /\ err = None.
Proof.
  assert (E : exists c' err, writeSettings (session true brokenDisk) = Some (c', err))
    by (eexists _, _; vm_compute; reflexivity).
  destruct E as (c' & err & E). exists c', err. split; [exact E|].
  destruct (WriteSettings_keeps_options hasDir hasFile readDisk writeDisk decode encode
              (session true brokenDisk) c' err E) as (_ & _ & _ & _ & H).
  apply H. by left.
Defined.

Lemma InitGlobalSettings_options_witness :
  exists c',
    initGlobalSettings (session false goodDisk) = Some c'
    /\ globalSettings c' !! "tabsize"%string = Some (VFloat 8).
Proof.
  assert (E : exists c', initGlobalSettings (session false goodDisk) = Some c')
    by (eexists; vm_compute; reflexivity).
  destruct E as [c' E]. exists c'. split; [exact E|].
  destruct (InitGlobalSettings_options hasDir hasFile lacksFile readDisk writeDisk
              decode encode (session false goodDisk) c' E)
    as [(_ & _ & input & e & _ & Hr)|(_ & _ & Hfile)]; [discriminate Hr|].
  apply (Hfile "{tabsize: 8}"%string (<["tabsize"%string := VFloat 8]> ∅) None);
    reflexivity.
Defined.

(** A disk with [configDir] and no [settings.json]. *)
Lemma first_start_writes_defaults_witness :
  exists c',
    initGlobalSettings (session false (mkDisk None None)) = Some c'
    /\ globalSettings c' = DefaultGlobalSettings
    /\ settingsJson (fs c') = Some (encode DefaultGlobalSettings).
Proof.
  destruct (first_start_writes_defaults hasDir hasFile lacksFile readDisk writeDisk
              decode encode (session false (mkDisk None None)))
    as (c' & H1 & H2 & _ & _ & H5 & _); [reflexivity | reflexivity |].
  exists c'. split; [exact H1|]. split; [exact H2|]. by rewrite H5.
Defined.

Lemma global_option_reaches_every_view_witness :
  exists c',
    setOption "tabsize" "8" (session false goodDisk) = Some (c', None)
    /\ GetOption "tabsize" c' = Some (GetGlobalOption "tabsize" c')
    /\ GetLocalOption "tabsize" 0 c' = Some (GetGlobalOption "tabsize" c').
Proof.
  assert (E : exists c', setOption "tabsize" "8" (session false goodDisk) = Some (c', None))
    by (eexists; vm_compute; reflexivity).
  destruct E as [c' E]. exists c'. split; [exact E|].
  destruct (global_option_reaches_every_view parseBool knownScheme "tabsize" "8"
              (session false goodDisk) c' (VFloat 4) 0%nat markdownSettings)
    as [Hopt Hviews].
  - reflexivity.
  - intros [|b] s v Hs Hv; [|discriminate].
    injection Hs as <-. vm_compute in Hv. by injection Hv as <-.
  - discriminate.
  - reflexivity.
  - reflexivity.
  - by exists (VFloat 4).
  - exact E.
  - destruct (Hviews 0%nat 0%nat 0%nat markdownSettings) as [_ Hloc];
      [reflexivity | reflexivity | by exists (VFloat 4) |].
    split; [exact Hopt | exact Hloc].
Defined.

Lemma added_option_round_trip_witness :
  exists c',
    AddOption hasDir hasFile readDisk writeDisk decode encode true "linter"
              (VBool true) (session false goodDisk) = Some c'
    /\ GetGlobalOption "linter" c' = VBool true.
Proof.
  assert (E : exists c',
             AddOption hasDir hasFile readDisk writeDisk decode encode true "linter"
                       (VBool true) (session false goodDisk) = Some c')
    by (eexists; vm_compute; reflexivity).
  destruct E as [c' E]. exists c'. split; [exact E|].
  by destruct (added_option_round_trip hasDir hasFile readDisk writeDisk decode encode
                 true "linter" (VBool true) (session false goodDisk) c' E)
    as (_ & H & _).
Defined.

End ConfigExtras.

(** ** The gutter of [DisplayView] *)

Module DisplayExtras.

Import GoInt GoIntFacts Viewport ViewportScenarios.

Lemma digits_pos (fuel : nat) (n : Z) : 1 <= digits fuel n <= Z.of_nat fuel + 1.
Proof.
  revert n. induction fuel as [|fuel IH]; intros n; cbn [digits]; [lia|].
  destruct (n <? 10); [lia|]. specialize (IH (n / 10)). lia.
Qed.

Lemma digits_mono (fuel : nat) (n m : Z) : n <= m -> digits fuel n <= digits fuel m.
Proof.
  revert n m. induction fuel as [|fuel IH]; intros n m Hle; cbn [digits]; [lia|].
  destruct (Z.ltb_spec n 10), (Z.ltb_spec m 10); try lia.
  - pose proof (digits_pos fuel (m / 10)). lia.
  - assert (n / 10 <= m / 10) by (apply Z.div_le_mono; lia).
    specialize (IH (n / 10) (m / 10)). lia.
Qed.

Section Gutter.

Variable GetVisualX : Cursor -> Buffer -> Z.
Variable drawCells : View -> option Cursor.

Lemma Relocate_keeps_buffer (v v' : View) (ret : bool) :
  Relocate GetVisualX v = Some (v', ret) ->
  Buf v' = Buf v /\ x v' = x v /\ messages v' = messages v.
Proof.
  unfold Relocate. intros H.
  destruct (Bottomline v) as [bottom|]; [|discriminate]. cbn in H.
  destruct (asInt _) as [m|]; [|discriminate]. cbn in H.
  destruct (relocateBottom _ _ _ _ _) as [top r].
  destruct (asBool _) as [s|]; [|discriminate]. cbn in H.
  destruct (if negb s then _ else _) as [lcol r']. by injection H as <- _.
Qed.

(** X28.  After [DisplayView] of a view that is not an embedded
    terminal, the gutter is as wide as what it holds: with the ruler
    on, [lineNumOffset] leaves room for every line number of the
    buffer and the space after it; two columns more when a gutter
    message is shown, one more when the view is not at the left edge;
    and none of that, 0, with the ruler off, no message and the view
    at the left edge.  The width the view had before plays no part. *)
Theorem gutter_fits_every_line_number (v v' : View) :
  Type_ v <> vtTerm ->
  DisplayView GetVisualX drawCells v = Some v' ->
  NumLines (Buf v') = NumLines (Buf v)
  /\ lineNumOffset v' =
       (if isTrue (Settings (Buf v) !! "ruler") then itoaLen (NumLines (Buf v)) + 1 else 0)
       + (if hasGutterMessages v then 2 else 0)
       + (if x v =? 0 then 0 else 1)
  /\ (isTrue (Settings (Buf v) !! "ruler") = true ->
      forall n, 0 <= n <= NumLines (Buf v) -> itoaLen n + 1 <= lineNumOffset v').
Proof.
  intros Hterm H. unfold DisplayView in H.
  destruct (decide (Type_ v = vtTerm)) as [|_]; [contradiction|].
  destruct (asBool (Settings (Buf v) !! "softwrap")) as [s|]; [|discriminate].
  cbn [mbind option_bind] in H.
  set (v1 := if s && negb (leftCol v =? 0) then setLeftCol 0 v else v) in *.
  assert (H1 : Buf v1 = Buf v /\ x v1 = x v /\ messages v1 = messages v)
    by (unfold v1; destruct (_ && _); auto).
  clearbody v1. destruct H1 as (Hb1 & Hx1 & Hm1).
  destruct (if decide (Type_ v1 = vtLog ∨ Type_ v1 = vtRaw)
            then fst <$> Relocate GetVisualX v1 else Some v1) as [v2|] eqn:E2;
    [|discriminate].
  assert (H2 : Buf v2 = Buf v /\ x v2 = x v /\ messages v2 = messages v).
  { destruct (decide _).
    - destruct (Relocate GetVisualX v1) as [[u r]|] eqn:ER; [|discriminate].
      injection E2 as <-. apply Relocate_keeps_buffer in ER as (? & ? & ?).
      repeat split; congruence.
    - injection E2 as <-. auto. }
  destruct H2 as (Hb2 & Hx2 & Hm2). cbn [mbind option_bind] in H.
  destruct (drawCells _) as [c|]; [|discriminate]. cbn in H. injection H as <-.
  cbn [Buf lineNumOffset setCursor setLineNumOffset].
  unfold hasGutterMessages. rewrite Hb2, Hx2, Hm2.
  fold (hasGutterMessages v).
  assert (Hlen : forall n, 0 <= n -> 1 <= itoaLen n <= 21).
  { intros n Hn. unfold itoaLen. destruct (Z.ltb_spec n 0); [lia|].
    pose proof (digits_pos 20 n). lia. }
  assert (Hlen' : 1 <= itoaLen (NumLines (Buf v)) <= 22).
  { unfold itoaLen. destruct (_ <? 0).
    - pose proof (digits_pos 20 (- NumLines (Buf v))). lia.
    - pose proof (digits_pos 20 (NumLines (Buf v))). lia. }
  assert (Hoff : forall a b, 0 <= a <= 30 -> 0 <= b <= 2 -> add a b = a + b)
    by (intros a b Ha Hb; apply add_exact; unfold inRange, minInt, maxInt; lia).
  split; [reflexivity|].
  assert (Heq : (let off := if isTrue (Settings (Buf v) !! "ruler")
                            then add (itoaLen (NumLines (Buf v))) 1 else 0 in
                 let off := if hasGutterMessages v then add off 2 else off in
                 if negb (x v =? 0) then add off 1 else off)
                = (if isTrue (Settings (Buf v) !! "ruler")
                   then itoaLen (NumLines (Buf v)) + 1 else 0)
                  + (if hasGutterMessages v then 2 else 0)
                  + (if x v =? 0 then 0 else 1)).
  { cbv zeta.
    rewrite (Hoff (itoaLen (NumLines (Buf v))) 1) by lia.
    destruct (isTrue _), (hasGutterMessages v), (x v =? 0); cbn [negb];
      rewrite ?(Hoff _ 2) by lia; rewrite ?(Hoff _ 1) by lia; lia. }
  split; [exact Heq|].
  intros Hr n Hn. cbv zeta in Heq. rewrite Heq, Hr.
  assert (itoaLen n <= itoaLen (NumLines (Buf v))).
  { unfold itoaLen. destruct (Z.ltb_spec n 0); [lia|].
    destruct (Z.ltb_spec (NumLines (Buf v)) 0); [lia|]. apply digits_mono. lia. }
  destruct (hasGutterMessages v), (x v =? 0); lia.
Qed.

End Gutter.

Lemma gutter_fits_every_line_number_witness :
  exists v',
    DisplayView plainX (fun u => Some (Cursor_ u)) (rulerView 1234) = Some v'
    /\ lineNumOffset v' = 5.
Proof.
  assert (E : exists v',
             DisplayView plainX (fun u => Some (Cursor_ u)) (rulerView 1234) = Some v')
    by (eexists; vm_compute; reflexivity).
  destruct E as [v' E]. exists v'. split; [exact E|].
  destruct (gutter_fits_every_line_number plainX (fun u => Some (Cursor_ u))
              (rulerView 1234) v') as (_ & H & _); [discriminate | exact E |].
  rewrite H. reflexivity.
Defined.

End DisplayExtras.

(** ** Where a click puts the cursor *)

Module ClickExtras.

Import GoInt GoIntFacts Viewport ViewportMore ViewportScenarios.

Section Clicks.

Variable GetCharPosInLine : View -> Z -> Z -> Z.
Variable Count : list rune -> Z.

Lemma softWrapLoop_line (v : View) (vx vy : Z) (todo : nat) :
  1 <= NumLines (Buf v) <= 2 ^ 60 ->
  forall lineN sy col line,
    0 <= lineN ->
    softWrapLoop v vx vy todo lineN sy = Some (col, line) ->
    0 <= line <= NumLines (Buf v) - 1.
Proof.
  intros Hn. induction todo as [|todo IH]; intros lineN sy col line Hl H;
    cbn [softWrapLoop] in H.
  - injection H as _ <-. lia.
  - destruct (Z.leb_spec (NumLines (Buf v)) lineN).
    + injection H as _ <-.
      rewrite sub_exact by (unfold inRange, minInt, maxInt; lia). lia.
    + destruct (scanLine v vx vy (Line (Buf v) lineN) 0 sy 0) as [scan|];
        [|discriminate].
      cbn [mbind option_bind] in H. destruct scan as [c|sx sy' c].
      * injection H as _ <-. lia.
      * destruct (sy' =? vy); [injection H as _ <-; lia|].
        apply IH in H; [exact H|].
        rewrite add_exact by (unfold inRange, minInt, maxInt; lia). lia.
Qed.

Lemma clampClick_spec (v v1 : View) (cx cy x1 y1 : Z) :
  0 <= Topline v <= 2 ^ 60 ->
  clampClick v cx cy = (v1, x1, y1) ->
  Buf v1 = Buf v /\ 0 <= Topline v1 /\ 0 <= x1 /\ 0 <= y1.
Proof.
  intros Ht. unfold clampClick.
  assert (Hs : Buf (ScrollDown 1 v) = Buf v /\ 0 <= Topline (ScrollDown 1 v)).
  { unfold ScrollDown.
    rewrite (add_exact (Topline v) 1) by (unfold inRange, minInt, maxInt; lia).
    repeat match goal with |- context [if ?b then _ else _] => destruct b end;
      cbn; split; auto; lia. }
  destruct (sub (Height v) 1 <? sub cy (Topline v));
    intros H; injection H as <- <- <-;
    repeat match goal with |- context [?a <? 0] => destruct (Z.ltb_spec a 0) end;
    repeat split; try tauto; lia.
Qed.

(** X29.  A click never puts the cursor outside the buffer: when
    [MoveToMouseClick] returns, with or without soft wrap and
    wherever the click was, the cursor is on a line of the buffer,
    and its column is at most [Count] of that line. *)
Theorem click_puts_cursor_in_buffer (v v' : View) (cx cy : Z) :
  1 <= NumLines (Buf v) <= 2 ^ 60 ->
  0 <= Topline v <= 2 ^ 60 ->
  MoveToMouseClick GetCharPosInLine Count v cx cy = Some v' ->
  Buf v' = Buf v
  /\ 0 <= Y (Cursor_ v') <= NumLines (Buf v) - 1
  /\ X (Cursor_ v') <= Count (Line (Buf v) (Y (Cursor_ v'))).
Proof.
  intros Hn Ht H. unfold MoveToMouseClick in H.
  destruct (clampClick v cx cy) as [[v1 x1] y1] eqn:Ec.
  apply clampClick_spec in Ec as (Hb & Ht1 & Hx1 & Hy1); [|exact Ht].
  destruct (GetSoftWrapLocation GetCharPosInLine v1 x1 y1) as [[col line]|] eqn:Es;
    [|discriminate].
  cbn [mbind option_bind] in H. injection H as <-.
  cbn [Buf Cursor_ setCursor X Y]. rewrite Hb.
  assert (Hline : 0 <= line <= NumLines (Buf v) - 1).
  { unfold GetSoftWrapLocation in Es. rewrite Hb in Es.
    destruct (asBool _) as [[|]|]; [| |discriminate]; cbn [mbind option_bind negb] in Es.
    - destruct (Bottomline v1) as [bottom|]; [|discriminate].
      cbn [mbind option_bind] in Es.
      apply softWrapLoop_line in Es; rewrite ?Hb in *; auto.
    - injection Es as _ <-. destruct (Z.leb_spec (NumLines (Buf v)) y1); [|lia].
      rewrite sub_exact by (unfold inRange, minInt, maxInt; lia). lia. }
  split; [reflexivity|]. split; [exact Hline|].
  destruct (Z.ltb_spec (Count (Line (Buf v) line)) col); lia.
Qed.

End Clicks.

Lemma click_puts_cursor_in_buffer_witness :
  exists v',
    MoveToMouseClick (fun _ _ vx => vx) (fun l => Z.of_nat (length l))
                     (wrapView 0 0) 4 50 = Some v'
    /\ 0 <= Y (Cursor_ v') <= 9.
Proof.
  assert (E : exists v',
             MoveToMouseClick (fun _ _ vx => vx) (fun l => Z.of_nat (length l))
                              (wrapView 0 0) 4 50 = Some v')
    by (eexists; vm_compute; reflexivity).
  destruct E as [v' E]. exists v'. split; [exact E|].
  apply (click_puts_cursor_in_buffer (fun _ _ vx => vx) (fun l => Z.of_nat (length l))
           (wrapView 0 0) v' 4 50); [cbn; lia | cbn; lia | exact E].
Defined.

End ClickExtras.

(** ** LoadInput: one buffer or one message for each file *)

Module StartupExtras.

Import Dispatch Startup.

Lemma Split_nonempty (sep : ascii) (s : string) : exists h t, Split sep s = h :: t.
Proof.
  destruct s as [|a s]; cbn [Split]; [eauto|].
  destruct (Ascii.eqb a sep); [eauto|]. destruct (Split sep s); eauto.
Qed.

(** A string that contains the separator has two fields at least. *)
Lemma Split_two (s : string) :
  Contains s ":" = true -> exists a b r, Split ":" s = a :: b :: r.
Proof.
  induction s as [|c s IH]; cbn [Contains Split String.prefix]; [discriminate|].
  destruct (ascii_dec ":" c) as [<-|Hne].
  - intros _. cbn. destruct (Split_nonempty ":" s) as (h & t & ->). eauto.
  - assert (Hc : Ascii.eqb c ":" = false)
      by (apply Ascii.eqb_neq; congruence).
    rewrite Hc. cbn [orb]. intros H.
    destruct (IH H) as (a & b & r & ->). eauto.
Qed.

(** The [+] of the argument is in the first field. *)
Lemma Split_head (s : string) :
  exists h t, Split ":" (String "+" s) = String "+" h :: t.
Proof.
  cbn [Split]. change (Ascii.eqb "+" ":") with false.
  destruct (Split ":" s); eauto.
Qed.

(** No index of [LoadInput] is out of range: an argument that begins
    with [+] always yields a start position. *)
Lemma startPosOf_total (arg : string) :
  String.prefix "+" arg = true -> is_Some (startPosOf arg).
Proof.
  destruct arg as [|c s]; cbn [String.prefix]; [discriminate|].
  destruct (ascii_dec "+" c) as [<-|]; [intros _|discriminate].
  unfold startPosOf. destruct (Contains (String "+" s) ":") eqn:Hc.
  - destruct (Split_two _ Hc) as (a & b & r & E).
    destruct (Split_head s) as (h & t & E'). rewrite E in E'.
    injection E' as -> _. rewrite E. cbn. eauto.
  - cbn. eauto.
Qed.

Section Loading.

Context {B : Type}.
Variable NewBufferFromFile : string -> string -> B + string.
Variable NewBufferFromString : string -> string -> string -> B.
Variable IsTerminal : bool.
Variable ReadAll : string * option string.

Lemma lastStartPos_cons (arg : string) (rest : list string) (init : string) :
  lastStartPos (arg :: rest) init
  = lastStartPos rest (if isFile arg then init else default init (startPosOf arg)).
Proof. reflexivity. Qed.

Lemma loadArgs_accounts (args : list string) :
  forall (st : Start) (buffers : list B),
    exists more new,
      loadArgs NewBufferFromFile args st buffers
        = Some (buffers ++ more,
                mkStart (lastStartPos args (flagStartPos st)) (shown st ++ new))
      /\ (length more + length new = length (List.filter isFile args))%nat.
Proof.
  induction args as [|arg rest IH]; intros st buffers; cbn [loadArgs].
  - exists [], []. rewrite !app_nil_r. destruct st. split; reflexivity.
  - assert (Hf : isFile arg = negb (String.prefix "+" arg)) by reflexivity.
    rewrite lastStartPos_cons. cbn [List.filter]. rewrite Hf.
    destruct (String.prefix "+" arg) eqn:Hp; cbn [negb].
    + destruct (startPosOf_total arg Hp) as [pos Hpos]. rewrite Hpos.
      cbn [mbind option_bind default].
      destruct (IH (mkStart pos (shown st)) buffers) as (more & new & E & Hlen).
      exists more, new. split; [|exact Hlen]. rewrite E. reflexivity.
    + destruct (NewBufferFromFile arg (flagStartPos st)) as [buf|err].
      * destruct (IH st (buffers ++ [buf])) as (more & new & E & Hlen).
        exists (buf :: more), new. rewrite E, <- app_assoc. split; [reflexivity|].
        cbn [length]. lia.
      * destruct (IH (TermMessage err st) buffers) as (more & new & E & Hlen).
        exists more, (err :: new). rewrite E. cbn [TermMessage flagStartPos shown].
        rewrite <- app_assoc. split; [reflexivity|]. cbn [length]. lia.
Qed.

(** X30.  [LoadInput] always returns.  With no argument there is one
    buffer, read from the standard input when it is not a terminal.
    With arguments, each one that does not begin with [+] gives,
    in order, a buffer or a message of [TermMessage], so buffers and
    messages together are as many as such arguments; those that begin
    with [+] give neither, and [*flagStartPos] ends as the last of
    them set it.  So [+N] alone opens no buffer at all. *)
Theorem every_file_is_opened_or_reported (args : list string) (st : @Start) :
  exists buffers new,
    LoadInput NewBufferFromFile NewBufferFromString IsTerminal ReadAll args st
      = Some (buffers, mkStart (lastStartPos args (flagStartPos st)) (shown st ++ new))
    /\ (args = [] -> length buffers = 1%nat)
    /\ (args <> [] ->
        (length buffers + length new = length (List.filter isFile args))%nat)
    /\ (forallb (fun arg => negb (isFile arg)) args = true -> args <> [] ->
        buffers = [] /\ new = []).
Proof.
  unfold LoadInput. destruct args as [|arg rest].
  - cbn [length Nat.ltb Nat.leb lastStartPos fold_left].
    destruct (negb IsTerminal).
    + destruct ReadAll as [input [e|]].
      * eexists _, [_]. split; [reflexivity|]. split; [reflexivity|].
        split; [intros H; by destruct H | intros _ H; by destruct H].
      * eexists _, []. rewrite app_nil_r. destruct st.
        split; [reflexivity|]. split; [reflexivity|].
        split; [intros H; by destruct H | intros _ H; by destruct H].
    + eexists _, []. rewrite app_nil_r. destruct st.
      split; [reflexivity|]. split; [reflexivity|].
      split; [intros H; by destruct H | intros _ H; by destruct H].
  - change (0 <? length (arg :: rest))%nat with true. cbv iota.
    destruct (loadArgs_accounts (arg :: rest) st []) as (more & new & E & Hlen).
    exists more, new. rewrite E. cbn [app]. split; [reflexivity|].
    split; [discriminate|]. split; [intros _; exact Hlen|].
    intros Hall _.
    assert (Hnone : List.filter isFile (arg :: rest) = []).
    { clear -Hall. induction (arg :: rest) as [|a l IH]; [reflexivity|].
      cbn [forallb List.filter] in *. apply andb_true_iff in Hall as [Ha Hl].
      destruct (isFile a); [discriminate | by apply IH]. }
    rewrite Hnone in Hlen. cbn [length] in Hlen.
    destruct more, new; cbn [length] in Hlen; try lia. auto.
Qed.

End Loading.

End StartupExtras.
